(** * NestJS dependency analyzer: extraction, linking and DOT rendering

    A shallow embedding of [src/parsers/ast.parser.ts] (class [AstParser]),
    [src/analyzers/dependency.analyzer.ts] (class [DependencyAnalyzer]),
    [src/types/modules.types.ts] and [src/visualizers/dot.visualizer.ts]
    (class [DotVisualizer]), followed by the properties proved about them. *)

From Stdlib Require Import String Ascii List Arith Lia.
From stdpp Require Import base option list gmap strings pretty.

Local Open Scope string_scope.
Local Open Scope list_scope.
Local Open Scope nat_scope.
#[local] Set Warnings "-clear-no-such-hyp".

(** ** Strings *)

(** The double quote, the backslash and the line feed as characters. *)
Definition dquote : ascii := ascii_of_nat 34.
Definition backslash : ascii := ascii_of_nat 92.
Definition linefeed : ascii := ascii_of_nat 10.
Definition str (c : ascii) : string := String c EmptyString.

(** JS truthiness of a [string | undefined] value: undefined and the empty
    string are falsy. *)
Definition truthy (v : option string) : bool :=
  match v with
  | Some (String _ _) => true
  | _ => false
  end.

(** [s.includes(sub)] *)
Fixpoint includes (s sub : string) : bool :=
  String.prefix sub s ||
  match s with
  | EmptyString => false
  | String _ s' => includes s' sub
  end.

Fixpoint hasSlash (s : string) : bool :=
  match s with
  | EmptyString => false
  | String c s' => Ascii.eqb c "/" || hasSlash s'
  end.

(** [s.split('/').pop()]: the text after the last slash. *)
Fixpoint splitPop (s : string) : string :=
  match s with
  | EmptyString => EmptyString
  | String c s' =>
      if hasSlash s' then splitPop s'
      else if Ascii.eqb c "/" then s' else s
  end.

(** [[...new Set(l)]]: duplicates removed, first occurrences kept in order. *)
Fixpoint uniqFrom (seen l : list string) : list string :=
  match l with
  | [] => []
  | x :: t =>
      if bool_decide (x ∈ seen) then uniqFrom seen t
      else x :: uniqFrom (x :: seen) t
  end.

Definition uniq (l : list string) : list string := uniqFrom [] l.

(** ** Syntax trees (the part of the TypeScript AST the parser inspects)

    Every node carries its source text ([getText]) and its syntax kind; the
    [ts.isX] guards test the kind. *)

Inductive PropertyName : Type :=
  | IdentifierName (text : string)
  | OtherPropertyName.

Inductive Node : Type :=
  | mkNode (text : string) (k : SyntaxKind)
with SyntaxKind : Type :=
  | Identifier (text : string)
  | StringLiteral (text : string)
  | CallExpression (expression : Node) (arguments : list Node)
  | PropertyAccessExpression (expression : Node) (name : string)
  | ArrowFunction (body : Node)
  | ArrayLiteralExpression (elements : list Node)
  | ObjectLiteralExpression (properties : list ObjectLiteralElementLike)
  | OtherKind
with ObjectLiteralElementLike : Type :=
  | PropertyAssignment (name : PropertyName) (initializer : Node)
  | OtherObjectLiteralElement.

Definition getText (n : Node) : string := let 'mkNode t _ := n in t.
Definition kind (n : Node) : SyntaxKind := let 'mkNode _ k := n in k.

Inductive TypeNode : Type :=
  | TypeReferenceNode (typeName : string)   (* [typeName.getText()] *)
  | OtherTypeNode.

Record ParameterDeclaration := { param_type : option TypeNode }.

Inductive ClassElement : Type :=
  | ConstructorDeclaration (parameters : list ParameterDeclaration)
  | OtherClassElement.

Record Decorator := { dec_expression : Node }.

Record ClassDeclaration := {
  class_name : option string;             (* [name?.text] *)
  class_decorators : list Decorator;      (* [ts.getDecorators(node)] *)
  class_members : list ClassElement
}.

Inductive NamedImportBindings : Type :=
  | NamedImports (elements : list string)  (* [element.name.text] *)
  | NamespaceImport (name : string).

Record ImportClause := {
  ic_name : option string;
  ic_namedBindings : option NamedImportBindings
}.

Record ImportDeclaration := {
  importClause : option ImportClause;
  moduleSpecifier : Node
}.

Inductive Statement : Type :=
  | ClassDeclarationStatement (c : ClassDeclaration)
  | ImportDeclarationStatement (i : ImportDeclaration)
  | OtherStatement.

Record SourceFile := { fileName : string; statements : list Statement }.

(** ** Metadata records ([modules.types.ts]) *)

Inductive ProviderType : Type := class | value | factory.

Record ProviderMetadata := {
  p_name : string;
  p_type : ProviderType;
  p_dependencies : list string;
  p_isInjectable : bool;
  p_provide : option string;
  p_useClass : option string;
  p_useValue : option string;
  p_useFactory : option string;
  p_inject : option (list string)
}.

(** The module and import records are parametric in how a provider array
    refers to its elements. The parser builds provider objects and never
    assigns to them afterwards, so there an array holds the records
    themselves ([P := ProviderMetadata]). The analyzer assigns to
    [provider.dependencies] of objects that the snapshots of imports reach
    as well, so there an array holds the addresses of its elements in a
    store ([P := addr]). *)
Section Metadata.
Context {P : Type}.

(** [Partial<ModuleMetadata>] with the three fields the linker fills in. *)
Record PartialModule := {
  pm_name : string;
  pm_providers : list P;
  pm_controllers : list string
}.

Record ImportMetadata := {
  i_name : string;
  i_path : option string;
  i_isAsync : option bool;
  i_dependencies : option (list string);
  i_isForwardReference : option bool;
  i_module : option PartialModule
}.

Record ModuleMetadata := {
  m_name : string;
  m_filePath : option string;
  m_imports : list ImportMetadata;
  m_exports : list string;
  m_providers : list P;
  m_controllers : list string;
  m_entityCount : nat
}.
End Metadata.

Global Arguments PartialModule : clear implicits.
Global Arguments ImportMetadata : clear implicits.
Global Arguments ModuleMetadata : clear implicits.

(** ** The parser ([AstParser]) *)

Record ParserState := {
  uniqueIdCounter : nat;
  moduleCache : gmap string (ModuleMetadata ProviderMetadata);
  providerCache : gmap string ProviderMetadata
}.

Definition initialParserState : ParserState :=
  {| uniqueIdCounter := 1; moduleCache := ∅; providerCache := ∅ |}.

(** A parser method either returns a value and the parser's new state, or
    throws. *)
Inductive Outcome (A : Type) : Type :=
  | Returns (a : A) (s : ParserState)
  | Throws (e : string).
Global Arguments Returns {A} a s.
Global Arguments Throws {A} e.

Definition M (A : Type) : Type := ParserState → Outcome A.

Definition ret {A} (a : A) : M A := λ s, Returns a s.
Definition bind {A B} (m : M A) (f : A → M B) : M B :=
  λ s, match m s with
       | Returns a s' => f a s'
       | Throws e => Throws e
       end.
Definition throw {A} (e : string) : M A := λ _, Throws e.

Notation "x <- m ;; k" := (bind m (λ x, k))
  (at level 100, m at next level, right associativity).

(** [l.map(f)] for a callback [f] with effects, left to right. *)
Fixpoint mapEach {A B} (f : A → M B) (l : list A) : M (list B) :=
  match l with
  | [] => ret []
  | x :: t => y <- f x ;; ys <- mapEach f t ;; ret (y :: ys)
  end.

(** [ts.isArrayLiteralExpression(x)] and the like read [x.kind]: on
    [undefined] they raise a TypeError. *)
Definition TypeError : string := "TypeError".

Definition nextUniqueId : M nat :=
  λ s, Returns (uniqueIdCounter s)
         {| uniqueIdCounter := S (uniqueIdCounter s);
            moduleCache := moduleCache s;
            providerCache := providerCache s |}.

Definition generateUniqueName (prefix : string) : M string :=
  n <- nextUniqueId ;; ret (prefix +:+ "_" +:+ pretty n).

Definition setProviderCache (key : string) (p : ProviderMetadata) : M unit :=
  λ s, Returns tt
         {| uniqueIdCounter := uniqueIdCounter s;
            moduleCache := moduleCache s;
            providerCache := <[key := p]> (providerCache s) |}.

Definition setModuleCache (key : string) (m : ModuleMetadata ProviderMetadata) : M unit :=
  λ s, Returns tt
         {| uniqueIdCounter := uniqueIdCounter s;
            moduleCache := <[key := m]> (moduleCache s);
            providerCache := providerCache s |}.

Definition getState : M ParserState := λ s, Returns s s.

Definition isCallExpression (n : Node) : bool :=
  match kind n with CallExpression _ _ => true | _ => false end.
Definition isIdentifier (n : Node) : bool :=
  match kind n with Identifier _ => true | _ => false end.
Definition isPropertyAccessExpression (n : Node) : bool :=
  match kind n with PropertyAccessExpression _ _ => true | _ => false end.
Definition isArrayLiteralExpression (n : Node) : bool :=
  match kind n with ArrayLiteralExpression _ => true | _ => false end.
Definition isObjectLiteralExpression (n : Node) : bool :=
  match kind n with ObjectLiteralExpression _ => true | _ => false end.

Definition findDecorator (node : ClassDeclaration) (name : string) : option Decorator :=
  find (λ decorator,
          match kind (dec_expression decorator) with
          | CallExpression expression _ =>
              match kind expression with
              | Identifier text => String.eqb text name
              | PropertyAccessExpression _ n => String.eqb n name
              | _ => false
              end
          | _ => false
          end)
       (class_decorators node).

Definition hasDecorator (node : ClassDeclaration) (name : string) : bool :=
  bool_decide (is_Some (findDecorator node name)).

(** The initializer of the first property assignment whose name is the
    identifier [propertyName]. *)
Fixpoint findPropertyAssignment (properties : list ObjectLiteralElementLike)
    (propertyName : string) : option Node :=
  match properties with
  | [] => None
  | PropertyAssignment (IdentifierName text) initializer :: rest =>
      if String.eqb text propertyName then Some initializer
      else findPropertyAssignment rest propertyName
  | _ :: rest => findPropertyAssignment rest propertyName
  end.

Definition getPropertyValue (properties : list ObjectLiteralElementLike)
    (propertyName : string) : option string :=
  match findPropertyAssignment properties propertyName with
  | None => None
  | Some initializer =>
      match kind initializer with
      | Identifier text => Some text
      | StringLiteral text => Some text
      | _ => None
      end
  end.

Definition identifierTexts (elements : list Node) : list string :=
  omap (λ e, match kind e with Identifier text => Some text | _ => None end) elements.

Definition getArrayPropertyValue (properties : list ObjectLiteralElementLike)
    (propertyName : string) : option (list string) :=
  match findPropertyAssignment properties propertyName with
  | None => None
  | Some initializer =>
      match kind initializer with
      | ArrayLiteralExpression elements => Some (identifierTexts elements)
      | _ => None
      end
  end.

Section Parser.
Variable sourceFile : SourceFile.

Definition findClassDeclaration (className : string) : option ClassDeclaration :=
  head (omap (λ stmt,
                match stmt with
                | ClassDeclarationStatement c =>
                    match class_name c with
                    | Some text => if String.eqb text className then Some c else None
                    | None => None
                    end
                | _ => None
                end)
             (statements sourceFile)).

Definition extractConstructorDependencies (node : ClassDeclaration) : list string :=
  match head (omap (λ member,
                      match member with
                      | ConstructorDeclaration parameters => Some parameters
                      | OtherClassElement => None
                      end)
                   (class_members node)) with
  | None => []
  | Some parameters =>
      omap (λ param,
              match param_type param with
              | Some (TypeReferenceNode typeName) => Some typeName
              | _ => None
              end)
           parameters
  end.

Definition isClassInjectable (className : string) : bool :=
  match findClassDeclaration className with
  | Some classDecl => hasDecorator classDecl "Injectable"
  | None => false
  end.

Definition importMatches (text : string) (stmt : Statement) : option ImportDeclaration :=
  match stmt with
  | ImportDeclarationStatement decl =>
      match importClause decl with
      | None => None
      | Some clause =>
          if bool_decide (ic_name clause = Some text) then Some decl
          else match ic_namedBindings clause with
               | None => None
               | Some (NamedImports elements) =>
                   if existsb (λ e, String.eqb e text) elements then Some decl else None
               | Some (NamespaceImport name) =>
                   if String.eqb name text then Some decl else None
               end
      end
  | _ => None
  end.

Definition resolveImportPath (identifier : Node) : option string :=
  match head (omap (importMatches (getText identifier)) (statements sourceFile)) with
  | None => None
  | Some importDecl =>
      match kind (moduleSpecifier importDecl) with
      | StringLiteral path =>
          if String.prefix "@nestjs/" path then Some (splitPop path) else Some path
      | _ => None
      end
  end.

Definition createImportMetadata (identifier : Node) (text : string)
    : ImportMetadata ProviderMetadata :=
  {| i_name := text;
     i_path := resolveImportPath identifier;
     i_isAsync := Some false;
     i_dependencies := Some [];
     i_isForwardReference := None;
     i_module := None |}.

Definition createUnknownImport : M (ImportMetadata ProviderMetadata) :=
  n <- nextUniqueId ;;
  ret {| i_name := "UnknownModule_" +:+ pretty n;
         i_path := None;
         i_isAsync := Some false;
         i_dependencies := Some [];
         i_isForwardReference := None;
         i_module := None |}.

Definition parseAsyncImport (expression : Node) (arguments : list Node)
    : M (ImportMetadata ProviderMetadata) :=
  match kind expression with
  | Identifier text =>
      if String.eqb text "forwardRef" then
        match head arguments with
        | Some arrowFunc =>
            match kind arrowFunc with
            | ArrowFunction returnExpr =>
                match kind returnExpr with
                | Identifier returnText =>
                    ret {| i_name := returnText;
                           i_path := resolveImportPath returnExpr;
                           i_isAsync := Some true;
                           i_dependencies := Some [];
                           i_isForwardReference := Some true;
                           i_module := None |}
                | _ => createUnknownImport
                end
            | _ => createUnknownImport
            end
        | None => createUnknownImport
        end
      else
        ret {| i_name := text;
               i_path := resolveImportPath expression;
               i_isAsync := Some true;
               i_dependencies := Some [];
               i_isForwardReference := None;
               i_module := None |}
  | PropertyAccessExpression inner _ =>
      ret {| i_name := getText inner;
             i_path := resolveImportPath inner;
             i_isAsync := Some true;
             i_dependencies := Some [];
             i_isForwardReference := None;
             i_module := None |}
  | _ => createUnknownImport
  end.

(** The callback of [extractImports]'s [elements.map]. *)
Definition importOfElement (element : Node) : M (ImportMetadata ProviderMetadata) :=
  match kind element with
  | Identifier text => ret (createImportMetadata element text)
  | CallExpression expression arguments => parseAsyncImport expression arguments
  | _ => createUnknownImport
  end.

Definition extractImports (node : list ObjectLiteralElementLike)
    : M (list (ImportMetadata ProviderMetadata)) :=
  match findPropertyAssignment node "imports" with
  | None => ret []
  | Some initializer =>
      match kind initializer with
      | ArrayLiteralExpression elements => mapEach importOfElement elements
      | _ => ret []
      end
  end.

(** [const [x] = element.arguments; if (ts.isArrayLiteralExpression(x))
    entityCount += x.elements.length]: with no argument the guard reads
    [undefined.kind]. *)
Definition addFirstArrayLength (arguments : list Node) (entityCount : nat) : M nat :=
  match head arguments with
  | None => throw TypeError
  | Some entityArray =>
      match kind entityArray with
      | ArrayLiteralExpression elements => ret (entityCount + length elements)
      | _ => ret entityCount
      end
  end.

Definition addConfigEntities (arguments : list Node) (entityCount : nat) : M nat :=
  match head arguments with
  | None => throw TypeError
  | Some config =>
      match kind config with
      | ObjectLiteralExpression properties =>
          match findPropertyAssignment properties "entities" with
          | Some initializer =>
              match kind initializer with
              | ArrayLiteralExpression elements => ret (entityCount + length elements)
              | _ => ret entityCount
              end
          | None => ret entityCount
          end
      | _ => ret entityCount
      end
  end.

(** The body of the loop of [extractEntityCount] for one call expression:
    the four checks in source order, each adding to the running count. *)
Definition countCallEntities (expression : Node) (arguments : list Node)
    (entityCount : nat) : M nat :=
  match kind expression with
  | PropertyAccessExpression inner _ =>
      c1 <- (if String.eqb (getText expression) "TypeOrmModule.forFeature"
             then addFirstArrayLength arguments entityCount else ret entityCount) ;;
      c2 <- (if String.eqb (getText inner) "TypeOrmModule"
             then addConfigEntities arguments c1 else ret c1) ;;
      c3 <- (if String.eqb (getText expression) "MongooseModule.forFeature"
             then addFirstArrayLength arguments c2 else ret c2) ;;
      (if String.eqb (getText expression) "SequelizeModule.forFeature"
       then addFirstArrayLength arguments c3 else ret c3)
  | _ => ret entityCount
  end.

Definition countElementEntities (element : Node) (entityCount : nat) : M nat :=
  match kind element with
  | CallExpression expression arguments => countCallEntities expression arguments entityCount
  | _ => ret entityCount
  end.

Fixpoint countEntities (elements : list Node) (entityCount : nat) : M nat :=
  match elements with
  | [] => ret entityCount
  | element :: rest =>
      n <- countElementEntities element entityCount ;; countEntities rest n
  end.

Definition extractEntityCount (node : list ObjectLiteralElementLike) : M nat :=
  match findPropertyAssignment node "imports" with
  | None => ret 0
  | Some initializer =>
      match kind initializer with
      | ArrayLiteralExpression elements => countEntities elements 0
      | _ => ret 0
      end
  end.

Definition extractExports (node : list ObjectLiteralElementLike) : list string :=
  match findPropertyAssignment node "exports" with
  | None => []
  | Some initializer =>
      match kind initializer with
      | ArrayLiteralExpression elements => identifierTexts elements
      | _ => []
      end
  end.

Definition extractControllers (node : list ObjectLiteralElementLike) : list string :=
  match findPropertyAssignment node "controllers" with
  | None => []
  | Some initializer =>
      match kind initializer with
      | ArrayLiteralExpression elements => identifierTexts elements
      | _ => []
      end
  end.

Definition createProviderMetadata (text : string) : ProviderMetadata :=
  let classDecl := findClassDeclaration text in
  {| p_name := text;
     p_type := class;
     p_dependencies :=
       match classDecl with
       | Some c => extractConstructorDependencies c
       | None => []
       end;
     p_isInjectable :=
       match classDecl with
       | Some c => hasDecorator c "Injectable"
       | None => false
       end;
     p_provide := Some text;
     p_useClass := None;
     p_useValue := None;
     p_useFactory := None;
     p_inject := None |}.

(** The type and the dependencies [parseProviderObjectLiteral] settles on,
    by the truthiness of [useClass], then of [useFactory], then by
    [useValue !== undefined]; [class] with no dependencies is the initial
    value of the two variables. *)
Definition providerBinding (node : list ObjectLiteralElementLike)
    (useClass useValue useFactory : option string) : ProviderType * list string :=
  if truthy useClass then
    (class,
     match findClassDeclaration (default EmptyString useClass) with
     | Some classDecl => extractConstructorDependencies classDecl
     | None => []
     end)
  else if truthy useFactory then
    (factory, default [] (getArrayPropertyValue node "inject"))
  else if bool_decide (is_Some useValue) then (value, [])
  else (class, []).

Definition parseProviderObjectLiteral (node : list ObjectLiteralElementLike)
    : M (option ProviderMetadata) :=
  let provide := getPropertyValue node "provide" in
  if negb (truthy provide) then ret None
  else
    let name := default EmptyString provide in
    let useClass := getPropertyValue node "useClass" in
    let useValue := getPropertyValue node "useValue" in
    let useFactory := getPropertyValue node "useFactory" in
    let '(type, dependencies) := providerBinding node useClass useValue useFactory in
    let metadata :=
      {| p_name := name;
         p_type := type;
         p_dependencies := dependencies;
         p_isInjectable :=
           match type with
           | class => isClassInjectable (if truthy useClass
                                         then default EmptyString useClass else name)
           | _ => false
           end;
         p_provide := provide;
         p_useClass := useClass;
         p_useValue := useValue;
         p_useFactory := useFactory;
         p_inject := Some dependencies |} in
    _ <- setProviderCache name metadata ;;
    ret (Some metadata).

Definition parseProvider (element : Node) : M (option ProviderMetadata) :=
  match kind element with
  | Identifier text =>
      let provider := createProviderMetadata text in
      _ <- setProviderCache (p_name provider) provider ;;
      ret (Some provider)
  | ObjectLiteralExpression properties => parseProviderObjectLiteral properties
  | _ => ret None
  end.

Definition extractProviders (node : list ObjectLiteralElementLike)
    : M (list ProviderMetadata) :=
  match findPropertyAssignment node "providers" with
  | None => ret []
  | Some initializer =>
      match kind initializer with
      | ArrayLiteralExpression elements =>
          parsed <- mapEach parseProvider elements ;;
          ret (omap id parsed)
      | _ => ret []
      end
  end.

Definition createEmptyModuleMetadata : M (ModuleMetadata ProviderMetadata) :=
  name <- generateUniqueName "Module" ;;
  ret {| m_name := name;
         m_filePath := None;
         m_imports := [];
         m_exports := [];
         m_providers := [];
         m_controllers := [];
         m_entityCount := 0 |}.

Definition parseModuleDecorator (node : ClassDeclaration)
    : M (ModuleMetadata ProviderMetadata) :=
  match findDecorator node "Module" with
  | None => createEmptyModuleMetadata
  | Some decorator =>
      match kind (dec_expression decorator) with
      | CallExpression _ arguments =>
          match head arguments with
          | None => createEmptyModuleMetadata
          | Some argument =>
              match kind argument with
              | ObjectLiteralExpression properties =>
                  name <- match class_name node with
                          | Some text => ret text
                          | None => generateUniqueName "Module"
                          end ;;
                  imports <- extractImports properties ;;
                  providers <- extractProviders properties ;;
                  entityCount <- extractEntityCount properties ;;
                  ret {| m_name := name;
                         m_filePath := Some (fileName sourceFile);
                         m_imports := imports;
                         m_exports := extractExports properties;
                         m_providers := providers;
                         m_controllers := extractControllers properties;
                         m_entityCount := entityCount |}
              | _ => createEmptyModuleMetadata
              end
          end
      | _ => createEmptyModuleMetadata
      end
  end.
End Parser.

(** *** Second-pass enrichment *)

Definition getModuleDependencies
    (cache : gmap string (ModuleMetadata ProviderMetadata)) (moduleName : string)
    : list string :=
  match cache !! moduleName with
  | None => []
  | Some cachedModule =>
      map i_name (m_imports cachedModule) ++ map p_name (m_providers cachedModule)
  end.

(** [directDeps.flatMap(f)] for a callback [f] that threads the shared
    [visited] set and may fail to return. *)
Fixpoint flatMapVisited
    (f : string → gset string → option (list string * gset string))
    (deps : list string) (visited : gset string)
    : option (list string * gset string) :=
  match deps with
  | [] => Some ([], visited)
  | dep :: rest =>
      match f dep visited with
      | None => None
      | Some (r, visited') =>
          match flatMapVisited f rest visited' with
          | None => None
          | Some (rs, visited'') => Some (r ++ rs, visited'')
          end
      end
  end.

(** [getProviderDependencyTree(providerName, visited)]: the JS recursion,
    with the recursion depth bounded by [fuel] ([None]: the bound was
    reached). The result is paired with the [visited] set, which the callee
    mutates. *)
Fixpoint dependencyTree (fuel : nat) (cache : gmap string ProviderMetadata)
    (providerName : string) (visited : gset string)
    : option (list string * gset string) :=
  match fuel with
  | 0 => None
  | S fuel' =>
      if decide (providerName ∈ visited) then Some ([], visited)
      else
        let visited := {[providerName]} ∪ visited in
        match cache !! providerName with
        | None => Some ([], visited)
        | Some provider =>
            let directDeps := p_dependencies provider in
            match flatMapVisited (dependencyTree fuel' cache) directDeps visited with
            | None => None
            | Some (nestedDeps, visited') =>
                Some (uniq (directDeps ++ nestedDeps), visited')
            end
        end
  end.

(** The call [getProviderDependencyTree(providerName)] with the default
    [visited = new Set()]; a depth of one more than the number of cached
    providers is enough, as proved below. *)
Definition getProviderDependencyTree (cache : gmap string ProviderMetadata)
    (providerName : string) : option (list string) :=
  fst <$> dependencyTree (S (size cache)) cache providerName ∅.

Definition withImportDependencies {P} (imp : ImportMetadata P) (deps : list string)
    : ImportMetadata P :=
  {| i_name := i_name imp;
     i_path := i_path imp;
     i_isAsync := i_isAsync imp;
     i_dependencies := Some deps;
     i_isForwardReference := i_isForwardReference imp;
     i_module := i_module imp |}.

Definition withDependencies (p : ProviderMetadata) (deps : list string) : ProviderMetadata :=
  {| p_name := p_name p;
     p_type := p_type p;
     p_dependencies := deps;
     p_isInjectable := p_isInjectable p;
     p_provide := p_provide p;
     p_useClass := p_useClass p;
     p_useValue := p_useValue p;
     p_useFactory := p_useFactory p;
     p_inject := p_inject p |}.

Definition enrichProvider (cache : gmap string ProviderMetadata) (provider : ProviderMetadata)
    : option ProviderMetadata :=
  withDependencies provider <$> getProviderDependencyTree cache (p_name provider).

(** [enrichWithSecondLevelDependencies(module)]; [None] if a dependency tree
    does not return. *)
Definition enrichWithSecondLevelDependencies (s : ParserState)
    (module : ModuleMetadata ProviderMetadata)
    : option (ModuleMetadata ProviderMetadata) :=
  let imports :=
    map (λ importMeta,
           withImportDependencies importMeta
             (getModuleDependencies (moduleCache s) (i_name importMeta)))
        (m_imports module) in
  providers ← mapM (enrichProvider (providerCache s)) (m_providers module);
  Some {| m_name := m_name module;
          m_filePath := m_filePath module;
          m_imports := imports;
          m_exports := m_exports module;
          m_providers := providers;
          m_controllers := m_controllers module;
          m_entityCount := m_entityCount module |}.

Definition findModuleClass (sourceFile : SourceFile) : option ClassDeclaration :=
  head (omap (λ stmt,
                match stmt with
                | ClassDeclarationStatement c =>
                    let text := default EmptyString (class_name c) in
                    if truthy (class_name c)
                       && hasDecorator c "Module"
                       && negb (includes text "Unknown")
                       && negb (includes text "Angular")
                    then Some c else None
                | _ => None
                end)
             (statements sourceFile)).

(** [parseModule()]. The module cache holds the very object that enrichment
    then mutates, so after enrichment the cache entry is the enriched
    record. A dependency tree that does not return shows as a RangeError
    (call stack exhausted). *)
Definition parseModule (sourceFile : SourceFile)
    : M (option (ModuleMetadata ProviderMetadata)) :=
  match findModuleClass sourceFile with
  | None => ret None
  | Some moduleClass =>
      metadata <- parseModuleDecorator sourceFile moduleClass ;;
      if negb (truthy (Some (m_name metadata))) then ret None
      else
        _ <- setModuleCache (m_name metadata) metadata ;;
        s <- getState ;;
        match enrichWithSecondLevelDependencies s metadata with
        | None => throw "RangeError"
        | Some enriched =>
            _ <- setModuleCache (m_name metadata) enriched ;;
            ret (Some enriched)
        end
  end.

(** ** The analyzer ([DependencyAnalyzer])

    The linker assigns to [provider.dependencies] of provider objects that
    are reachable both from their module's [providers] array and from the
    [module] snapshot of every import that resolved to that module (the
    snapshot shares the array). Provider objects therefore live in a store
    and arrays hold their addresses. The arrays themselves are never
    mutated, nor are name, file path or controllers of a module. *)

(** Addresses of provider objects. *)
Abbreviation addr := nat (only parsing).

(** [modules] is the JS [Map] in insertion order, as (key, value) pairs. *)
Record Analyzer := {
  modules : list (string * ModuleMetadata addr);
  store : gmap addr ProviderMetadata
}.

Definition moduleValues (st : Analyzer) : list (ModuleMetadata addr) :=
  map snd (modules st).

(** The provider objects an array of addresses holds. *)
Definition providersAt (h : gmap addr ProviderMetadata) (array : list addr)
    : list ProviderMetadata :=
  omap (λ a, h !! a) array.

Definition snapshotOf (m : ModuleMetadata addr) : PartialModule addr :=
  {| pm_name := m_name m;
     pm_providers := m_providers m;
     pm_controllers := m_controllers m |}.

(** The callback of [module.imports.map] in [resolveModuleDependencies]. *)
Definition linkImport (values : list (ModuleMetadata addr)) (imp : ImportMetadata addr)
    : ImportMetadata addr :=
  let importedModule := find (λ m, String.eqb (m_name m) (i_name imp)) values in
  {| i_name := i_name imp;
     i_path := importedModule ≫= m_filePath;
     i_isAsync := i_isAsync imp;
     i_dependencies := i_dependencies imp;
     i_isForwardReference := i_isForwardReference imp;
     i_module := snapshotOf <$> importedModule |}.

Definition providerMatches (name : string) (p : ProviderMetadata) : bool :=
  String.eqb (p_name p) name || bool_decide (p_provide p = Some name).

Fixpoint findProviderIn (h : gmap addr ProviderMetadata)
    (values : list (ModuleMetadata addr)) (name : string) : option ProviderMetadata :=
  match values with
  | [] => None
  | module :: rest =>
      match find (providerMatches name) (providersAt h (m_providers module)) with
      | Some provider => Some provider
      | None => findProviderIn h rest name
      end
  end.

Definition findProviderByName (st : Analyzer) (name : string) : option ProviderMetadata :=
  findProviderIn (store st) (moduleValues st) name.

(** [this.findProviderByName(dep)?.name ?? dep] *)
Definition resolveDependency (st : Analyzer) (dep : string) : string :=
  match findProviderByName st dep with
  | Some resolvedProvider => p_name resolvedProvider
  | None => dep
  end.

(** The callback of [module.providers.forEach]: the provider object at [a]
    gets a new dependencies array. *)
Definition linkProvider (st : Analyzer) (a : addr) : Analyzer :=
  match store st !! a with
  | Some provider =>
      {| modules := modules st;
         store := <[a := withDependencies provider
                           (map (resolveDependency st) (p_dependencies provider))]>
                    (store st) |}
  | None => st
  end.

Definition withImports (m : ModuleMetadata addr) (imports : list (ImportMetadata addr))
    : ModuleMetadata addr :=
  {| m_name := m_name m;
     m_filePath := m_filePath m;
     m_imports := imports;
     m_exports := m_exports m;
     m_providers := m_providers m;
     m_controllers := m_controllers m;
     m_entityCount := m_entityCount m |}.

(** The callback of [this.modules.forEach], for the module at position [i]
    of the map. *)
Definition linkModule (st : Analyzer) (i : nat) : Analyzer :=
  match modules st !! i with
  | Some (key, module) =>
      let imports := map (linkImport (moduleValues st)) (m_imports module) in
      let st1 := {| modules := <[i := (key, withImports module imports)]> (modules st);
                    store := store st |} in
      foldl linkProvider st1 (m_providers module)
  | None => st
  end.

Definition resolveModuleDependencies (st : Analyzer) : Analyzer :=
  foldl linkModule st (seq 0 (length (modules st))).

(** *** Registration of the extractor's results

    [this.modules.set(moduleMetadata.name, {...moduleMetadata, filePath})]:
    the provider objects the parser built become objects of the store, each
    at an address of its own, and the imports are stored as they are (the
    parser never sets [module] on an import). *)

Fixpoint allocate (providers : list ProviderMetadata) (h : gmap addr ProviderMetadata)
    : list addr * gmap addr ProviderMetadata :=
  match providers with
  | [] => ([], h)
  | provider :: rest =>
      let a := fresh (dom h) in
      let '(array, h') := allocate rest (<[a := provider]> h) in
      (a :: array, h')
  end.

Definition storeImport (imp : ImportMetadata ProviderMetadata) : ImportMetadata addr :=
  {| i_name := i_name imp;
     i_path := i_path imp;
     i_isAsync := i_isAsync imp;
     i_dependencies := i_dependencies imp;
     i_isForwardReference := i_isForwardReference imp;
     i_module := None |}.

(** [Map.prototype.set]: an existing key keeps its position. *)
Fixpoint mapSet {V} (key : string) (v : V) (entries : list (string * V))
    : list (string * V) :=
  match entries with
  | [] => [(key, v)]
  | (k, x) :: rest =>
      if String.eqb k key then (key, v) :: rest else (k, x) :: mapSet key v rest
  end.

Definition registerModule (st : Analyzer) (filePath : string)
    (moduleMetadata : ModuleMetadata ProviderMetadata) : Analyzer :=
  if truthy (Some (m_name moduleMetadata)) then
    let '(array, h) := allocate (m_providers moduleMetadata) (store st) in
    {| modules :=
         mapSet (m_name moduleMetadata)
           {| m_name := m_name moduleMetadata;
              m_filePath := Some filePath;
              m_imports := map storeImport (m_imports moduleMetadata);
              m_exports := m_exports moduleMetadata;
              m_providers := array;
              m_controllers := m_controllers moduleMetadata;
              m_entityCount := m_entityCount moduleMetadata |}
           (modules st);
       store := h |}
  else st.

(** The analyzer's [parseModule(filePath)] on the syntax tree of the file,
    with a parser of its own; an exception ends the analysis. *)
Definition analyzeFile (st : string + Analyzer) (file : SourceFile) : string + Analyzer :=
  match st with
  | inl e => inl e
  | inr st =>
      match parseModule file initialParserState with
      | Throws e => inl e
      | Returns None _ => inr st
      | Returns (Some moduleMetadata) _ =>
          inr (registerModule st (fileName file) moduleMetadata)
      end
  end.

(** [analyze()] over the module files in directory-traversal order. *)
Definition analyze (files : list SourceFile) : string + Analyzer :=
  match foldl analyzeFile (inr {| modules := []; store := ∅ |}) files with
  | inl e => inl e
  | inr st => inr (resolveModuleDependencies st)
  end.

(** ** The diagram renderer ([DotVisualizer]) *)

Fixpoint escapeName (name : string) : string :=
  match name with
  | EmptyString => EmptyString
  | String c rest =>
      if Ascii.eqb c dquote then String backslash (String dquote (escapeName rest))
      else String c (escapeName rest)
  end.

Fixpoint escapeLinefeeds (label : string) : string :=
  match label with
  | EmptyString => EmptyString
  | String c rest =>
      if Ascii.eqb c linefeed then String backslash (String "n" (escapeLinefeeds rest))
      else String c (escapeLinefeeds rest)
  end.

Definition escapeLabel (label : string) : string := escapeLinefeeds (escapeName label).

Definition quoted (s : string) : string := str dquote +:+ s +:+ str dquote.

(** The two characters the template literal writes for [\\n]. *)
Definition backslash_n : string := String backslash "n".

Definition nodeLine (moduleName : string) (module : ModuleMetadata addr) : string :=
  let label :=
    escapeLabel (moduleName +:+ backslash_n
                 +:+ "Controllers: " +:+ pretty (length (m_controllers module)) +:+ backslash_n
                 +:+ "Providers: " +:+ pretty (length (m_providers module)) +:+ backslash_n
                 +:+ "Imports: " +:+ pretty (length (m_imports module)) +:+ backslash_n
                 +:+ "Entities: " +:+ pretty (m_entityCount module)) in
  "  " +:+ quoted (escapeName moduleName) +:+ " [label=" +:+ quoted label +:+ "];".

Definition forwardRefStyle : string :=
  "[label=" +:+ quoted "imports (forward ref)" +:+ ", style=dashed, color=red]".
Definition plainStyle : string := "[label=" +:+ quoted "imports" +:+ "]".

Definition importLine (moduleName : string) (imp : ImportMetadata addr) : string :=
  let edgeStyle :=
    match i_isForwardReference imp with
    | Some true => forwardRefStyle
    | _ => plainStyle
    end in
  "  " +:+ quoted (escapeName moduleName) +:+ " -> " +:+ quoted (escapeName (i_name imp))
  +:+ " " +:+ edgeStyle +:+ ";".

Definition providerLine (provider : ProviderMetadata) (dep : string) : string :=
  "  " +:+ quoted (escapeName (p_name provider)) +:+ " -> " +:+ quoted (escapeName dep)
  +:+ " [color=blue, style=dashed];".

Definition generateLines (st : Analyzer) : list string :=
  ["digraph {"; "  rankdir=LR;";
   "  node [shape=box, style=filled, fillcolor=lightgray];"; EmptyString]
  ++ map (λ '(moduleName, module), nodeLine moduleName module) (modules st)
  ++ [EmptyString]
  ++ concat (map (λ '(moduleName, module), map (importLine moduleName) (m_imports module))
                 (modules st))
  ++ concat (map (λ '(_, module),
                    concat (map (λ provider,
                                   map (providerLine provider) (p_dependencies provider))
                                (providersAt (store st) (m_providers module))))
                 (modules st))
  ++ ["}"].

Definition generate (st : Analyzer) : string :=
  String.concat (str linefeed) (generateLines st).

(** ** Vocabulary of the properties *)

(** The record [createEmptyModuleMetadata] builds when the parser's counter
    is [n]. *)
Definition placeholderModule (n : nat) : ModuleMetadata ProviderMetadata :=
  {| m_name := "Module_" +:+ pretty n;
     m_filePath := None;
     m_imports := [];
     m_exports := [];
     m_providers := [];
     m_controllers := [];
     m_entityCount := 0 |}.

Definition advanceCounter (s : ParserState) : ParserState :=
  {| uniqueIdCounter := S (uniqueIdCounter s);
     moduleCache := moduleCache s;
     providerCache := providerCache s |}.

(** A property is present in an object literal, whatever its initializer. *)
Definition hasField (node : list ObjectLiteralElementLike) (propertyName : string) : Prop :=
  is_Some (findPropertyAssignment node propertyName).

(** A property is present and its initializer is an identifier or a string
    literal with non-empty text: what the parser's truthiness tests accept. *)
Definition hasNamedField (node : list ObjectLiteralElementLike) (propertyName : string)
    : bool :=
  truthy (getPropertyValue node propertyName).

(** The callee texts of the array-taking entity registrations. *)
Definition forFeatureForms : list string :=
  ["TypeOrmModule.forFeature"; "MongooseModule.forFeature"; "SequelizeModule.forFeature"].

(** A call whose callee matches none of the entity-registration forms: not a
    property access, or neither one of [forFeatureForms] nor a method of
    [TypeOrmModule]. *)
Definition unrecognizedCall (expression : Node) : bool :=
  match kind expression with
  | PropertyAccessExpression inner _ =>
      negb (bool_decide (getText expression ∈ forFeatureForms))
      && negb (String.eqb (getText inner) "TypeOrmModule")
  | _ => true
  end.

(** [entityCount] raised by [k], or the same exception. *)
Definition raisedBy (k : nat) (o : Outcome nat) : Outcome nat :=
  match o with
  | Returns n s => Returns (n + k) s
  | Throws e => Throws e
  end.

(** The call shapes [parseAsyncImport] turns into an import of a named
    module (anything else becomes an [UnknownModule_<n>] placeholder): a
    property-access callee, an identifier callee other than [forwardRef], or
    [forwardRef] applied to an arrow function whose body is an identifier. *)
Definition namedCallImport (element : Node) : bool :=
  match kind element with
  | CallExpression expression arguments =>
      match kind expression with
      | Identifier text =>
          if String.eqb text "forwardRef" then
            match head arguments with
            | Some arrowFunc =>
                match kind arrowFunc with
                | ArrowFunction returnExpr => isIdentifier returnExpr
                | _ => false
                end
            | None => false
            end
          else true
      | PropertyAccessExpression _ _ => true
      | _ => false
      end
  | _ => false
  end.

(** What the linker never changes: of a provider object its name and
    token, of a module everything but its imports. *)
Definition providerIdentity (p : ProviderMetadata) : string * option string :=
  (p_name p, p_provide p).

Definition moduleSkeleton (m : ModuleMetadata addr)
    : string * option string * list addr * list string :=
  (m_name m, m_filePath m, m_providers m, m_controllers m).

Definition sameShape (st st' : Analyzer) : Prop :=
  map moduleSkeleton (moduleValues st') = map moduleSkeleton (moduleValues st)
  ∧ ∀ a, providerIdentity <$> store st' !! a = providerIdentity <$> store st !! a.

(** The addresses in all provider arrays, and the provider objects there,
    in the order [findProviderByName] scans them. *)
Definition allArrays (st : Analyzer) : list addr :=
  concat (map m_providers (moduleValues st)).

Definition allProviders (st : Analyzer) : list ProviderMetadata :=
  providersAt (store st) (allArrays st).

(** [dep'] is what the scan for [dep] over the providers [scanned] gives:
    the name of the first provider whose name or token is [dep], or [dep]
    itself when there is none. *)
Definition resolvesTo (scanned : list ProviderMetadata) (dep dep' : string) : Prop :=
  (∃ before q after,
     scanned = before ++ q :: after
     ∧ Forall (λ r, p_name r ≠ dep ∧ p_provide r ≠ Some dep) before
     ∧ (p_name q = dep ∨ p_provide q = Some dep)
     ∧ dep' = p_name q)
  ∨ (Forall (λ r, p_name r ≠ dep ∧ p_provide r ≠ Some dep) scanned ∧ dep' = dep).

(** The provider object [p] after one visit of the linker in state [st]. *)
Definition relinked (st : Analyzer) (p : ProviderMetadata) : ProviderMetadata :=
  withDependencies p (map (resolveDependency st) (p_dependencies p)).

Definition linkedEntry (st : Analyzer) (entry : string * ModuleMetadata addr)
    : string * ModuleMetadata addr :=
  (entry.1, withImports entry.2 (map (linkImport (moduleValues st)) (m_imports entry.2))).

Definition relinkAll (st : Analyzer) (h : gmap addr ProviderMetadata) (array : list addr)
    : gmap addr ProviderMetadata :=
  foldl (λ h a, alter (relinked st) a h) h array.

(** The name of every provider of the mapping resolves to itself. *)
Definition canonicalStable (st : Analyzer) : Prop :=
  ∀ p, p ∈ allProviders st → resolveDependency st (p_name p) = p_name p.

(** Every provider's token, when it has one, is its name: what the parser
    produces. *)
Definition tokensAreNames (st : Analyzer) : Prop :=
  ∀ p, p ∈ allProviders st → p_provide p = Some (p_name p) ∨ p_provide p = None.

Definition tokenIsName (p : ProviderMetadata) : Prop := p_provide p = Some (p_name p).

(** The states the analyzer builds from the parser's results: the provider
    arrays hold distinct objects of the store, and every provider's token is
    its name. *)
Definition wellFormed (st : Analyzer) : Prop :=
  NoDup (allArrays st)
  ∧ (∀ a, a ∈ allArrays st → is_Some (store st !! a))
  ∧ (∀ a p, store st !! a = Some p → tokenIsName p).

(** The state of the linker's loop over [st0] after the first [i] modules. *)
Definition afterModules (st0 : Analyzer) (i : nat) : Analyzer :=
  {| modules := map (linkedEntry st0) (take i (modules st0)) ++ drop i (modules st0);
     store := relinkAll st0 (store st0)
                (concat (map (λ entry, m_providers entry.2) (take i (modules st0)))) |}.

(** The termination measure of the dependency tree: cached names not yet
    visited. *)
Definition unvisited (cache : gmap string ProviderMetadata) (visited : gset string) : nat :=
  size (dom cache ∖ visited).

(** A step of the entity count adds to the running count, whatever it is. *)
Definition additive (f : nat → M nat) : Prop :=
  ∀ n k s, f (n + k) s = raisedBy k (f n s).

(** ** Sample inputs *)

Definition ident (text : string) : Node := mkNode text (Identifier text).
Definition stringLit (text : string) : Node := mkNode (quoted text) (StringLiteral text).
Definition field (name : string) (initializer : Node) : ObjectLiteralElementLike :=
  PropertyAssignment (IdentifierName name) initializer.
Definition call (text : string) (expression : Node) (arguments : list Node) : Node :=
  mkNode text (CallExpression expression arguments).
Definition access (inner : Node) (name : string) : Node :=
  mkNode (getText inner +:+ "." +:+ name) (PropertyAccessExpression inner name).

(** [@Module() export class AppModule {}] in [app.module.ts]. *)
Definition bareModuleClass : ClassDeclaration :=
  {| class_name := Some "AppModule";
     class_decorators := [ {| dec_expression := call "Module()" (ident "Module") [] |} ];
     class_members := [] |}.

Definition bareModuleFile : SourceFile :=
  {| fileName := "app.module.ts";
     statements := [ClassDeclarationStatement bareModuleClass] |}.

(** A file declaring [class CatsService { constructor(private repo: CatsRepository) {} }]. *)
Definition catsFile : SourceFile :=
  {| fileName := "cats.module.ts";
     statements :=
       [ClassDeclarationStatement
          {| class_name := Some "CatsService";
             class_decorators := [];
             class_members :=
               [ConstructorDeclaration
                  [ {| param_type := Some (TypeReferenceNode "CatsRepository") |} ]] |}] |}.

(** [{ provide: 'CATS', useClass: CatsService }] *)
Definition classProvider : list ObjectLiteralElementLike :=
  [field "provide" (stringLit "CATS"); field "useClass" (ident "CatsService")].

(** [{ provide: 'TOKEN', useFactory: createCats, inject: [CatsRepository] }] *)
Definition factoryProvider : list ObjectLiteralElementLike :=
  [field "provide" (stringLit "TOKEN"); field "useFactory" (ident "createCats");
   field "inject" (mkNode "[CatsRepository]" (ArrayLiteralExpression [ident "CatsRepository"]))].

(** [{ provide: 'LIMIT', useValue: DEFAULT_LIMIT }] *)
Definition valueProvider : list ObjectLiteralElementLike :=
  [field "provide" (stringLit "LIMIT"); field "useValue" (ident "DEFAULT_LIMIT")].

(** [{ useClass: CatsService }] *)
Definition tokenlessProvider : list ObjectLiteralElementLike :=
  [field "useClass" (ident "CatsService")].

(** [{ provide: 'TOKEN', useFactory: () => new Cats(), inject: [CatsRepository] }] *)
Definition arrowFactoryProvider : list ObjectLiteralElementLike :=
  [field "provide" (stringLit "TOKEN");
   field "useFactory" (mkNode "() => new Cats()" (ArrowFunction (mkNode "new Cats()" OtherKind)));
   field "inject" (mkNode "[CatsRepository]" (ArrayLiteralExpression [ident "CatsRepository"]))].

(** [{ provide: getToken(), useValue: DEFAULT_LIMIT }] *)
Definition computedTokenProvider : list ObjectLiteralElementLike :=
  [field "provide" (call "getToken()" (ident "getToken") []);
   field "useValue" (ident "DEFAULT_LIMIT")].

(** [forwardRef(() => CatsModule)] *)
Definition forwardRefImport : Node :=
  call "forwardRef(() => CatsModule)" (ident "forwardRef")
    [mkNode "() => CatsModule" (ArrowFunction (ident "CatsModule"))].

(** [forwardRef(CatsModule)]: the argument is not an arrow function. *)
Definition malformedForwardRef : Node :=
  call "forwardRef(CatsModule)" (ident "forwardRef") [ident "CatsModule"].

(** [TypeOrmModule.forFeature([Cat, Dog, Owner])] *)
Definition threeEntities : Node :=
  call "TypeOrmModule.forFeature([Cat, Dog, Owner])"
    (access (ident "TypeOrmModule") "forFeature")
    [mkNode "[Cat, Dog, Owner]"
       (ArrayLiteralExpression [ident "Cat"; ident "Dog"; ident "Owner"])].

(** [ConfigModule.forRoot()] *)
Definition configCall : Node :=
  call "ConfigModule.forRoot()" (access (ident "ConfigModule") "forRoot") [].

Definition importsOf (elements : list Node) : list ObjectLiteralElementLike :=
  [field "imports" (mkNode "[...]" (ArrayLiteralExpression elements))].


Definition sampleProvider (name : string) (provide : option string)
    (dependencies : list string) : ProviderMetadata :=
  {| p_name := name;
     p_type := class;
     p_dependencies := dependencies;
     p_isInjectable := false;
     p_provide := provide;
     p_useClass := None;
     p_useValue := None;
     p_useFactory := None;
     p_inject := None |}.

(** Two providers that name each other. *)
Definition cyclicCache : gmap string ProviderMetadata :=
  list_to_map [("A", sampleProvider "A" (Some "A") ["B"]);
               ("B", sampleProvider "B" (Some "B") ["A"])].

Definition sampleImport (name : string) : ImportMetadata addr :=
  {| i_name := name;
     i_path := Some ("./" +:+ name);
     i_isAsync := Some false;
     i_dependencies := Some [];
     i_isForwardReference := None;
     i_module := None |}.

Definition sampleModule (name : string) (imports : list string) (providers : list addr)
    : ModuleMetadata addr :=
  {| m_name := name;
     m_filePath := Some ("src/" +:+ name +:+ ".module.ts");
     m_imports := map sampleImport imports;
     m_exports := [];
     m_providers := providers;
     m_controllers := [name +:+ "Controller"];
     m_entityCount := 0 |}.

(** Module [A] imports [B] and the undeclared [X]; its provider depends on
    the token [TOKEN], under which [B] registers [BService], and on [Y],
    which nothing provides. *)
Definition sampleGraph : Analyzer :=
  {| modules := [("A", sampleModule "A" ["B"; "X"] [0]);
                 ("B", sampleModule "B" [] [1])];
     store := list_to_map
                [(0, sampleProvider "AService" (Some "AService") ["TOKEN"; "Y"]);
                 (1, sampleProvider "BService" (Some "TOKEN") ["AService"])] |}.

(** The import made from [forwardRef(() => CatsModule)], as the analyzer
    stores it, in a module [DogsModule]. *)
Definition storedForwardRef : ImportMetadata addr :=
  {| i_name := "CatsModule";
     i_path := None;
     i_isAsync := Some true;
     i_dependencies := Some [];
     i_isForwardReference := Some true;
     i_module := None |}.

Definition forwardRefGraph : Analyzer :=
  {| modules :=
       [("DogsModule",
         {| m_name := "DogsModule";
            m_filePath := None;
            m_imports := [storedForwardRef];
            m_exports := [];
            m_providers := [];
            m_controllers := [];
            m_entityCount := 0 |})];
     store := ∅ |}.

(** One module whose providers are [B] registered under the token [A], [A]
    registered under the token [TOKEN], and [C], which depends on [TOKEN]. *)
Definition chainedTokens : Analyzer :=
  {| modules := [("M", sampleModule "M" [] [0; 1; 2])];
     store := list_to_map
                [(0, sampleProvider "B" (Some "A") []);
                 (1, sampleProvider "A" (Some "TOKEN") []);
                 (2, sampleProvider "C" (Some "C") ["TOKEN"])] |}.


(** ** Further vocabulary *)

(** The inverse of [escapeName]: a backslash before a double quote is
    dropped. *)
Fixpoint unescapeName (escaped : string) : string :=
  match escaped with
  | EmptyString => EmptyString
  | String c rest =>
      match rest with
      | String d rest' =>
          if Ascii.eqb c backslash && Ascii.eqb d dquote
          then String dquote (unescapeName rest')
          else String c (unescapeName rest)
      | EmptyString => String c EmptyString
      end
  end.

Fixpoint hasChar (c : ascii) (s : string) : bool :=
  match s with
  | EmptyString => false
  | String d rest => Ascii.eqb d c || hasChar c rest
  end.

(** Sum of a list of numbers. *)
Definition total (l : list nat) : nat := foldr Nat.add 0 l.

(** The edges the renderer draws for the providers of one module. *)
Definition dependencyCount (st : Analyzer) (module : ModuleMetadata addr) : nat :=
  total (map (λ provider, length (p_dependencies provider))
             (providersAt (store st) (m_providers module))).

(** [x] lists [y] among its direct dependencies in the provider cache. *)
Definition dependsOn (cache : gmap string ProviderMetadata) (x y : string) : Prop :=
  ∃ provider, cache !! x = Some provider ∧ y ∈ p_dependencies provider.

(** What a call of the dependency tree from visited set [v] has achieved
    when it returns [r] and the visited set [v']: the set only grew, and
    every name visited during the call has all its direct dependencies
    visited and reported. *)
Definition explored (cache : gmap string ProviderMetadata) (v v' : gset string)
    (r : list string) : Prop :=
  v ⊆ v' ∧ ∀ x, x ∈ v' → x ∉ v → ∀ y, dependsOn cache x y → y ∈ v' ∧ y ∈ r.

(** A recognized registration call without any argument: the callee is a
    property access that is one of [forFeatureForms] or a member of
    [TypeOrmModule], and the argument list is empty. *)
Definition argumentlessRegistration (element : Node) : bool :=
  match kind element with
  | CallExpression expression [] =>
      match kind expression with
      | PropertyAccessExpression inner _ =>
          bool_decide (getText expression ∈ forFeatureForms)
          || String.eqb (getText inner) "TypeOrmModule"
      | _ => false
      end
  | _ => false
  end.

(** The length of the first argument when it is an array literal. *)
Definition firstArrayLength (arguments : list Node) : nat :=
  match head arguments with
  | Some entityArray =>
      match kind entityArray with
      | ArrayLiteralExpression elements => length elements
      | _ => 0
      end
  | None => 0
  end.

(** The length of the [entities] array of the first argument when that is an
    object literal with such a property. *)
Definition configEntitiesLength (arguments : list Node) : nat :=
  match head arguments with
  | Some config =>
      match kind config with
      | ObjectLiteralExpression properties =>
          match findPropertyAssignment properties "entities" with
          | Some initializer =>
              match kind initializer with
              | ArrayLiteralExpression elements => length elements
              | _ => 0
              end
          | None => 0
          end
      | _ => 0
      end
  | None => 0
  end.

(** The entities one element of an [imports] array registers, as a number:
    the four checks of [extractEntityCount] without their running count. *)
Definition entitiesOf (element : Node) : nat :=
  match kind element with
  | CallExpression expression arguments =>
      match kind expression with
      | PropertyAccessExpression inner _ =>
          (if bool_decide (getText expression ∈ forFeatureForms)
           then firstArrayLength arguments else 0)
          + (if String.eqb (getText inner) "TypeOrmModule"
             then configEntitiesLength arguments else 0)
      | _ => 0
      end
  | _ => 0
  end.

(** The elements of the [imports] array of a decorator argument. *)
Definition importElements (node : list ObjectLiteralElementLike) : list Node :=
  match findPropertyAssignment node "imports" with
  | Some initializer =>
      match kind initializer with
      | ArrayLiteralExpression elements => elements
      | _ => []
      end
  | None => []
  end.

(** The object literal that is the first argument of the class's [Module]
    decorator, when there is one. *)
Definition decoratorLiteral (node : ClassDeclaration)
    : option (list ObjectLiteralElementLike) :=
  match findDecorator node "Module" with
  | Some decorator =>
      match kind (dec_expression decorator) with
      | CallExpression _ arguments =>
          match head arguments with
          | Some argument =>
              match kind argument with
              | ObjectLiteralExpression properties => Some properties
              | _ => None
              end
          | None => None
          end
      | _ => None
      end
  | None => None
  end.

(** The file's module class declares a registration call without argument
    among its imports. *)
Definition throwingFile (sourceFile : SourceFile) : bool :=
  match findModuleClass sourceFile with
  | Some node =>
      match decoratorLiteral node with
      | Some properties => existsb argumentlessRegistration (importElements properties)
      | None => false
      end
  | None => false
  end.

(** [@Module({ imports: [TypeOrmModule.forRoot()] }) class DbModule {}] *)
Definition forRootFile : SourceFile :=
  {| fileName := "db.module.ts";
     statements :=
       [ClassDeclarationStatement
          {| class_name := Some "DbModule";
             class_decorators :=
               [ {| dec_expression :=
                      call "Module({...})" (mkNode "Module" (Identifier "Module"))
                        [mkNode "{...}"
                           (ObjectLiteralExpression
                              [PropertyAssignment (IdentifierName "imports")
                                 (mkNode "[TypeOrmModule.forRoot()]"
                                    (ArrayLiteralExpression
                                       [call "TypeOrmModule.forRoot()"
                                          (access (mkNode "TypeOrmModule"
                                                     (Identifier "TypeOrmModule"))
                                                  "forRoot") []]))])] |} ];
             class_members := [] |}] |}.

(** [@Module({ imports: [forwardRef(() => CatsModule), TypeOrmModule.forFeature([Cat, Dog, Owner])],
    providers: [CatsService] }) class CatsModule {}], with [CatsService] as
    in [catsFile]. *)
Definition catsModuleFile : SourceFile :=
  {| fileName := "cats.module.ts";
     statements :=
       statements catsFile ++
       [ClassDeclarationStatement
          {| class_name := Some "CatsModule";
             class_decorators :=
               [ {| dec_expression :=
                      call "Module({...})" (mkNode "Module" (Identifier "Module"))
                        [mkNode "{...}"
                           (ObjectLiteralExpression
                              [PropertyAssignment (IdentifierName "imports")
                                 (mkNode "[...]"
                                    (ArrayLiteralExpression
                                       [forwardRefImport; threeEntities]));
                               PropertyAssignment (IdentifierName "providers")
                                 (mkNode "[CatsService]"
                                    (ArrayLiteralExpression
                                       [mkNode "CatsService"
                                          (Identifier "CatsService")]))])] |} ];
             class_members := [] |}] |}.

(** An [imports] element that is neither a bare identifier nor a call that
    names a module: it becomes an [UnknownModule_<n>] placeholder. *)
Definition unnamedElement (element : Node) : bool :=
  negb (isIdentifier element || namedCallImport element).

(** The token under which a [providers] element is registered, when it
    yields a provider. *)
Definition providerToken (element : Node) : option string :=
  match kind element with
  | Identifier text => Some text
  | ObjectLiteralExpression properties =>
      if hasNamedField properties "provide" then getPropertyValue properties "provide"
      else None
  | _ => None
  end.

(** The provider cache after [providerCache.set(p.name, p)] for each of the
    providers in turn. *)
Definition cacheAll (cache : gmap string ProviderMetadata)
    (providers : list ProviderMetadata) : gmap string ProviderMetadata :=
  foldl (λ c p, <[p_name p := p]> c) cache providers.

(** [imports: [a.b(), DogsModule, forwardRef(CatsModule), 1]]-like arrays:
    a call whose callee is itself a call, and a malformed forward
    reference, around a bare identifier. *)
Definition mixedImports : list Node :=
  [call "make()()" (call "make()" (ident "make") []) [];
   ident "DogsModule";
   malformedForwardRef].

(** The elements of the [providers] array of a decorator argument. *)
Definition providerElements (node : list ObjectLiteralElementLike) : list Node :=
  match findPropertyAssignment node "providers" with
  | Some initializer =>
      match kind initializer with
      | ArrayLiteralExpression elements => elements
      | _ => []
      end
  | None => []
  end.

(** [providers: [CatsService, { provide: 'CATS', useClass: CatsService },
    { useClass: CatsService }, { provide: 'CATS', useValue: DEFAULT_LIMIT }]] *)
Definition sampleProviders : list ObjectLiteralElementLike :=
  [field "providers"
     (mkNode "[...]"
        (ArrayLiteralExpression
           [ident "CatsService";
            mkNode "{...}" (ObjectLiteralExpression classProvider);
            mkNode "{...}" (ObjectLiteralExpression tokenlessProvider);
            mkNode "{...}"
              (ObjectLiteralExpression
                 [field "provide" (stringLit "CATS");
                  field "useValue" (ident "DEFAULT_LIMIT")])]))].

(** A file declaring [@Injectable() class CatsService {}]. *)
Definition injectableFile : SourceFile :=
  {| fileName := "cats.service.ts";
     statements :=
       [ClassDeclarationStatement
          {| class_name := Some "CatsService";
             class_decorators :=
               [ {| dec_expression := call "Injectable()" (ident "Injectable") [] |} ];
             class_members := [] |}] |}.

(** What the enrichment of a parser with an empty module cache gives an
    import of the module [md]: the module's own import and provider names
    when the import names the module itself, and nothing otherwise. *)
Definition selfDependencies (md : ModuleMetadata ProviderMetadata)
    (imp : ImportMetadata ProviderMetadata) : list string :=
  if String.eqb (i_name imp) (m_name md)
  then map i_name (m_imports md) ++ map p_name (m_providers md)
  else [].

(** The provider object [q] is [p] but for its dependencies list, which has
    as many entries as that of [p]. *)
Definition sameButDependencies (p q : ProviderMetadata) : Prop :=
  q = withDependencies p (p_dependencies q)
  ∧ length (p_dependencies q) = length (p_dependencies p).

(** The import [stored] is [imp] but for its [path] and [module]. *)
Definition sameImport {P Q} (imp : ImportMetadata P) (stored : ImportMetadata Q) : Prop :=
  i_name stored = i_name imp
  ∧ i_isAsync stored = i_isAsync imp
  ∧ i_dependencies stored = i_dependencies imp
  ∧ i_isForwardReference stored = i_isForwardReference imp.

(** The module [m'] is [m] but for the [path] and [module] of its imports. *)
Definition sameModule (m m' : ModuleMetadata addr) : Prop :=
  m_name m' = m_name m
  ∧ m_filePath m' = m_filePath m
  ∧ m_exports m' = m_exports m
  ∧ m_providers m' = m_providers m
  ∧ m_controllers m' = m_controllers m
  ∧ m_entityCount m' = m_entityCount m
  ∧ Forall2 sameImport (m_imports m) (m_imports m').

(** The module [m] of a mapping with store [h] is what the parser returns
    for [file]: the same name, exports, controllers and entity count, the
    file's name as file path, the same imports but for [path] and [module],
    and the same provider objects but for their dependencies. *)
Definition parsedFrom (file : SourceFile) (h : gmap addr ProviderMetadata)
    (m : ModuleMetadata addr) : Prop :=
  ∃ md s',
    parseModule file initialParserState = Returns (Some md) s'
    ∧ m_name m = m_name md
    ∧ m_filePath m = Some (fileName file)
    ∧ m_exports m = m_exports md
    ∧ m_controllers m = m_controllers md
    ∧ m_entityCount m = m_entityCount md
    ∧ Forall2 sameImport (m_imports md) (m_imports m)
    ∧ Forall2 (λ p a, ∃ q, h !! a = Some q ∧ sameButDependencies p q)
        (m_providers md) (m_providers m).

(** The entries of a mapping built from the files [files]: each key is the
    name of its module and is not empty, each module is what the parser
    returns for one of the files, and no key occurs twice. *)
Definition entriesOf (files : list SourceFile) (st : Analyzer) : Prop :=
  Forall (λ entry : string * ModuleMetadata addr,
            entry.1 = m_name entry.2
            ∧ truthy (Some entry.1) = true
            ∧ ∃ file, file ∈ files ∧ parsedFrom file (store st) entry.2)
         (modules st)
  ∧ NoDup (map fst (modules st)).

(** [import { TypeOrmModule } from '@nestjs/typeorm'; import { CatsModule }
    from './cats/cats.module';] *)
Definition importsFile : SourceFile :=
  {| fileName := "app.module.ts";
     statements :=
       [ImportDeclarationStatement
          {| importClause :=
               Some {| ic_name := None;
                       ic_namedBindings := Some (NamedImports ["TypeOrmModule"]) |};
             moduleSpecifier := mkNode "'@nestjs/typeorm'" (StringLiteral "@nestjs/typeorm") |};
        ImportDeclarationStatement
          {| importClause :=
               Some {| ic_name := None;
                       ic_namedBindings := Some (NamedImports ["CatsModule"]) |};
             moduleSpecifier :=
               mkNode "'./cats/cats.module'" (StringLiteral "./cats/cats.module") |}] |}.

(** [@Module(metadata) export class CoreModule {}] in [core.module.ts]: the
    decorator's argument is no object literal. *)
Definition configuredModuleFile : SourceFile :=
  {| fileName := "core.module.ts";
     statements :=
       [ClassDeclarationStatement
          {| class_name := Some "CoreModule";
             class_decorators :=
               [ {| dec_expression :=
                      call "Module(metadata)" (ident "Module") [ident "metadata"] |} ];
             class_members := [] |}] |}.

(** What the key [key] of a module found in [file] is: the placeholder name
    of a new parser when the [Module] decorator of the file's module class
    [node] has no object-literal argument, and else the name of that class,
    which contains neither [Unknown] nor [Angular]. *)
Definition keyOf (node : ClassDeclaration) (key : string) : Prop :=
  match decoratorLiteral node with
  | None => key = "Module_1"
  | Some _ =>
      class_name node = Some key
      ∧ includes key "Unknown" = false
      ∧ includes key "Angular" = false
  end.

(** [forwardRef(() => { return CatsModule; })]: an inline function that
    returns the identifier, written as an arrow function with a block body.
    The body of the arrow function is the block, which is no identifier. *)
Definition blockForwardRef : Node :=
  call "forwardRef(() => { return CatsModule; })" (ident "forwardRef")
    [mkNode "() => { return CatsModule; }"
       (ArrowFunction (mkNode "{ return CatsModule; }" OtherKind))].

(** [forwardRef(function () { return CatsModule; })]: the inline function
    is a function expression, which is no arrow function. *)
Definition functionForwardRef : Node :=
  call "forwardRef(function () { return CatsModule; })" (ident "forwardRef")
    [mkNode "function () { return CatsModule; }" OtherKind].

(** The number of occurrences of the character [c] in [s]. *)
Fixpoint occurrences (c : ascii) (s : string) : nat :=
  match s with
  | EmptyString => 0
  | String d rest => (if Ascii.eqb d c then 1 else 0) + occurrences c rest
  end.

(** The number of lines of a text: one more than its line feeds. *)
Definition lineCount (text : string) : nat := S (occurrences linefeed text).

(** No module key, import name, provider name or dependency of the mapping
    holds a line feed. *)
Definition namesOnOneLine (st : Analyzer) : bool :=
  forallb (λ entry : string * ModuleMetadata addr,
             negb (hasChar linefeed entry.1)
             && forallb (λ imp, negb (hasChar linefeed (i_name imp))) (m_imports entry.2)
             && forallb (λ provider,
                           negb (hasChar linefeed (p_name provider))
                           && forallb (λ dep, negb (hasChar linefeed dep))
                                (p_dependencies provider))
                  (providersAt (store st) (m_providers entry.2)))
          (modules st).

(** * Properties *)

(** ** The provider dependency tree *)

Lemma uniqFrom_spec (seen l : list string) :
  NoDup (uniqFrom seen l) ∧ ∀ x, x ∈ uniqFrom seen l → x ∉ seen.
Proof.
  revert seen. induction l as [|x t IH]; intros seen; simpl.
  - split; [constructor | intros x Hx; inversion Hx].
  - case_bool_decide as Hseen.
    + apply IH.
    + destruct (IH (x :: seen)) as [Hnd Hfresh]. split.
      * constructor; [|done]. intros Hin. apply Hfresh in Hin. set_solver.
      * intros y Hy. apply elem_of_cons in Hy as [->|Hy]; [done|].
        apply Hfresh in Hy. set_solver.
Qed.

Lemma uniq_NoDup (l : list string) : NoDup (uniq l).
Proof. apply uniqFrom_spec. Qed.

Section DependencyTree.
Variable cache : gmap string ProviderMetadata.

Lemma unvisited_mono (v v' : gset string) : v ⊆ v' → unvisited cache v' ≤ unvisited cache v.
Proof. intros Hsub. unfold unvisited. apply subseteq_size. set_solver. Qed.

Lemma unvisited_add (name : string) (v : gset string) :
  name ∉ v → is_Some (cache !! name) → unvisited cache ({[name]} ∪ v) < unvisited cache v.
Proof.
  intros Hnew Hin. unfold unvisited. apply subset_size. apply elem_of_dom in Hin.
  apply strict_spec_alt. split; [set_solver|].
  intros Heq. assert (name ∈ dom cache ∖ v) as Hd by set_solver.
  rewrite <- Heq in Hd. set_solver.
Qed.

Lemma unvisited_le_size (v : gset string) : unvisited cache v ≤ size cache.
Proof.
  unfold unvisited. rewrite <- (size_dom (D := gset string) cache).
  apply subseteq_size. set_solver.
Qed.

Lemma flatMapVisited_total f (fuel : nat) (deps : list string) :
  (∀ d v, unvisited cache v < fuel → ∃ r v', f d v = Some (r, v') ∧ v ⊆ v') →
  ∀ v, unvisited cache v < fuel →
       ∃ r v', flatMapVisited f deps v = Some (r, v') ∧ v ⊆ v'.
Proof.
  intros Hf. induction deps as [|d rest IH]; intros v Hv; simpl.
  - by exists [], v.
  - destruct (Hf d v Hv) as (r & v1 & -> & Hsub1).
    destruct (IH v1) as (rs & v2 & -> & Hsub2).
    { pose proof (unvisited_mono _ _ Hsub1). lia. }
    exists (r ++ rs), v2. split; [done | set_solver].
Qed.

Lemma dependencyTree_total (fuel : nat) :
  ∀ name v, unvisited cache v < fuel →
            ∃ r v', dependencyTree fuel cache name v = Some (r, v') ∧ v ⊆ v'.
Proof.
  induction fuel as [|fuel IH]; intros name v Hv; [lia|]. simpl.
  destruct (decide (name ∈ v)) as [Hin|Hnew]; [by exists [], v|].
  destruct (cache !! name) as [provider|] eqn:Hcache.
  - pose proof (unvisited_add name v Hnew (mk_is_Some _ _ Hcache)) as Hlt.
    destruct (flatMapVisited_total (dependencyTree fuel cache) fuel
                (p_dependencies provider) IH ({[name]} ∪ v))
      as (rs & v2 & -> & Hsub); [lia|].
    eexists _, v2. split; [done | set_solver].
  - exists [], ({[name]} ∪ v). split; [done | set_solver].
Qed.

Lemma flatMapVisited_more f g (deps : list string) :
  (∀ d v res, f d v = Some res → g d v = Some res) →
  ∀ v res, flatMapVisited f deps v = Some res → flatMapVisited g deps v = Some res.
Proof.
  intros Hfg. induction deps as [|d rest IH]; intros v res; simpl; [done|].
  destruct (f d v) as [[r v1]|] eqn:Hfd; [|done].
  rewrite (Hfg _ _ _ Hfd).
  destruct (flatMapVisited f rest v1) as [[rs v2]|] eqn:Hrest; [|done].
  by rewrite (IH _ _ Hrest).
Qed.

Lemma dependencyTree_S (fuel : nat) name v :
  dependencyTree (S fuel) cache name v =
  if decide (name ∈ v) then Some ([], v)
  else match cache !! name with
       | None => Some ([], {[name]} ∪ v)
       | Some provider =>
           match flatMapVisited (dependencyTree fuel cache) (p_dependencies provider)
                   ({[name]} ∪ v) with
           | None => None
           | Some (nestedDeps, visited') =>
               Some (uniq (p_dependencies provider ++ nestedDeps), visited')
           end
       end.
Proof. reflexivity. Qed.

(** More fuel never changes a result already obtained. *)
Lemma dependencyTree_more (fuel : nat) :
  ∀ name v res, dependencyTree fuel cache name v = Some res →
                dependencyTree (S fuel) cache name v = Some res.
Proof.
  induction fuel as [|fuel IH]; intros name v res; [done|].
  intros H. rewrite dependencyTree_S in H. rewrite dependencyTree_S.
  destruct (decide (name ∈ v)); [done|].
  destruct (cache !! name) as [provider|]; [|done].
  destruct (flatMapVisited (dependencyTree fuel cache) (p_dependencies provider)
              ({[name]} ∪ v)) as [[rs v2]|] eqn:Hnested; [|done].
  by rewrite (flatMapVisited_more _ (dependencyTree (S fuel) cache) _ IH _ _ Hnested).
Qed.

Lemma dependencyTree_more_le (fuel fuel' : nat) name v res :
  fuel ≤ fuel' → dependencyTree fuel cache name v = Some res →
  dependencyTree fuel' cache name v = Some res.
Proof.
  induction 1 as [|fuel' _ IH]; [done|].
  intros H. by apply dependencyTree_more, IH.
Qed.

Lemma dependencyTree_NoDup (fuel : nat) name v r v' :
  dependencyTree fuel cache name v = Some (r, v') → NoDup r.
Proof.
  destruct fuel as [|fuel]; [done|]. simpl.
  destruct (decide (name ∈ v)).
  { intros [= <- <-]. constructor. }
  destruct (cache !! name) as [provider|].
  - destruct (flatMapVisited _ _ _) as [[rs v2]|]; [|done].
    intros [= <- <-]. apply uniq_NoDup.
  - intros [= <- <-]. constructor.
Qed.
End DependencyTree.

Lemma getProviderDependencyTree_returns (cache : gmap string ProviderMetadata)
    (providerName : string) :
  ∃ deps, getProviderDependencyTree cache providerName = Some deps ∧ NoDup deps.
Proof.
  unfold getProviderDependencyTree.
  destruct (dependencyTree_total cache (S (size cache)) providerName ∅)
    as (deps & v' & Hrun & _).
  { pose proof (unvisited_le_size cache ∅). lia. }
  exists deps. rewrite Hrun. split; [done|].
  by eapply dependencyTree_NoDup.
Qed.

(** C9. The provider dependency tree returns for every starting name, every
    visited set and every provider cache, cyclic or not: one fixed result is
    reached at every recursion bound above the number of cached providers.
    A name that is already in the visited set contributes the empty list and
    leaves the set as it is. *)
Theorem dependencyTree_terminates (cache : gmap string ProviderMetadata)
    (providerName : string) (visited : gset string) :
  (∃ deps visited',
     ∀ fuel, size cache < fuel →
             dependencyTree fuel cache providerName visited = Some (deps, visited'))
  ∧ (∀ fuel, dependencyTree (S fuel) cache providerName ({[providerName]} ∪ visited)
             = Some ([], {[providerName]} ∪ visited)).
Proof.
  split.
  - destruct (dependencyTree_total cache (S (size cache)) providerName visited)
      as (deps & v' & Hrun & _).
    { pose proof (unvisited_le_size cache visited). lia. }
    exists deps, v'. intros fuel Hfuel.
    eapply dependencyTree_more_le; [|exact Hrun]. lia.
  - intros fuel. rewrite dependencyTree_S.
    destruct (decide (providerName ∈ {[providerName]} ∪ visited)) as [|Hn]; [done|].
    exfalso. apply Hn. set_solver.
Qed.

Lemma dependencyTree_terminates_witness :
  size cyclicCache < 3 ∧
  ∃ deps visited', dependencyTree 3 cyclicCache "A" ∅ = Some (deps, visited').
Proof.
  split; [vm_compute; lia|].
  destruct (dependencyTree_terminates cyclicCache "A" ∅) as [(deps & v' & Hrun) _].
  exists deps, v'. apply Hrun. vm_compute. lia.
Defined.

(** C10. The list the provider dependency tree returns has no duplicate
    names, for every starting name and every provider cache; so single-file
    enrichment returns, and leaves every provider of the module with a
    duplicate-free dependencies list. *)
Theorem enriched_dependencies_NoDup :
  (∀ (cache : gmap string ProviderMetadata) (providerName : string),
     ∃ deps, getProviderDependencyTree cache providerName = Some deps ∧ NoDup deps)
  ∧ (∀ (s : ParserState) (module : ModuleMetadata ProviderMetadata),
       ∃ enriched, enrichWithSecondLevelDependencies s module = Some enriched
                   ∧ Forall (λ p, NoDup (p_dependencies p)) (m_providers enriched)).
Proof.
  split; [apply getProviderDependencyTree_returns|].
  intros s module. unfold enrichWithSecondLevelDependencies.
  assert (∃ providers,
            mapM (enrichProvider (providerCache s)) (m_providers module) = Some providers
            ∧ Forall (λ p, NoDup (p_dependencies p)) providers) as (providers & -> & Hnd).
  { induction (m_providers module) as [|p ps IH].
    - by exists [].
    - destruct IH as (providers & Hps & Hnd).
      destruct (getProviderDependencyTree_returns (providerCache s) (p_name p))
        as (deps & Hdeps & Hdnd).
      exists (withDependencies p deps :: providers). split.
      + change (mapM (enrichProvider (providerCache s)) (p :: ps))
          with (y ← enrichProvider (providerCache s) p;
                k ← mapM (enrichProvider (providerCache s)) ps; mret (y :: k)).
        assert (enrichProvider (providerCache s) p = Some (withDependencies p deps)) as ->
          by (unfold enrichProvider; by rewrite Hdeps).
        by rewrite Hps.
      + by constructor. }
  eexists. split; [done|]. done.
Qed.

(** ** Extraction of a module declaration *)

Lemma createEmptyModuleMetadata_run (s : ParserState) :
  createEmptyModuleMetadata s = Returns (placeholderModule (uniqueIdCounter s)) (advanceCounter s).
Proof. reflexivity. Qed.

Lemma placeholder_names_differ (n n' : nat) :
  n ≠ n' → m_name (placeholderModule n) ≠ m_name (placeholderModule n').
Proof.
  intros Hne Heq. apply Hne. cbn in Heq.
  injection Heq as Heq. by apply (inj pretty).
Qed.

(** The guarded cases of [parseModuleDecorator]. When the class has no
    [Module] decorator in call form, or the
    decorator's call has no object literal as its first argument, extraction
    returns (it does not throw) the empty module record: no file path, all
    lists empty, entity count zero, and the placeholder name [Module_<n>]
    made from the parser's counter, which is advanced, so that the name
    differs from every placeholder made at another counter value. When that
    class is the file's module class, [parseModule] returns this record. *)
Theorem parseModuleDecorator_incomplete (sourceFile : SourceFile)
    (node : ClassDeclaration) (s : ParserState) :
  (findDecorator node "Module" = None
   ∨ ∃ decorator expression arguments,
       findDecorator node "Module" = Some decorator
       ∧ kind (dec_expression decorator) = CallExpression expression arguments
       ∧ ∀ argument, head arguments = Some argument →
                     isObjectLiteralExpression argument = false) →
  parseModuleDecorator sourceFile node s
  = Returns (placeholderModule (uniqueIdCounter s)) (advanceCounter s)
  ∧ m_imports (placeholderModule (uniqueIdCounter s)) = []
  ∧ m_exports (placeholderModule (uniqueIdCounter s)) = []
  ∧ m_providers (placeholderModule (uniqueIdCounter s)) = []
  ∧ m_controllers (placeholderModule (uniqueIdCounter s)) = []
  ∧ m_entityCount (placeholderModule (uniqueIdCounter s)) = 0
  ∧ (∀ n, n ≠ uniqueIdCounter s →
          m_name (placeholderModule n) ≠ m_name (placeholderModule (uniqueIdCounter s)))
  ∧ (findModuleClass sourceFile = Some node →
     ∃ s', parseModule sourceFile s
           = Returns (Some (placeholderModule (uniqueIdCounter s))) s').
Proof.
  intros Hshape.
  assert (parseModuleDecorator sourceFile node s
          = Returns (placeholderModule (uniqueIdCounter s)) (advanceCounter s)) as Hrun.
  { unfold parseModuleDecorator.
    destruct Hshape as [-> | (decorator & expression & arguments & -> & -> & Harg)].
    - apply createEmptyModuleMetadata_run.
    - destruct (head arguments) as [argument|]; [|apply createEmptyModuleMetadata_run].
      specialize (Harg argument eq_refl). unfold isObjectLiteralExpression in Harg.
      destruct (kind argument); try apply createEmptyModuleMetadata_run. discriminate. }
  repeat split; try done.
  - intros n Hn. by apply placeholder_names_differ.
  - intros Hclass. unfold parseModule. rewrite Hclass.
    unfold bind at 1. rewrite Hrun. eexists. reflexivity.
Qed.

Lemma parseModuleDecorator_incomplete_witness :
  parseModule bareModuleFile initialParserState
  = Returns (Some (placeholderModule 1))
      {| uniqueIdCounter := 2;
         moduleCache := <[m_name (placeholderModule 1) := placeholderModule 1]> ∅;
         providerCache := ∅ |}.
Proof.
  destruct (parseModuleDecorator_incomplete bareModuleFile bareModuleClass
              initialParserState) as (_ & _ & _ & _ & _ & _ & _ & Hparse).
  { right. exists {| dec_expression := call "Module()" (ident "Module") [] |},
                  (ident "Module"), []. repeat split. intros argument H. discriminate H. }
  destruct (Hparse eq_refl) as [s' Hs']. rewrite Hs'.
  vm_compute in Hs'. injection Hs' as <-. vm_compute. reflexivity.
Defined.

(** C5. Extraction throws on a structurally incomplete input. In
    [@Module({ imports: [TypeOrmModule.forRoot()] }) class DbModule {}] the
    module class is found and its decorator has an object literal as first
    argument, but the registration call has no argument: the entity count
    takes the first element of the empty argument list and tests its kind
    without the guard that [parseModuleDecorator] and [parseAsyncImport] put
    before the same test on their first argument. The TypeError leaves
    [extractEntityCount], [parseModuleDecorator] and [parseModule], and ends
    the analysis of any directory that holds the file. The same happens for
    [TypeOrmModule.forFeature()]. *)
Theorem incomplete_registration_throws :
  (∃ node properties,
     findModuleClass forRootFile = Some node
     ∧ decoratorLiteral node = Some properties
     ∧ extractEntityCount properties initialParserState = Throws TypeError
     ∧ parseModuleDecorator forRootFile node initialParserState = Throws TypeError)
  ∧ parseModule forRootFile initialParserState = Throws TypeError
  ∧ analyze [bareModuleFile; forRootFile] = inl TypeError
  ∧ extractEntityCount
      (importsOf [call "TypeOrmModule.forFeature()"
                    (access (ident "TypeOrmModule") "forFeature") []])
      initialParserState
    = Throws TypeError.
Proof.
  split; [|split; [|split]]; try reflexivity.
  eexists _, _. split; [reflexivity|]. split; [reflexivity|]. split; reflexivity.
Qed.

(** ** Providers declared by an object literal *)

Lemma truthy_default (v : option string) : truthy v = true → v = Some (default EmptyString v).
Proof. by destruct v. Qed.

Lemma parseProviderObjectLiteral_run (sourceFile : SourceFile)
    (node : list ObjectLiteralElementLike) (s : ParserState) :
  hasNamedField node "provide" = true →
  ∃ provider s',
    parseProviderObjectLiteral sourceFile node s = Returns (Some provider) s'
    ∧ p_provide provider = getPropertyValue node "provide"
    ∧ Some (p_name provider) = getPropertyValue node "provide"
    ∧ (p_type provider, p_dependencies provider)
      = providerBinding sourceFile node (getPropertyValue node "useClass")
          (getPropertyValue node "useValue") (getPropertyValue node "useFactory").
Proof.
  unfold hasNamedField, parseProviderObjectLiteral. intros Hprovide. rewrite Hprovide. cbn [negb].
  destruct (providerBinding sourceFile node _ _ _) as [type dependencies].
  eexists _, _. split; [reflexivity|]. cbn. split; [done|]. split; [|done].
  symmetry. by apply truthy_default.
Qed.

(** C4, as the parser decides it. An object literal with no [provide]
    property, or whose [provide] is not an identifier or a non-empty string
    literal, yields no provider. Otherwise it yields a provider named after
    the token, and, counting a binding property as given when its
    initializer is an identifier or a string literal (non-empty for
    [useClass] and [useFactory]): with [useClass] given the type is [class]
    and the dependencies are those of the constructor of that class in the
    file (none if the file does not declare it); with [useFactory] given and
    [useClass] not, the type is [factory] and the dependencies are the
    identifiers of the [inject] array (none without one); with only
    [useValue] given the type is [value] and there are no dependencies. *)
Theorem parseProviderObjectLiteral_binding (sourceFile : SourceFile)
    (node : list ObjectLiteralElementLike) (s : ParserState) :
  (findPropertyAssignment node "provide" = None →
   parseProviderObjectLiteral sourceFile node s = Returns None s)
  ∧ (hasNamedField node "provide" = false →
     parseProviderObjectLiteral sourceFile node s = Returns None s)
  ∧ (hasNamedField node "provide" = true →
     ∃ provider s',
       parseProviderObjectLiteral sourceFile node s = Returns (Some provider) s'
       ∧ Some (p_name provider) = getPropertyValue node "provide"
       ∧ (hasNamedField node "useClass" = true →
          p_type provider = class
          ∧ ∃ className, getPropertyValue node "useClass" = Some className
              ∧ p_dependencies provider
                = match findClassDeclaration sourceFile className with
                  | Some classDecl => extractConstructorDependencies classDecl
                  | None => []
                  end)
       ∧ (hasNamedField node "useClass" = false →
          hasNamedField node "useFactory" = true →
          p_type provider = factory
          ∧ p_dependencies provider = default [] (getArrayPropertyValue node "inject"))
       ∧ (hasNamedField node "useClass" = false →
          hasNamedField node "useFactory" = false →
          is_Some (getPropertyValue node "useValue") →
          p_type provider = value ∧ p_dependencies provider = [])).
Proof.
  assert (hasNamedField node "provide" = false →
          parseProviderObjectLiteral sourceFile node s = Returns None s) as Hdrop.
  { unfold hasNamedField, parseProviderObjectLiteral. by intros ->. }
  split; [|split; [exact Hdrop|]].
  - intros Hnone. apply Hdrop. unfold hasNamedField, getPropertyValue. by rewrite Hnone.
  - intros Hprovide.
    destruct (parseProviderObjectLiteral_run sourceFile node s Hprovide)
      as (provider & s' & Hrun & _ & Hname & Hbinding).
    exists provider, s'. split; [done|]. split; [done|].
    unfold hasNamedField, providerBinding in *.
    split; [|split].
    + intros Hclass. rewrite Hclass in Hbinding. split; [by injection Hbinding|].
      exists (default EmptyString (getPropertyValue node "useClass")).
      split; [by apply truthy_default | by injection Hbinding].
    + intros Hclass Hfactory. rewrite Hclass, Hfactory in Hbinding.
      by injection Hbinding.
    + intros Hclass Hfactory Hvalue.
      rewrite Hclass, Hfactory, (bool_decide_eq_true_2 _ Hvalue) in Hbinding.
      by injection Hbinding.
Qed.

Lemma parseProviderObjectLiteral_binding_witness :
  parseProviderObjectLiteral catsFile tokenlessProvider initialParserState
  = Returns None initialParserState
  ∧ parseProviderObjectLiteral catsFile computedTokenProvider initialParserState
    = Returns None initialParserState
  ∧ (∃ provider s',
       parseProviderObjectLiteral catsFile classProvider initialParserState
       = Returns (Some provider) s'
       ∧ p_name provider = "CATS" ∧ p_type provider = class
       ∧ p_dependencies provider = ["CatsRepository"])
  ∧ (∃ provider s',
       parseProviderObjectLiteral catsFile factoryProvider initialParserState
       = Returns (Some provider) s'
       ∧ p_type provider = factory ∧ p_dependencies provider = ["CatsRepository"])
  ∧ (∃ provider s',
       parseProviderObjectLiteral catsFile valueProvider initialParserState
       = Returns (Some provider) s'
       ∧ p_type provider = value ∧ p_dependencies provider = []).
Proof.
  split; [|split; [|split; [|split]]].
  - destruct (parseProviderObjectLiteral_binding catsFile tokenlessProvider
                initialParserState) as (Habsent & _ & _).
    by apply Habsent.
  - destruct (parseProviderObjectLiteral_binding catsFile computedTokenProvider
                initialParserState) as (_ & Hunnamed & _).
    by apply Hunnamed.
  - destruct (parseProviderObjectLiteral_binding catsFile classProvider initialParserState)
      as (_ & _ & Hkept).
    destruct (Hkept eq_refl) as (provider & s' & Hrun & Hname & Hclass & _).
    destruct (Hclass eq_refl) as (Htype & className & Hcn & Hdeps).
    exists provider, s'. injection Hcn as <-. injection Hname as Hname. done.
  - destruct (parseProviderObjectLiteral_binding catsFile factoryProvider initialParserState)
      as (_ & _ & Hkept).
    destruct (Hkept eq_refl) as (provider & s' & Hrun & _ & _ & Hfactory & _).
    destruct (Hfactory eq_refl eq_refl) as [Htype Hdeps].
    by exists provider, s'.
  - destruct (parseProviderObjectLiteral_binding catsFile valueProvider initialParserState)
      as (_ & _ & Hkept).
    destruct (Hkept eq_refl) as (provider & s' & Hrun & _ & _ & _ & Hvalue).
    destruct (Hvalue eq_refl eq_refl (mk_is_Some _ _ eq_refl)) as [Htype Hdeps].
    by exists provider, s'.
Defined.

(** C4 as worded fails: [{ provide: 'TOKEN', useFactory: () => new Cats(),
    inject: [CatsRepository] }] has a [provide] and a [useFactory] property
    and no [useClass] property, yet the provider extracted from it has type
    [class] and no dependencies. *)
Lemma arrow_factory_is_typed_class :
  hasField arrowFactoryProvider "provide"
  ∧ hasField arrowFactoryProvider "useFactory"
  ∧ ¬ hasField arrowFactoryProvider "useClass"
  ∧ ∃ provider s',
      parseProviderObjectLiteral catsFile arrowFactoryProvider initialParserState
      = Returns (Some provider) s'
      ∧ p_type provider = class
      ∧ p_type provider ≠ factory
      ∧ p_dependencies provider = [].
Proof.
  split; [by eexists|]. split; [by eexists|]. split.
  { intros [x Hx]. discriminate Hx. }
  eexists _, _. split; [cbv; reflexivity|]. cbn. done.
Qed.

(** ** Imports *)

Lemma mapEach_Forall2 {A B} (f : A → M B) (R : A → B → Prop) (l : list A) :
  (∀ x s, ∃ y s', f x s = Returns y s' ∧ R x y) →
  ∀ s, ∃ ys s', mapEach f l s = Returns ys s' ∧ Forall2 R l ys.
Proof.
  intros Hf. induction l as [|x t IH]; intros s.
  - exists [], s. split; [done | constructor].
  - destruct (Hf x s) as (y & s1 & Hx & HR).
    destruct (IH s1) as (ys & s2 & Ht & HF).
    exists (y :: ys), s2. split; [|by constructor].
    cbn [mapEach]. unfold bind. rewrite Hx, Ht. done.
Qed.

Lemma createUnknownImport_run (s : ParserState) :
  ∃ imp, createUnknownImport s = Returns imp (advanceCounter s)
         ∧ i_isAsync imp = Some false ∧ i_dependencies imp = Some [].
Proof. eexists. split; [reflexivity|]. done. Qed.

Lemma importOfElement_isAsync (sourceFile : SourceFile) (element : Node) (s : ParserState) :
  ∃ imp s',
    importOfElement sourceFile element s = Returns imp s'
    ∧ i_isAsync imp = Some (namedCallImport element)
    ∧ i_dependencies imp = Some [].
Proof.
  unfold importOfElement, namedCallImport, parseAsyncImport, isIdentifier.
  destruct (kind element) as [text| | expression arguments | | | | |];
    try (destruct (createUnknownImport_run s) as (imp & -> & ? & ?); by eexists _, _).
  - by eexists _, _.
  - destruct (kind expression) as [text| | | inner name | | | |];
      try (destruct (createUnknownImport_run s) as (imp & -> & ? & ?); by eexists _, _).
    + destruct (String.eqb text "forwardRef"); [|by eexists _, _].
      destruct (head arguments) as [arrowFunc|];
        [|destruct (createUnknownImport_run s) as (imp & -> & ? & ?); by eexists _, _].
      destruct (kind arrowFunc) as [| | | |returnExpr| | |];
        try (destruct (createUnknownImport_run s) as (imp & -> & ? & ?); by eexists _, _).
      destruct (kind returnExpr);
        try (destruct (createUnknownImport_run s) as (imp & -> & ? & ?); by eexists _, _).
      by eexists _, _.
    + by eexists _, _.
Qed.

Lemma namedCallImport_is_call (element : Node) :
  namedCallImport element = true → isCallExpression element = true.
Proof. unfold namedCallImport, isCallExpression. by destruct (kind element). Qed.

(** C8, as the parser decides it. Every element of an [imports] array
    yields an import record, position by position. Its [isAsync] is true
    exactly when the element is a call expression that names a module (a
    property-access callee, an identifier callee other than [forwardRef], or
    [forwardRef] applied to an arrow function whose body is an identifier);
    it is false for a bare identifier, for every other call expression and
    for every other element. A bare identifier yields an empty dependencies
    list. *)
Theorem import_isAsync (sourceFile : SourceFile) (node : list ObjectLiteralElementLike)
    (initializer : Node) (elements : list Node) (s : ParserState) :
  findPropertyAssignment node "imports" = Some initializer →
  kind initializer = ArrayLiteralExpression elements →
  ∃ imports s',
    extractImports sourceFile node s = Returns imports s'
    ∧ Forall2 (λ element imp,
                 (i_isAsync imp = Some true ↔ namedCallImport element = true)
                 ∧ (i_isAsync imp = Some false ↔ namedCallImport element = false)
                 ∧ (namedCallImport element = true → isCallExpression element = true)
                 ∧ (isIdentifier element = true →
                    i_isAsync imp = Some false ∧ i_dependencies imp = Some []))
              elements imports.
Proof.
  intros Himports Harray. unfold extractImports. rewrite Himports, Harray.
  apply mapEach_Forall2. intros element s0.
  destruct (importOfElement_isAsync sourceFile element s0) as (imp & s1 & Hrun & Hasync & Hdeps).
  exists imp, s1. split; [done|]. rewrite Hasync.
  split; [|split; [|split]].
  - split; [by intros [= ->] | by intros ->].
  - split; [by intros [= ->] | by intros ->].
  - apply namedCallImport_is_call.
  - intros Hid. split; [|done]. f_equal.
    unfold isIdentifier in Hid. unfold namedCallImport. by destruct (kind element).
Qed.

Lemma import_isAsync_witness :
  ∃ imports s',
    extractImports catsFile
      (importsOf [ident "DogsModule"; forwardRefImport; configCall; malformedForwardRef])
      initialParserState
    = Returns imports s'
    ∧ map i_isAsync imports = [Some false; Some true; Some true; Some false].
Proof.
  destruct (import_isAsync catsFile
              (importsOf [ident "DogsModule"; forwardRefImport; configCall;
                          malformedForwardRef])
              (mkNode "[...]" (ArrayLiteralExpression
                 [ident "DogsModule"; forwardRefImport; configCall; malformedForwardRef]))
              [ident "DogsModule"; forwardRefImport; configCall; malformedForwardRef]
              initialParserState eq_refl eq_refl)
    as (imports & s' & Hrun & _).
  exists imports, s'. split; [exact Hrun|].
  vm_compute in Hrun. injection Hrun as <- _. reflexivity.
Defined.

(** C8 as worded fails: [forwardRef(CatsModule)] is a call expression (a
    forward-reference wrapper), and the import made from it has [isAsync]
    false. *)
Lemma malformed_forwardRef_is_not_async :
  isCallExpression malformedForwardRef = true
  ∧ ∃ imp s',
      importOfElement catsFile malformedForwardRef initialParserState = Returns imp s'
      ∧ i_isAsync imp = Some false
      ∧ i_isAsync imp ≠ Some true.
Proof.
  split; [reflexivity|]. eexists _, _. split; [cbv; reflexivity|]. done.
Qed.

(** *** Forward references *)

Lemma importLine_emitted (st : Analyzer) (moduleName : string)
    (module : ModuleMetadata addr) (imp : ImportMetadata addr) :
  (moduleName, module) ∈ modules st → imp ∈ m_imports module →
  importLine moduleName imp ∈ generateLines st.
Proof.
  rewrite !list_elem_of_In. intros Hmod Himp. unfold generateLines.
  apply in_or_app; right. apply in_or_app; right. apply in_or_app; right.
  apply in_or_app; left.
  apply in_concat. exists (map (importLine moduleName) (m_imports module)). split.
  - apply in_map_iff. by exists (moduleName, module).
  - by apply in_map.
Qed.

Lemma styles_differ : forwardRefStyle ≠ plainStyle.
Proof. discriminate. Qed.

Lemma string_app_assoc (a b c : string) : (a +:+ b) +:+ c = a +:+ b +:+ c.
Proof.
  induction a as [|x a IH]; [done|].
  change (String x ((a +:+ b) +:+ c) = String x (a +:+ b +:+ c)). by rewrite IH.
Qed.

Lemma join_app (sep : string) (a b : list string) :
  a ≠ [] → b ≠ [] →
  String.concat sep (a ++ b) = String.concat sep a +:+ sep +:+ String.concat sep b.
Proof.
  intros Ha Hb. induction a as [|x a IH]; [done|].
  destruct a as [|y a].
  - destruct b as [|z b]; done.
  - change (String.concat sep ((x :: y :: a) ++ b))
      with (x +:+ sep +:+ String.concat sep ((y :: a) ++ b)).
    change (String.concat sep (x :: y :: a))
      with (x +:+ sep +:+ String.concat sep (y :: a)).
    rewrite IH by done. by rewrite !string_app_assoc.
Qed.

(** A line pushed between others is a line of the text: it stands between
    two line feeds. *)
Lemma join_middle (sep line : string) (a b : list string) :
  a ≠ [] → b ≠ [] →
  String.concat sep (a ++ line :: b)
  = String.concat sep a +:+ sep +:+ line +:+ sep +:+ String.concat sep b.
Proof.
  intros Ha Hb. rewrite join_app by done. do 2 f_equal. by destruct b.
Qed.

Lemma importLine_in_diagram (st : Analyzer) (moduleName : string)
    (module : ModuleMetadata addr) (imp : ImportMetadata addr) :
  (moduleName, module) ∈ modules st → imp ∈ m_imports module →
  ∃ before after,
    generate st
    = before +:+ str linefeed +:+ importLine moduleName imp +:+ str linefeed +:+ after.
Proof.
  intros Hmodule Himp.
  assert (importLine moduleName imp
          ∈ concat (map (λ '(moduleName, module),
                           map (importLine moduleName) (m_imports module))
                        (modules st))) as Hline.
  { apply list_elem_of_In, in_concat.
    exists (map (importLine moduleName) (m_imports module)). split.
    - apply in_map_iff. exists (moduleName, module). by rewrite <- list_elem_of_In.
    - apply in_map. by rewrite <- list_elem_of_In. }
  apply list_elem_of_split in Hline as (l1 & l2 & Hsplit).
  unfold generate, generateLines. rewrite Hsplit.
  match goal with
  | |- context [?header ++ ?nodes ++ ?blank ++ (l1 ++ _ :: l2) ++ ?edges ++ ?brace] =>
      replace (header ++ nodes ++ blank
               ++ (l1 ++ importLine moduleName imp :: l2) ++ edges ++ brace)
        with ((header ++ nodes ++ blank ++ l1)
              ++ importLine moduleName imp :: (l2 ++ edges ++ brace))
        by (by rewrite <- !app_assoc)
  end.
  eexists _, _. apply join_middle; [done|].
  intros [_ [_ Hbrace]%app_eq_nil]%app_eq_nil. done.
Qed.

(** C6. An [imports] element [forwardRef(() => C)] (a call of the identifier
    [forwardRef] whose first argument is an arrow function with the
    identifier [C] as its body) yields an import named [C] with
    [isForwardReference] true. Enrichment, registration with the analyzer
    and linking keep both fields, and for the import so stored in a module
    of the mapping the renderer emits the edge line with the dashed red
    forward-reference style, which is not the plain import style: the line
    is pushed to the lines of the diagram and the text [generate] returns
    holds it as a line of its own, between two line feeds. *)
Theorem forwardRef_import (sourceFile : SourceFile)
    (element expression arrowFunc returnExpr : Node) (C : string) (rest : list Node)
    (s : ParserState) :
  kind element = CallExpression expression (arrowFunc :: rest) →
  kind expression = Identifier "forwardRef" →
  kind arrowFunc = ArrowFunction returnExpr →
  kind returnExpr = Identifier C →
  ∃ imp,
    importOfElement sourceFile element s = Returns imp s
    ∧ i_name imp = C
    ∧ i_isForwardReference imp = Some true
    ∧ ∀ (st : Analyzer) (moduleName : string) (module : ModuleMetadata addr)
        (deps : list string) (values : list (ModuleMetadata addr)),
        let stored := linkImport values (storeImport (withImportDependencies imp deps)) in
        (moduleName, module) ∈ modules st →
        stored ∈ m_imports module →
        i_name stored = C
        ∧ i_isForwardReference stored = Some true
        ∧ importLine moduleName stored ∈ generateLines st
        ∧ (∃ before after,
             generate st
             = before +:+ str linefeed +:+ importLine moduleName stored
               +:+ str linefeed +:+ after)
        ∧ importLine moduleName stored
          = "  " +:+ quoted (escapeName moduleName) +:+ " -> " +:+ quoted (escapeName C)
            +:+ " " +:+ forwardRefStyle +:+ ";"
        ∧ forwardRefStyle ≠ plainStyle.
Proof.
  intros Helement Hexpression Harrow Hreturn.
  unfold importOfElement, parseAsyncImport.
  rewrite Helement, Hexpression. cbn. rewrite Harrow, Hreturn.
  eexists. split; [reflexivity|]. cbn. split; [done|]. split; [done|].
  intros st moduleName module deps values Hmodule Hstored.
  split; [done|]. split; [done|].
  split; [by apply (importLine_emitted st moduleName module)|].
  split; [by apply (importLine_in_diagram st moduleName module)|].
  split; [done | apply styles_differ].
Qed.

Lemma forwardRef_import_witness :
  ∃ imp,
    importOfElement catsFile forwardRefImport initialParserState
    = Returns imp initialParserState
    ∧ linkImport [] (storeImport (withImportDependencies imp [])) = storedForwardRef
    ∧ ("  " +:+ quoted "DogsModule" +:+ " -> " +:+ quoted "CatsModule"
       +:+ " [label=" +:+ quoted "imports (forward ref)" +:+ ", style=dashed, color=red];")
      ∈ generateLines forwardRefGraph
    ∧ ∃ before after,
        generate forwardRefGraph
        = before +:+ str linefeed
          +:+ ("  " +:+ quoted "DogsModule" +:+ " -> " +:+ quoted "CatsModule"
               +:+ " [label=" +:+ quoted "imports (forward ref)"
               +:+ ", style=dashed, color=red];")
          +:+ str linefeed +:+ after.
Proof.
  destruct (forwardRef_import catsFile forwardRefImport (ident "forwardRef")
              (mkNode "() => CatsModule" (ArrowFunction (ident "CatsModule")))
              (ident "CatsModule") "CatsModule" [] initialParserState
              eq_refl eq_refl eq_refl eq_refl)
    as (imp & Hrun & _ & _ & Hrender).
  exists imp. split; [exact Hrun|].
  assert (linkImport [] (storeImport (withImportDependencies imp [])) = storedForwardRef)
    as Hstored by (vm_compute in Hrun; by injection Hrun as <-).
  split; [exact Hstored|].
  destruct (Hrender forwardRefGraph "DogsModule"
              {| m_name := "DogsModule";
                 m_filePath := None;
                 m_imports := [storedForwardRef];
                 m_exports := [];
                 m_providers := [];
                 m_controllers := [];
                 m_entityCount := 0 |} [] [])
    as (_ & _ & Hline & Hdiagram & Htext & _).
  - cbn. set_solver.
  - rewrite Hstored. cbn. set_solver.
  - rewrite Htext in Hline, Hdiagram. split; [exact Hline | exact Hdiagram].
Defined.

(** C6 as worded fails: [forwardRef(() => { return CatsModule; })] and
    [forwardRef(function () { return CatsModule; })] are calls of the
    forward-reference wrapper whose single argument is an inline function
    returning the bare identifier [CatsModule]. The parser accepts only an
    arrow function whose body is itself the identifier, and makes of both an
    [UnknownModule_<n>] placeholder without the forward-reference flag, for
    which the renderer writes the plain import style. *)
Lemma block_bodied_forwardRef_is_unknown :
  (∃ imp s',
     importOfElement catsFile blockForwardRef initialParserState = Returns imp s'
     ∧ i_name imp = "UnknownModule_1"
     ∧ i_name imp ≠ "CatsModule"
     ∧ i_isForwardReference imp ≠ Some true
     ∧ importLine "DogsModule" (linkImport [] (storeImport imp))
       = "  " +:+ quoted "DogsModule" +:+ " -> " +:+ quoted "UnknownModule_1"
         +:+ " " +:+ plainStyle +:+ ";")
  ∧ (∃ imp s',
       importOfElement catsFile functionForwardRef initialParserState = Returns imp s'
       ∧ i_name imp = "UnknownModule_1"
       ∧ i_name imp ≠ "CatsModule"
       ∧ i_isForwardReference imp ≠ Some true
       ∧ importLine "DogsModule" (linkImport [] (storeImport imp))
         = "  " +:+ quoted "DogsModule" +:+ " -> " +:+ quoted "UnknownModule_1"
           +:+ " " +:+ plainStyle +:+ ";").
Proof.
  split; eexists _, _; (split; [cbv; reflexivity|]); repeat split; done.
Qed.

(** ** Entity count *)

Lemma additive_ret : additive ret.
Proof. by intros n k s. Qed.

Lemma additive_bind (f g : nat → M nat) :
  additive f → additive g → additive (λ n, c <- f n ;; g c).
Proof.
  intros Hf Hg n k s. unfold bind. rewrite Hf.
  destruct (f n s) as [c s'|e]; cbn; [apply Hg | done].
Qed.

Lemma additive_if (b : bool) (f g : nat → M nat) :
  additive f → additive g → additive (λ n, if b then f n else g n).
Proof. by destruct b. Qed.

Lemma additive_addFirstArrayLength (arguments : list Node) :
  additive (addFirstArrayLength arguments).
Proof.
  intros n k s. unfold addFirstArrayLength.
  destruct (head arguments) as [entityArray|]; [|done].
  destruct (kind entityArray); try done.
  cbn. f_equal. lia.
Qed.

Lemma additive_addConfigEntities (arguments : list Node) :
  additive (addConfigEntities arguments).
Proof.
  intros n k s. unfold addConfigEntities.
  destruct (head arguments) as [config|]; [|done].
  destruct (kind config) as [| | | | | |properties|]; try done.
  destruct (findPropertyAssignment properties "entities") as [initializer|]; [|done].
  destruct (kind initializer); try done.
  cbn. f_equal. lia.
Qed.

Lemma additive_countCallEntities (expression : Node) (arguments : list Node) :
  additive (countCallEntities expression arguments).
Proof.
  unfold countCallEntities. destruct (kind expression) as [| | |inner name| | | |];
    try apply additive_ret.
  repeat first
    [ apply additive_bind | apply additive_if | apply additive_ret
    | apply additive_addFirstArrayLength | apply additive_addConfigEntities ].
Qed.

Lemma additive_countElementEntities (element : Node) :
  additive (countElementEntities element).
Proof.
  unfold countElementEntities. destruct (kind element); try apply additive_ret.
  apply additive_countCallEntities.
Qed.

Lemma additive_countEntities (elements : list Node) : additive (countEntities elements).
Proof.
  induction elements as [|element rest IH]; [apply additive_ret|].
  apply (additive_bind (countElementEntities element) (countEntities rest));
    [apply additive_countElementEntities | exact IH].
Qed.

Lemma countEntities_app (before after : list Node) (n : nat) (s : ParserState) :
  countEntities (before ++ after) n s
  = match countEntities before n s with
    | Returns m s' => countEntities after m s'
    | Throws e => Throws e
    end.
Proof.
  revert n s. induction before as [|element rest IH]; intros n s; [done|].
  cbn [countEntities app]. unfold bind.
  destruct (countElementEntities element n s); [apply IH | done].
Qed.

(** Removing an element that adds [k] lowers the count by [k]. *)
Lemma countEntities_insert (element : Node) (k : nat) (before after : list Node)
    (n : nat) (s : ParserState) :
  (∀ m s', countElementEntities element m s' = Returns (m + k) s') →
  countEntities (before ++ element :: after) n s
  = raisedBy k (countEntities (before ++ after) n s).
Proof.
  intros Helement. rewrite !countEntities_app.
  destruct (countEntities before n s) as [m s'|e]; [|done].
  cbn [countEntities]. unfold bind. rewrite Helement.
  apply additive_countEntities.
Qed.

Lemma forFeature_adds_length (expression inner entityArray : Node) (name : string)
    (arguments entities : list Node) (n : nat) (s : ParserState) :
  kind expression = PropertyAccessExpression inner name →
  getText expression ∈ forFeatureForms →
  head arguments = Some entityArray →
  kind entityArray = ArrayLiteralExpression entities →
  countCallEntities expression arguments n s = Returns (n + length entities) s.
Proof.
  intros Hkind Hform Hhead Harray. unfold countCallEntities. rewrite Hkind.
  assert (addFirstArrayLength arguments
          = λ entityCount, ret (entityCount + length entities)) as ->.
  { unfold addFirstArrayLength. by rewrite Hhead, Harray. }
  assert (addConfigEntities arguments = ret) as ->.
  { unfold addConfigEntities. by rewrite Hhead, Harray. }
  unfold forFeatureForms in Hform.
  repeat (apply elem_of_cons in Hform as [-> | Hform]);
    [| | | by apply elem_of_nil in Hform];
    cbn; by destruct (String.eqb (getText inner) "TypeOrmModule").
Qed.

Lemma unrecognizedCall_adds_nothing (expression : Node) (arguments : list Node)
    (n : nat) (s : ParserState) :
  unrecognizedCall expression = true →
  countCallEntities expression arguments n s = Returns n s.
Proof.
  unfold unrecognizedCall, countCallEntities.
  destruct (kind expression) as [| | |inner name| | | |]; try done.
  intros [Hforms Hroot]%andb_prop.
  apply negb_true_iff in Hroot. rewrite Hroot.
  apply negb_true_iff, bool_decide_eq_false in Hforms. unfold forFeatureForms in Hforms.
  assert (∀ form, form ∈ forFeatureForms → String.eqb (getText expression) form = false)
    as Hne.
  { intros form Hin. apply String.eqb_neq. intros Heq. apply Hforms. by rewrite Heq. }
  rewrite !Hne; [done | set_solver..].
Qed.

(** The count throws when a recognized registration has no argument:
    [TypeOrmModule.forFeature()] reads the kind of an absent node. *)
Lemma forFeature_without_argument_throws (expression inner : Node) (name : string)
    (n : nat) (s : ParserState) :
  kind expression = PropertyAccessExpression inner name →
  getText expression = "TypeOrmModule.forFeature" →
  countCallEntities expression [] n s = Throws TypeError.
Proof. intros Hkind Htext. unfold countCallEntities. by rewrite Hkind, Htext. Qed.

(** C7. Take an [imports] array with a call expression among its elements,
    and the same array without that element. If the callee is a property
    access whose text is one of the array-taking registration forms and the
    first argument is an array literal of length 3, the entity count of the
    module with the element is that of the module without it plus exactly 3
    (and the count of the one throws exactly when that of the other does).
    If the callee matches none of the recognized forms, the two counts are
    equal: the call contributes 0. *)
Theorem entityCount_contribution (element expression : Node) (arguments : list Node)
    (node node' : list ObjectLiteralElementLike) (imports imports' : Node)
    (before after : list Node) (s : ParserState) :
  kind element = CallExpression expression arguments →
  findPropertyAssignment node "imports" = Some imports →
  kind imports = ArrayLiteralExpression (before ++ element :: after) →
  findPropertyAssignment node' "imports" = Some imports' →
  kind imports' = ArrayLiteralExpression (before ++ after) →
  ((∃ inner name entityArray entities,
      kind expression = PropertyAccessExpression inner name
      ∧ getText expression ∈ forFeatureForms
      ∧ head arguments = Some entityArray
      ∧ kind entityArray = ArrayLiteralExpression entities
      ∧ length entities = 3) →
   extractEntityCount node s = raisedBy 3 (extractEntityCount node' s))
  ∧ (unrecognizedCall expression = true →
     extractEntityCount node s = extractEntityCount node' s
     ∧ ∀ n, countElementEntities element n s = Returns n s).
Proof.
  intros Helement Hnode Himports Hnode' Himports'.
  unfold extractEntityCount. rewrite Hnode, Himports, Hnode', Himports'. split.
  - intros (inner & name & entityArray & entities & Hkind & Hform & Hhead & Harray & Hlen).
    apply countEntities_insert. intros m s'.
    unfold countElementEntities. rewrite Helement, <- Hlen.
    by eapply forFeature_adds_length.
  - intros Hother.
    assert (∀ m s', countElementEntities element m s' = Returns (m + 0) s') as Hzero.
    { intros m s'. unfold countElementEntities. rewrite Helement, Nat.add_0_r.
      by apply unrecognizedCall_adds_nothing. }
    split.
    + rewrite (countEntities_insert element 0 before after 0 s Hzero).
      destruct (countEntities (before ++ after) 0 s); cbn; [|done].
      by rewrite Nat.add_0_r.
    + intros n. rewrite Hzero. by rewrite Nat.add_0_r.
Qed.

Lemma entityCount_contribution_witness :
  extractEntityCount (importsOf [ident "DogsModule"; threeEntities; configCall])
    initialParserState
  = Returns 3 initialParserState
  ∧ extractEntityCount (importsOf [ident "DogsModule"; threeEntities; configCall])
      initialParserState
    = extractEntityCount (importsOf [ident "DogsModule"; threeEntities])
        initialParserState.
Proof.
  split.
  - destruct (entityCount_contribution threeEntities
                (access (ident "TypeOrmModule") "forFeature")
                [mkNode "[Cat, Dog, Owner]"
                   (ArrayLiteralExpression [ident "Cat"; ident "Dog"; ident "Owner"])]
                (importsOf [ident "DogsModule"; threeEntities; configCall])
                (importsOf [ident "DogsModule"; configCall])
                (mkNode "[...]" (ArrayLiteralExpression
                                   [ident "DogsModule"; threeEntities; configCall]))
                (mkNode "[...]" (ArrayLiteralExpression [ident "DogsModule"; configCall]))
                [ident "DogsModule"] [configCall] initialParserState
                eq_refl eq_refl eq_refl eq_refl eq_refl) as [Hthree _].
    rewrite Hthree; [reflexivity|].
    eexists _, _, _, _. repeat split. unfold forFeatureForms. cbn. set_solver.
  - destruct (entityCount_contribution configCall
                (access (ident "ConfigModule") "forRoot") []
                (importsOf [ident "DogsModule"; threeEntities; configCall])
                (importsOf [ident "DogsModule"; threeEntities])
                (mkNode "[...]" (ArrayLiteralExpression
                                   [ident "DogsModule"; threeEntities; configCall]))
                (mkNode "[...]" (ArrayLiteralExpression [ident "DogsModule"; threeEntities]))
                [ident "DogsModule"; threeEntities] [] initialParserState
                eq_refl eq_refl eq_refl eq_refl eq_refl) as [_ Hnone].
    by apply Hnone.
Defined.

(** ** The cross-file linker *)

Lemma providerMatches_identity (name : string) (p p' : ProviderMetadata) :
  providerIdentity p' = providerIdentity p →
  providerMatches name p' = providerMatches name p.
Proof. unfold providerIdentity, providerMatches. by intros [= -> ->]. Qed.

Lemma find_providersAt_identity (h h' : gmap addr ProviderMetadata) (name : string)
    (array : list addr) :
  (∀ a, providerIdentity <$> h' !! a = providerIdentity <$> h !! a) →
  providerIdentity <$> find (providerMatches name) (providersAt h' array)
  = providerIdentity <$> find (providerMatches name) (providersAt h array).
Proof.
  intros Hsame. induction array as [|a array IH]; [done|].
  unfold providersAt in *. cbn [omap list_omap]. specialize (Hsame a).
  destruct (h' !! a) as [p'|], (h !! a) as [p|]; try done.
  apply (inj Some) in Hsame. cbn [find].
  rewrite (providerMatches_identity name p p' Hsame).
  destruct (providerMatches name p); [cbn; by f_equal | exact IH].
Qed.

Lemma findProviderIn_identity (h h' : gmap addr ProviderMetadata) (name : string)
    (values values' : list (ModuleMetadata addr)) :
  (∀ a, providerIdentity <$> h' !! a = providerIdentity <$> h !! a) →
  map m_providers values' = map m_providers values →
  providerIdentity <$> findProviderIn h' values' name
  = providerIdentity <$> findProviderIn h values name.
Proof.
  intros Hsame. revert values'.
  induction values as [|m values IH]; intros [|m' values']; try done.
  intros [= Harray Hrest]. cbn [findProviderIn]. rewrite Harray.
  pose proof (find_providersAt_identity h h' name (m_providers m) Hsame) as Hfind.
  destruct (find _ (providersAt h' _)) as [p'|], (find _ (providersAt h _)) as [p|];
    try done.
  by apply IH.
Qed.

Lemma map_skeleton_providers (values values' : list (ModuleMetadata addr)) :
  map moduleSkeleton values' = map moduleSkeleton values →
  map m_providers values' = map m_providers values.
Proof.
  revert values'. induction values as [|m values IH]; intros [|m' values']; try done.
  intros [= Hname Hpath Harray Hcontrollers Hrest]. cbn. rewrite Harray. f_equal. by apply IH.
Qed.

Lemma resolveDependency_shape (st st' : Analyzer) (dep : string) :
  sameShape st st' → resolveDependency st' dep = resolveDependency st dep.
Proof.
  intros [Hmodules Hstore]. unfold resolveDependency, findProviderByName.
  pose proof (findProviderIn_identity (store st) (store st') dep
                (moduleValues st) (moduleValues st') Hstore
                (map_skeleton_providers _ _ Hmodules)) as Hfind.
  destruct (findProviderIn (store st') _ _) as [p'|],
           (findProviderIn (store st) _ _) as [p|]; try done.
  by injection Hfind.
Qed.

Lemma linkImport_shape (values values' : list (ModuleMetadata addr))
    (imp : ImportMetadata addr) :
  map moduleSkeleton values' = map moduleSkeleton values →
  linkImport values' imp = linkImport values imp.
Proof.
  intros Hshape. unfold linkImport.
  assert (moduleSkeleton <$> find (λ m, String.eqb (m_name m) (i_name imp)) values'
          = moduleSkeleton <$> find (λ m, String.eqb (m_name m) (i_name imp)) values)
    as Hfind.
  { revert values' Hshape.
    induction values as [|m values IH]; intros [|m' values']; try done.
    intros [= Hname Hpath Harray Hcontrollers Hrest]. cbn [find]. rewrite Hname.
    destruct (String.eqb (m_name m) (i_name imp)); [|by apply IH].
    cbn. unfold moduleSkeleton. by rewrite Hname, Hpath, Harray, Hcontrollers. }
  destruct (find _ values') as [m'|], (find _ values) as [m|]; try done.
  injection Hfind as Hname Hpath Harray Hcontrollers. cbn.
  unfold snapshotOf. by rewrite Hname, Hpath, Harray, Hcontrollers.
Qed.

Lemma relinked_identity (st : Analyzer) (p : ProviderMetadata) :
  providerIdentity (relinked st p) = providerIdentity p.
Proof. done. Qed.

Lemma relinkAll_identity (st : Analyzer) (array : list addr)
    (h : gmap addr ProviderMetadata) (a : addr) :
  providerIdentity <$> relinkAll st h array !! a = providerIdentity <$> h !! a.
Proof.
  revert h. induction array as [|x array IH]; intros h; [done|].
  unfold relinkAll in *. cbn [foldl]. rewrite IH.
  destruct (decide (x = a)) as [->|Hne].
  - rewrite lookup_alter_eq. by destruct (h !! a).
  - by rewrite lookup_alter_ne.
Qed.

Lemma relinkAll_app (st : Analyzer) (h : gmap addr ProviderMetadata)
    (array array' : list addr) :
  relinkAll st h (array ++ array') = relinkAll st (relinkAll st h array) array'.
Proof. apply foldl_app. Qed.

Lemma analyzer_eta (st : Analyzer) : {| modules := modules st; store := store st |} = st.
Proof. by destruct st. Qed.

Section LinkerLoop.
Variable st0 : Analyzer.

Lemma linkProvider_shape (st : Analyzer) (a : addr) :
  sameShape st0 st →
  linkProvider st a
  = {| modules := modules st; store := alter (relinked st0) a (store st) |}.
Proof.
  intros Hshape. unfold linkProvider.
  destruct (store st !! a) as [p|] eqn:Hp.
  - f_equal. apply map_eq. intros b.
    destruct (decide (a = b)) as [<-|Hne].
    + rewrite lookup_insert_eq, lookup_alter_eq, Hp. cbn. unfold relinked.
      do 2 f_equal. apply map_ext. intros dep. by apply resolveDependency_shape.
    + by rewrite lookup_insert_ne, lookup_alter_ne.
  - destruct st as [ms h]. cbn in *. f_equal. apply map_eq. intros b.
    destruct (decide (a = b)) as [<-|Hne].
    + by rewrite lookup_alter_eq, Hp.
    + by rewrite lookup_alter_ne.
Qed.

Lemma sameShape_relinkAll (ms : list (string * ModuleMetadata addr)) (array : list addr) :
  map moduleSkeleton (map snd ms) = map moduleSkeleton (moduleValues st0) →
  sameShape st0 {| modules := ms; store := relinkAll st0 (store st0) array |}.
Proof. intros Hms. split; [exact Hms|]. intros a. apply relinkAll_identity. Qed.

Lemma foldl_linkProvider (ms : list (string * ModuleMetadata addr))
    (done todo : list addr) :
  map moduleSkeleton (map snd ms) = map moduleSkeleton (moduleValues st0) →
  foldl linkProvider {| modules := ms; store := relinkAll st0 (store st0) done |} todo
  = {| modules := ms; store := relinkAll st0 (store st0) (done ++ todo) |}.
Proof.
  intros Hms. revert done. induction todo as [|a todo IH]; intros done.
  - by rewrite app_nil_r.
  - cbn [foldl]. rewrite linkProvider_shape by by apply sameShape_relinkAll.
    cbn [modules store].
    replace (alter (relinked st0) a (relinkAll st0 (store st0) done))
      with (relinkAll st0 (store st0) (done ++ [a]))
      by (by rewrite relinkAll_app).
    rewrite IH. by rewrite <- app_assoc.
Qed.

Lemma afterModules_skeleton (i : nat) :
  map moduleSkeleton (map snd (modules (afterModules st0 i)))
  = map moduleSkeleton (moduleValues st0).
Proof.
  unfold afterModules, moduleValues. cbn [modules].
  rewrite <- (take_drop i (modules st0)) at 3.
  rewrite !map_app, !map_map. f_equal.
Qed.

Lemma linkModule_afterModules (i : nat) :
  i < length (modules st0) →
  linkModule (afterModules st0 i) i = afterModules st0 (S i).
Proof.
  intros Hi. apply lookup_lt_is_Some_2 in Hi as [[key module] Hentry].
  unfold linkModule.
  assert (modules (afterModules st0 i) !! i = Some (key, module)) as ->.
  { unfold afterModules. cbn [modules].
    rewrite lookup_app_r; rewrite length_map, length_take_le;
      try (apply lookup_lt_Some in Hentry; lia).
    by rewrite Nat.sub_diag, lookup_drop, Nat.add_0_r. }
  cbv zeta.
  assert (map (linkImport (moduleValues (afterModules st0 i))) (m_imports module)
          = map (linkImport (moduleValues st0)) (m_imports module)) as ->.
  { apply map_ext. intros imp. apply linkImport_shape, afterModules_skeleton. }
  change (key, withImports module (map (linkImport (moduleValues st0)) (m_imports module)))
    with (linkedEntry st0 (key, module)).
  assert (<[i := linkedEntry st0 (key, module)]> (modules (afterModules st0 i))
          = modules (afterModules st0 (S i))) as ->.
  { unfold afterModules. cbn [modules].
    rewrite insert_app_r_alt; rewrite length_map, length_take_le;
      try (apply lookup_lt_Some in Hentry; lia).
    rewrite Nat.sub_diag, (drop_S _ _ _ Hentry). cbn [insert list_insert].
    rewrite (take_S_r _ _ _ Hentry), map_app. cbn [map].
    by rewrite <- app_assoc. }
  unfold afterModules at 2. cbn [store].
  rewrite foldl_linkProvider by apply afterModules_skeleton.
  unfold afterModules at 2. f_equal.
  rewrite (take_S_r _ _ _ Hentry), map_app, concat_app. cbn.
  by rewrite app_nil_r.
Qed.

Lemma foldl_linkModule (len i : nat) :
  i + len = length (modules st0) →
  foldl linkModule (afterModules st0 i) (seq i len) = afterModules st0 (i + len).
Proof.
  revert i. induction len as [|len IH]; intros i Hlen.
  - by rewrite Nat.add_0_r.
  - cbn [seq foldl]. rewrite linkModule_afterModules by lia.
    rewrite IH by lia. f_equal. lia.
Qed.

(** The linker in closed form. *)
Lemma resolveModuleDependencies_closed :
  resolveModuleDependencies st0
  = {| modules := map (linkedEntry st0) (modules st0);
       store := relinkAll st0 (store st0) (allArrays st0) |}.
Proof.
  unfold resolveModuleDependencies.
  assert (st0 = afterModules st0 0) as Hstart by (symmetry; apply analyzer_eta).
  rewrite Hstart at 1. rewrite foldl_linkModule by done.
  unfold afterModules, allArrays, moduleValues. cbn [Nat.add].
  rewrite take_ge, drop_ge, app_nil_r, map_map by done. done.
Qed.
End LinkerLoop.

(** *** Lookups by first match *)



Lemma find_split {A} (f : A → bool) (l : list A) (x : A) :
  find f l = Some x →
  ∃ before after, l = before ++ x :: after ∧ f x = true
                  ∧ Forall (λ y, f y = false) before.
Proof.
  induction l as [|y l IH]; [done|]. cbn. destruct (f y) eqn:Hy.
  - intros [= ->]. by exists [], l.
  - intros (before & after & -> & Hx & Hbefore)%IH.
    exists (y :: before), after. by repeat constructor.
Qed.

Lemma find_none_Forall {A} (f : A → bool) (l : list A) :
  find f l = None → Forall (λ y, f y = false) l.
Proof.
  induction l as [|y l IH]; [constructor|]. cbn. destruct (f y) eqn:Hy; [done|].
  intros Hl. constructor; [done | by apply IH].
Qed.

Lemma find_app_first {A} (f : A → bool) (l k : list A) :
  find f (l ++ k) = match find f l with Some x => Some x | None => find f k end.
Proof. induction l as [|y l IH]; [done|]. cbn. by destruct (f y). Qed.

Lemma providerMatches_false (name : string) (p : ProviderMetadata) :
  providerMatches name p = false ↔ p_name p ≠ name ∧ p_provide p ≠ Some name.
Proof.
  unfold providerMatches. rewrite orb_false_iff, String.eqb_neq, bool_decide_eq_false. done.
Qed.

Lemma providerMatches_true (name : string) (p : ProviderMetadata) :
  providerMatches name p = true ↔ p_name p = name ∨ p_provide p = Some name.
Proof.
  unfold providerMatches. rewrite orb_true_iff, String.eqb_eq, bool_decide_eq_true. done.
Qed.

Lemma providersAt_app (h : gmap addr ProviderMetadata) (array array' : list addr) :
  providersAt h (array ++ array') = providersAt h array ++ providersAt h array'.
Proof. apply omap_app. Qed.

(** The nested loops of [findProviderByName] are one scan of all provider
    arrays in mapping order. *)
Lemma findProviderByName_scan (st : Analyzer) (name : string) :
  findProviderByName st name = find (providerMatches name) (allProviders st).
Proof.
  unfold findProviderByName, allProviders, allArrays.
  induction (moduleValues st) as [|m values IH]; [done|].
  cbn [findProviderIn map concat]. rewrite providersAt_app, find_app_first, IH. done.
Qed.

Lemma resolveDependency_resolvesTo (st : Analyzer) (dep : string) :
  resolvesTo (allProviders st) dep (resolveDependency st dep).
Proof.
  unfold resolveDependency. rewrite findProviderByName_scan.
  destruct (find _ _) as [q|] eqn:Hfind.
  - left. apply find_split in Hfind as (before & after & Hscan & Hq & Hbefore).
    exists before, q, after. split; [done|]. split; [|split; [|done]].
    + eapply Forall_impl; [exact Hbefore|]. intros r. apply providerMatches_false.
    + by apply providerMatches_true.
  - right. split; [|done]. apply find_none_Forall in Hfind.
    eapply Forall_impl; [exact Hfind|]. intros r. apply providerMatches_false.
Qed.

Lemma relinkAll_unvisited (st : Analyzer) (array : list addr)
    (h : gmap addr ProviderMetadata) (a : addr) :
  a ∉ array → relinkAll st h array !! a = h !! a.
Proof.
  revert h. induction array as [|x array IH]; intros h Ha; [done|].
  unfold relinkAll in *. cbn [foldl].
  rewrite IH by set_solver. apply lookup_alter_ne. set_solver.
Qed.

Lemma relinkAll_lookup_NoDup (st : Analyzer) (array : list addr)
    (h : gmap addr ProviderMetadata) (a : addr) :
  NoDup array → a ∈ array → relinkAll st h array !! a = relinked st <$> h !! a.
Proof.
  intros Hnd. revert h. induction Hnd as [|x array Hx Hnd IH]; intros h Ha.
  - by apply elem_of_nil in Ha.
  - unfold relinkAll in *. cbn [foldl].
    apply elem_of_cons in Ha as [->|Ha].
    + pose proof (relinkAll_unvisited st array (alter (relinked st) x h) x Hx) as Hrest.
      unfold relinkAll in Hrest. by rewrite Hrest, lookup_alter_eq.
    + rewrite IH by done. rewrite lookup_alter_ne; [done|]. by intros ->.
Qed.

Lemma elem_of_allArrays (st : Analyzer) (module : ModuleMetadata addr) (a : addr) :
  module ∈ moduleValues st → a ∈ m_providers module → a ∈ allArrays st.
Proof.
  rewrite !list_elem_of_In. intros Hmodule Ha. unfold allArrays.
  apply in_concat. exists (m_providers module). split; [by apply in_map | done].
Qed.

(** C3. Provider objects being distinct (no address occurs twice in the
    provider arrays of the mapping), linking leaves every provider of every
    module with a dependencies list that is, entry by entry, the result of
    the scan for the original entry over all modules' provider arrays in
    mapping order: the name of the first provider whose name or token equals
    the entry, and the entry itself when no provider matches. Name and token
    of the provider are unchanged. *)
Theorem linked_dependencies (st : Analyzer) (module : ModuleMetadata addr) (a : addr)
    (provider : ProviderMetadata) :
  NoDup (allArrays st) →
  module ∈ moduleValues st →
  a ∈ m_providers module →
  store st !! a = Some provider →
  ∃ provider',
    store (resolveModuleDependencies st) !! a = Some provider'
    ∧ p_name provider' = p_name provider
    ∧ p_provide provider' = p_provide provider
    ∧ Forall2 (resolvesTo (allProviders st))
        (p_dependencies provider) (p_dependencies provider').
Proof.
  intros Hnd Hmodule Ha Hprovider.
  exists (relinked st provider). rewrite resolveModuleDependencies_closed. cbn [store].
  rewrite relinkAll_lookup_NoDup by eauto using elem_of_allArrays.
  rewrite Hprovider. split; [done|]. split; [done|]. split; [done|].
  cbn. induction (p_dependencies provider) as [|dep deps IH]; constructor; [|done].
  apply resolveDependency_resolvesTo.
Qed.

Lemma linked_dependencies_witness :
  p_dependencies <$> store (resolveModuleDependencies sampleGraph) !! 0
  = Some ["BService"; "Y"].
Proof.
  destruct (linked_dependencies sampleGraph (sampleModule "A" ["B"; "X"] [0]) 0
              (sampleProvider "AService" (Some "AService") ["TOKEN"; "Y"]))
    as (provider' & -> & _ & _ & Hdeps).
  - vm_compute. repeat constructor; set_solver.
  - vm_compute. set_solver.
  - vm_compute. set_solver.
  - reflexivity.
  - cbn. f_equal.
    apply Forall2_cons_inv_l in Hdeps as (token & rest & Htoken & Hrest & ->).
    apply Forall2_cons_inv_l in Hrest as (y & rest' & Hy & Hnil & ->).
    apply Forall2_nil_inv_l in Hnil as ->.
    assert (allProviders sampleGraph
            = [sampleProvider "AService" (Some "AService") ["TOKEN"; "Y"];
               sampleProvider "BService" (Some "TOKEN") ["AService"]]) as Hscan
      by reflexivity.
    rewrite Hscan in Htoken, Hy. f_equal; [|f_equal].
    + destruct Htoken as [(before & q & after & Hsplit & Hbefore & Hq & ->) | [Hnone _]].
      * destruct before as [|r before].
        { injection Hsplit as <- _. by destruct Hq. }
        destruct before as [|r' before].
        { by injection Hsplit as _ <- _. }
        destruct before; discriminate Hsplit.
      * apply Forall_cons in Hnone as [_ Hnone]. apply Forall_cons in Hnone as [[_ Hne] _].
        by destruct Hne.
    + destruct Hy as [(before & q & after & Hsplit & Hbefore & Hq & ->) | [_ ->]]; [|done].
      destruct before as [|r before].
      { injection Hsplit as <- _. by destruct Hq. }
      destruct before as [|r' before].
      { injection Hsplit as _ <- _. by destruct Hq. }
      destruct before; discriminate Hsplit.
Defined.

(** *** Imports after linking *)

Lemma linkedEntry_skeleton (st : Analyzer) (entries : list (string * ModuleMetadata addr)) :
  map moduleSkeleton (map snd (map (linkedEntry st) entries))
  = map moduleSkeleton (map snd entries).
Proof. rewrite !map_map. done. Qed.

Lemma sameShape_linked (st : Analyzer) : sameShape st (resolveModuleDependencies st).
Proof.
  rewrite resolveModuleDependencies_closed. split.
  - apply linkedEntry_skeleton.
  - intros a. apply relinkAll_identity.
Qed.






(** *** Linking again *)

Lemma linkImport_idempotent (values : list (ModuleMetadata addr)) (imp : ImportMetadata addr) :
  linkImport values (linkImport values imp) = linkImport values imp.
Proof. done. Qed.

Lemma findProviderByName_elem (st : Analyzer) (name : string) (q : ProviderMetadata) :
  findProviderByName st name = Some q → q ∈ allProviders st ∧ providerMatches name q = true.
Proof.
  rewrite findProviderByName_scan. intros (before & after & -> & Hq & _)%find_split.
  split; [set_solver | done].
Qed.

Lemma resolveDependency_idempotent (st : Analyzer) (dep : string) :
  canonicalStable st →
  resolveDependency st (resolveDependency st dep) = resolveDependency st dep.
Proof.
  intros Hstable. unfold resolveDependency at 2 3.
  destruct (findProviderByName st dep) as [q|] eqn:Hfind.
  - apply Hstable. by apply (findProviderByName_elem st dep).
  - unfold resolveDependency. by rewrite Hfind.
Qed.

Lemma relinked_idempotent (st : Analyzer) (p : ProviderMetadata) :
  canonicalStable st → relinked st (relinked st p) = relinked st p.
Proof.
  intros Hstable. unfold relinked, withDependencies. cbn. f_equal.
  rewrite map_map. apply map_ext. intros dep. by apply resolveDependency_idempotent.
Qed.

Lemma relinkAll_lookup_stable (st : Analyzer) (array : list addr)
    (h : gmap addr ProviderMetadata) (a : addr) :
  canonicalStable st → a ∈ array → relinkAll st h array !! a = relinked st <$> h !! a.
Proof.
  intros Hstable. revert h. induction array as [|x array IH]; intros h Ha.
  - by apply elem_of_nil in Ha.
  - unfold relinkAll in *. cbn [foldl].
    destruct (decide (a ∈ array)) as [Hin|Hout].
    + rewrite IH by done. destruct (decide (x = a)) as [->|Hne].
      * rewrite lookup_alter_eq. destruct (h !! a) as [p|]; [|done].
        cbn. f_equal. by apply relinked_idempotent.
      * by rewrite lookup_alter_ne.
    + pose proof (relinkAll_unvisited st array (alter (relinked st) x h) a Hout) as Hrest.
      unfold relinkAll in Hrest. rewrite Hrest.
      apply elem_of_cons in Ha as [->|Ha]; [|done]. apply lookup_alter_eq.
Qed.

Lemma relinkAll_ext (st st' : Analyzer) (array : list addr)
    (h : gmap addr ProviderMetadata) :
  sameShape st st' → relinkAll st' h array = relinkAll st h array.
Proof.
  intros Hshape. revert h. induction array as [|x array IH]; intros h; [done|].
  unfold relinkAll in *. cbn [foldl]. rewrite IH. f_equal.
  apply map_eq. intros a. destruct (decide (x = a)) as [->|Hne].
  - rewrite !lookup_alter_eq. destruct (h !! a) as [p|]; [|done].
    cbn. unfold relinked. do 2 f_equal. apply map_ext. intros dep.
    by apply resolveDependency_shape.
  - by rewrite !lookup_alter_ne.
Qed.

Lemma allArrays_shape (st st' : Analyzer) : sameShape st st' → allArrays st' = allArrays st.
Proof. intros [Hmodules _]. unfold allArrays. f_equal. by apply map_skeleton_providers. Qed.

(** The linker on an arbitrary mapping and store. When the name of every
    provider of the mapping resolves to itself under the provider lookup,
    linking an already linked mapping gives the identical mapping: the same
    modules with the same imports (path and [module] snapshot included) and
    the same provider objects with the same dependencies. *)
Lemma relink_stable (st : Analyzer) :
  canonicalStable st →
  resolveModuleDependencies (resolveModuleDependencies st) = resolveModuleDependencies st.
Proof.
  intros Hstable. pose proof (sameShape_linked st) as Hshape.
  rewrite (resolveModuleDependencies_closed (resolveModuleDependencies st)).
  rewrite (allArrays_shape _ _ Hshape).
  rewrite (relinkAll_ext _ _ _ _ Hshape).
  rewrite (resolveModuleDependencies_closed st) at 4.
  replace (modules (resolveModuleDependencies st))
    with (map (linkedEntry st) (modules st))
    by (by rewrite resolveModuleDependencies_closed).
  replace (store (resolveModuleDependencies st))
    with (relinkAll st (store st) (allArrays st))
    by (by rewrite resolveModuleDependencies_closed).
  f_equal.
  - rewrite map_map. apply map_ext. intros [key module].
    unfold linkedEntry. cbn [fst snd withImports m_imports]. f_equal.
    unfold withImports. cbn. f_equal. rewrite map_map. apply map_ext. intros imp.
    destruct Hshape as [Hmodules _].
    rewrite (linkImport_shape _ _ _ Hmodules). apply linkImport_idempotent.
  - apply map_eq. intros a. destruct (decide (a ∈ allArrays st)) as [Hin|Hout].
    + rewrite !relinkAll_lookup_stable by done.
      destruct (store st !! a) as [p|]; [|done]. cbn. f_equal.
      by apply relinked_idempotent.
    + by rewrite !relinkAll_unvisited.
Qed.

(** The parser's providers meet the condition: a token that is the name
    cannot lead to another provider. *)
Lemma canonicalStable_of_tokens (st : Analyzer) : tokensAreNames st → canonicalStable st.
Proof.
  intros Htokens p Hp. unfold resolveDependency.
  destruct (findProviderByName st (p_name p)) as [q|] eqn:Hfind; [|done].
  apply findProviderByName_elem in Hfind as [Hq Hmatch].
  apply providerMatches_true in Hmatch as [Hname|Htoken]; [done|].
  destruct (Htokens q Hq) as [Hsame|Hnone]; congruence.
Qed.

Lemma relink_stable_witness :
  resolveModuleDependencies (resolveModuleDependencies
    {| modules := modules sampleGraph;
       store := <[1 := sampleProvider "BService" (Some "BService") ["AService"]]>
                  (store sampleGraph) |})
  = resolveModuleDependencies
      {| modules := modules sampleGraph;
         store := <[1 := sampleProvider "BService" (Some "BService") ["AService"]]>
                    (store sampleGraph) |}.
Proof.
  apply relink_stable, canonicalStable_of_tokens.
  intros p Hp. vm_compute in Hp.
  apply elem_of_cons in Hp as [->|Hp]; [by left|].
  apply elem_of_cons in Hp as [->|Hp]; [by left|].
  by apply elem_of_nil in Hp.
Defined.

(** The condition of [relink_stable] is needed for a store filled by hand,
    which no analysis builds: in [chainedTokens] the provider objects are
    distinct, the first pass rewrites the dependency [TOKEN] of [C] to [A]
    (the provider registered under that token), and the second pass rewrites
    [A] to [B] (the provider registered under the token [A]). The parser
    never gives a provider a token other than its name. *)
Lemma relink_changes_chained_tokens :
  NoDup (allArrays chainedTokens)
  ∧ p_dependencies <$> store (resolveModuleDependencies chainedTokens) !! 2 = Some ["A"]
  ∧ p_dependencies
      <$> store (resolveModuleDependencies (resolveModuleDependencies chainedTokens)) !! 2
    = Some ["B"]
  ∧ resolveModuleDependencies (resolveModuleDependencies chainedTokens)
    ≠ resolveModuleDependencies chainedTokens.
Proof.
  split; [vm_compute; repeat constructor; set_solver|].
  split; [reflexivity|]. split; [reflexivity|].
  intros Heq.
  apply (f_equal (λ st, p_dependencies <$> store st !! 2)) in Heq.
  vm_compute in Heq. discriminate Heq.
Qed.

(** ** What the analyzer builds from the parser's results *)

Lemma parseProviderObjectLiteral_token (sourceFile : SourceFile)
    (node : list ObjectLiteralElementLike) (s s' : ParserState) (p : ProviderMetadata) :
  parseProviderObjectLiteral sourceFile node s = Returns (Some p) s' → tokenIsName p.
Proof.
  destruct (hasNamedField node "provide") eqn:Hprovide.
  - destruct (parseProviderObjectLiteral_run sourceFile node s Hprovide)
      as (q & s1 & -> & Htoken & Hname & _).
    intros [= <- _]. unfold tokenIsName. by rewrite Htoken, <- Hname.
  - unfold hasNamedField in Hprovide. unfold parseProviderObjectLiteral.
    by rewrite Hprovide.
Qed.

Lemma parseProvider_token (sourceFile : SourceFile) (element : Node)
    (s s' : ParserState) (p : ProviderMetadata) :
  parseProvider sourceFile element s = Returns (Some p) s' → tokenIsName p.
Proof.
  unfold parseProvider. destruct (kind element); try done.
  - by intros [= <- _].
  - apply parseProviderObjectLiteral_token.
Qed.

Lemma mapEach_Forall {A B} (f : A → M B) (Q : B → Prop) (l : list A) :
  (∀ x s y s', f x s = Returns y s' → Q y) →
  ∀ s ys s', mapEach f l s = Returns ys s' → Forall Q ys.
Proof.
  intros Hf. induction l as [|x t IH]; intros s ys s'.
  - intros [= <- _]. constructor.
  - cbn [mapEach]. unfold bind. destruct (f x s) as [y s1|] eqn:Hx; [|done].
    destruct (mapEach f t s1) as [ys1 s2|] eqn:Ht; [|done].
    intros [= <- _]. constructor; [by eapply Hf | by eapply IH].
Qed.

Lemma extractProviders_token (sourceFile : SourceFile)
    (node : list ObjectLiteralElementLike) (s s' : ParserState)
    (providers : list ProviderMetadata) :
  extractProviders sourceFile node s = Returns providers s' → Forall tokenIsName providers.
Proof.
  unfold extractProviders.
  destruct (findPropertyAssignment node "providers") as [initializer|];
    [|intros [= <- _]; constructor].
  destruct (kind initializer) as [| | | | |elements| |];
    try (intros [= <- _]; constructor).
  unfold bind. destruct (mapEach _ elements s) as [parsed s1|] eqn:Hparsed; [|done].
  intros [= <- _].
  pose proof (mapEach_Forall (parseProvider sourceFile)
                (λ o, ∀ p, o = Some p → tokenIsName p) elements) as Hall.
  specialize (Hall (λ x s0 y s0' Hrun p Hy,
                      parseProvider_token sourceFile x s0 s0' p
                        (eq_trans Hrun (f_equal (λ o, Returns o s0') Hy)))
                   s parsed s1 Hparsed).
  clear Hparsed. induction Hall as [|o parsed Ho _ IH]; [constructor|].
  destruct o as [p|]; cbn; [constructor; [by apply Ho | done] | done].
Qed.

Lemma parseModuleDecorator_token (sourceFile : SourceFile) (node : ClassDeclaration)
    (s s' : ParserState) (metadata : ModuleMetadata ProviderMetadata) :
  parseModuleDecorator sourceFile node s = Returns metadata s' →
  Forall tokenIsName (m_providers metadata).
Proof.
  assert (∀ s0, createEmptyModuleMetadata s0 = Returns metadata s' →
                Forall tokenIsName (m_providers metadata)) as Hempty.
  { intros s0. rewrite createEmptyModuleMetadata_run. intros [= <- _]. constructor. }
  unfold parseModuleDecorator.
  destruct (findDecorator node "Module") as [decorator|]; [|apply Hempty].
  destruct (kind (dec_expression decorator)) as [| |expression arguments| | | | |];
    try apply Hempty.
  destruct (head arguments) as [argument|]; [|apply Hempty].
  destruct (kind argument) as [| | | | | |properties|]; try apply Hempty.
  unfold bind.
  destruct (match class_name node with
            | Some text => ret text
            | None => generateUniqueName "Module"
            end s) as [name s1|]; [|done].
  destruct (extractImports sourceFile properties s1) as [imports s2|]; [|done].
  destruct (extractProviders sourceFile properties s2) as [providers s3|] eqn:Hproviders;
    [|done].
  destruct (extractEntityCount properties s3) as [entityCount s4|]; [|done].
  intros [= <- _]. cbn. by eapply extractProviders_token.
Qed.

Lemma enrich_token (s : ParserState) (metadata enriched : ModuleMetadata ProviderMetadata) :
  enrichWithSecondLevelDependencies s metadata = Some enriched →
  Forall tokenIsName (m_providers metadata) →
  Forall tokenIsName (m_providers enriched).
Proof.
  unfold enrichWithSecondLevelDependencies.
  destruct (mapM _ (m_providers metadata)) as [providers|] eqn:Hmap; [|done].
  intros [= <-]. cbn. apply mapM_Some in Hmap.
  induction Hmap as [|p p' ps ps' Hp _ IH]; [done|].
  intros [Htoken Hrest]%Forall_cons. constructor; [|by apply IH].
  unfold enrichProvider in Hp.
  destruct (getProviderDependencyTree _ _) as [deps|]; [|done].
  injection Hp as <-. exact Htoken.
Qed.

Lemma parseModule_token (sourceFile : SourceFile) (s s' : ParserState)
    (metadata : ModuleMetadata ProviderMetadata) :
  parseModule sourceFile s = Returns (Some metadata) s' →
  Forall tokenIsName (m_providers metadata).
Proof.
  unfold parseModule. destruct (findModuleClass sourceFile) as [moduleClass|]; [|done].
  unfold bind at 1.
  destruct (parseModuleDecorator sourceFile moduleClass s) as [md s1|] eqn:Hmd; [|done].
  destruct (negb (truthy (Some (m_name md)))); [done|].
  unfold bind, setModuleCache, getState.
  destruct (enrichWithSecondLevelDependencies _ md) as [enriched|] eqn:Henrich; [|done].
  intros [= <- _]. eapply enrich_token; [exact Henrich|].
  by eapply parseModuleDecorator_token.
Qed.

Lemma allocate_spec (providers : list ProviderMetadata) :
  ∀ (h h' : gmap addr ProviderMetadata) (array : list addr),
    allocate providers h = (array, h') →
    NoDup array
    ∧ (∀ a, a ∈ array → h !! a = None ∧ is_Some (h' !! a))
    ∧ (∀ a p, h !! a = Some p → h' !! a = Some p)
    ∧ (∀ a p, h' !! a = Some p → h !! a = Some p ∨ p ∈ providers).
Proof.
  induction providers as [|provider rest IH]; intros h h' array.
  - intros [= <- <-]. split; [constructor|]. split; [set_solver|]. split; [done|]. by left.
  - cbn [allocate].
    destruct (allocate rest (<[fresh (dom h) := provider]> h)) as [array1 h1] eqn:Hrest.
    intros [= <- <-].
    destruct (IH _ _ _ Hrest) as (Hnd & Hnew & Hkept & Hfrom).
    assert (h !! fresh (dom h) = None) as Hfresh
      by (apply not_elem_of_dom, is_fresh).
    split; [|split; [|split]].
    + constructor; [|done]. intros Hin. destruct (Hnew _ Hin) as [Hnone _].
      by rewrite lookup_insert_eq in Hnone.
    + intros a [->|Ha]%elem_of_cons.
      * split; [done|]. eexists. apply Hkept, lookup_insert_eq.
      * destruct (Hnew a Ha) as [Hnone Hsome]. split; [|done].
        destruct (decide (fresh (dom h) = a)) as [<-|Hne]; [done|].
        by rewrite lookup_insert_ne in Hnone.
    + intros a p Hp. apply Hkept. rewrite lookup_insert_ne; [done|]. congruence.
    + intros a p Hp. destruct (Hfrom a p Hp) as [Hin|Hin]; [|right; set_solver].
      destruct (decide (fresh (dom h) = a)) as [<-|Hne].
      * rewrite lookup_insert_eq in Hin. injection Hin as <-. right. set_solver.
      * rewrite lookup_insert_ne in Hin by done. by left.
Qed.

Lemma mapSet_arrays (key : string) (m : ModuleMetadata addr)
    (entries : list (string * ModuleMetadata addr)) (a : addr) :
  a ∈ concat (map m_providers (map snd (mapSet key m entries))) →
  a ∈ m_providers m ∨ a ∈ concat (map m_providers (map snd entries)).
Proof.
  induction entries as [|[k x] rest IH]; cbn.
  - rewrite app_nil_r. by left.
  - destruct (String.eqb k key); cbn; rewrite !elem_of_app; [tauto|].
    intros [Hx|Hrest]; [tauto|]. destruct (IH Hrest); tauto.
Qed.

Lemma mapSet_NoDup (key : string) (m : ModuleMetadata addr)
    (entries : list (string * ModuleMetadata addr)) :
  NoDup (concat (map m_providers (map snd entries))) →
  NoDup (m_providers m) →
  (∀ a, a ∈ m_providers m → a ∉ concat (map m_providers (map snd entries))) →
  NoDup (concat (map m_providers (map snd (mapSet key m entries)))).
Proof.
  intros Hold Hnew Hdisjoint. induction entries as [|[k x] rest IH]; cbn in *.
  - by rewrite app_nil_r.
  - apply NoDup_app in Hold as (Hx & Hxrest & Hrest).
    destruct (String.eqb k key); cbn; apply NoDup_app.
    + split; [done|]. split; [|done]. intros a Ha Hin. apply (Hdisjoint a Ha). set_solver.
    + split; [done|]. split.
      * intros a Ha [Hin|Hin]%mapSet_arrays; [|by apply (Hxrest a)].
        apply (Hdisjoint a Hin). set_solver.
      * apply IH; [done|]. intros a Ha Hin. apply (Hdisjoint a Ha). set_solver.
Qed.

Lemma registerModule_wellFormed (st : Analyzer) (filePath : string)
    (metadata : ModuleMetadata ProviderMetadata) :
  wellFormed st → Forall tokenIsName (m_providers metadata) →
  wellFormed (registerModule st filePath metadata).
Proof.
  intros (Hnd & Hstored & Htokens) Hproviders. unfold registerModule.
  destruct (truthy (Some (m_name metadata))); [|done].
  destruct (allocate (m_providers metadata) (store st)) as [array h] eqn:Halloc.
  destruct (allocate_spec _ _ _ _ Halloc) as (Harray & Hnew & Hkept & Hfrom).
  unfold wellFormed, allArrays, moduleValues in *. cbn [modules store].
  split; [|split].
  - apply mapSet_NoDup; [done..|]. cbn. intros a Ha Hold.
    destruct (Hnew a Ha) as [Hnone _]. destruct (Hstored a Hold) as [p Hp]. congruence.
  - intros a [Ha|Ha]%mapSet_arrays.
    + by apply Hnew.
    + destruct (Hstored a Ha) as [p Hp]. exists p. by apply Hkept.
  - intros a p Hp. destruct (Hfrom a p Hp) as [Hold|Hin]; [by eapply Htokens|].
    rewrite Forall_forall in Hproviders. by apply Hproviders.
Qed.

Lemma analyzeFiles_wellFormed (files : list SourceFile) (st st' : Analyzer) :
  wellFormed st → foldl analyzeFile (inr st) files = inr st' → wellFormed st'.
Proof.
  revert st. induction files as [|file files IH]; intros st Hwf.
  - by intros [= <-].
  - cbn [foldl analyzeFile].
    destruct (parseModule file initialParserState) as [[metadata|] s|e] eqn:Hparse.
    + apply IH. apply registerModule_wellFormed; [done|]. by eapply parseModule_token.
    + by apply IH.
    + intros Hfailed. exfalso. clear -Hfailed.
      induction files as [|f files IHf]; [done | by apply IHf].
Qed.

Lemma wellFormed_tokens (st : Analyzer) : wellFormed st → tokensAreNames st.
Proof.
  intros (_ & _ & Htokens) p Hp. left.
  unfold allProviders, providersAt in Hp.
  apply list_elem_of_omap in Hp as (a & _ & Ha). by eapply Htokens.
Qed.

(** On every mapping the analyzer builds and links, the provider arrays hold
    distinct objects and linking once more changes nothing. *)
Lemma analyze_relink (files : list SourceFile) (linked : Analyzer) :
  analyze files = inr linked →
  NoDup (allArrays linked) ∧ resolveModuleDependencies linked = linked.
Proof.
  unfold analyze.
  destruct (foldl analyzeFile _ files) as [e|st] eqn:Hscan; [done|].
  intros [= <-].
  assert (wellFormed st) as Hwf.
  { eapply analyzeFiles_wellFormed; [|exact Hscan].
    split; [constructor|]. split; [set_solver|].
    intros a p Hp. cbn in Hp. by rewrite lookup_empty in Hp. }
  split.
  - rewrite (allArrays_shape _ _ (sameShape_linked st)). apply Hwf.
  - by apply relink_stable, canonicalStable_of_tokens, wellFormed_tokens.
Qed.

(** C1. Linking once more the mapping an analysis has built and linked gives
    the identical mapping, whatever the files: the modules under the same
    keys in the same order, every import with the same path and the same
    [module] snapshot, and every provider object with the same dependencies
    list. The module mapping is filled from the parser's results only, and
    the parser gives every provider its name as token, so that a name the
    first pass has written resolves to itself in the second. *)
Theorem relinking_is_identity (files : list SourceFile) (linked : Analyzer) :
  analyze files = inr linked →
  resolveModuleDependencies linked = linked
  ∧ map fst (modules (resolveModuleDependencies linked)) = map fst (modules linked)
  ∧ Forall2 (λ module module',
               map i_path (m_imports module') = map i_path (m_imports module)
               ∧ map i_module (m_imports module') = map i_module (m_imports module))
      (moduleValues linked) (moduleValues (resolveModuleDependencies linked))
  ∧ ∀ a, p_dependencies <$> store (resolveModuleDependencies linked) !! a
         = p_dependencies <$> store linked !! a.
Proof.
  intros Hanalysis. destruct (analyze_relink files linked Hanalysis) as [_ Hsame].
  rewrite Hsame. split; [done|]. split; [done|]. split; [|done].
  apply Forall2_same_length_lookup. split; [done|].
  intros i module module' Hmodule Hmodule'.
  rewrite Hmodule in Hmodule'. by injection Hmodule' as <-.
Qed.

Lemma relinking_is_identity_witness :
  ∃ linked,
    analyze [catsModuleFile; bareModuleFile] = inr linked
    ∧ map fst (modules linked) = ["CatsModule"; "Module_1"]
    ∧ resolveModuleDependencies linked = linked.
Proof.
  eexists. split; [reflexivity|]. split; [reflexivity|].
  exact (proj1 (relinking_is_identity [catsModuleFile; bareModuleFile] _ eq_refl)).
Defined.

(** * Further properties *)

(** ** The renderer's escaping and output *)

Lemma escapeName_head (name : string) (rest : string) :
  escapeName name ≠ String dquote rest.
Proof.
  destruct name as [|c name]; [done|]. cbn.
  destruct (Ascii.eqb c dquote) eqn:Hc; [done|].
  intros [= -> _]. by rewrite Ascii.eqb_refl in Hc.
Qed.

Lemma unescapeName_escapeName (name : string) : unescapeName (escapeName name) = name.
Proof.
  induction name as [|c name IH]; [done|]. cbn [escapeName].
  destruct (Ascii.eqb c dquote) eqn:Hc.
  - apply Ascii.eqb_eq in Hc as ->. cbn. by rewrite IH.
  - cbn [unescapeName]. destruct (escapeName name) as [|d rest] eqn:Hesc.
    + destruct name as [|e name]; [done|]. cbn in Hesc. by destruct (Ascii.eqb e dquote).
    + destruct (Ascii.eqb c backslash && Ascii.eqb d dquote) eqn:Hpair.
      * apply andb_prop in Hpair as [_ Hd]. apply Ascii.eqb_eq in Hd as ->.
        by apply escapeName_head in Hesc.
      * by rewrite IH.
Qed.

Lemma escapeName_app (a b : string) :
  escapeName (a +:+ b) = escapeName a +:+ escapeName b.
Proof.
  induction a as [|c a IH]; [done|].
  change (String c a +:+ b) with (String c (a +:+ b)). cbn [escapeName].
  destruct (Ascii.eqb c dquote); rewrite IH; done.
Qed.

Lemma escapeName_plain (name : string) :
  hasChar dquote name = false → escapeName name = name.
Proof.
  induction name as [|c name IH]; [done|]. cbn.
  intros [Hc Hrest]%orb_false_elim. rewrite Hc. by rewrite IH.
Qed.

(** X1. [escapeName] loses nothing: two names with the same escaped text
    are the same name, so distinct module or provider names never share a
    node identifier in the diagram. It leaves a name without double quotes
    as it is, and escapes a concatenation piece by piece. *)
Theorem escapeName_injective (a b : string) :
  (escapeName a = escapeName b → a = b)
  ∧ (hasChar dquote a = false → escapeName a = a)
  ∧ escapeName (a +:+ b) = escapeName a +:+ escapeName b.
Proof.
  split; [|split].
  - intros Heq. rewrite <- (unescapeName_escapeName a), <- (unescapeName_escapeName b).
    by rewrite Heq.
  - apply escapeName_plain.
  - apply escapeName_app.
Qed.

Lemma escapeName_injective_witness :
  escapeName (String dquote "a") ≠ escapeName (String backslash (String dquote "a"))
  ∧ escapeName "AppModule" = "AppModule".
Proof.
  split.
  - intros Heq.
    destruct (escapeName_injective (String dquote "a")
                (String backslash (String dquote "a"))) as (Hinj & _ & _).
    by specialize (Hinj Heq).
  - destruct (escapeName_injective "AppModule" EmptyString) as (_ & Hplain & _).
    by apply Hplain.
Defined.

Lemma escapeLinefeeds_clean (label : string) :
  hasChar linefeed (escapeLinefeeds label) = false.
Proof.
  induction label as [|c label IH]; [done|]. cbn.
  destruct (Ascii.eqb c linefeed) eqn:Hc; cbn; [done|]. by rewrite Hc.
Qed.

Lemma hasChar_app (c : ascii) (a b : string) :
  hasChar c (a +:+ b) = hasChar c a || hasChar c b.
Proof.
  induction a as [|d a IH]; [done|].
  change (String d a +:+ b) with (String d (a +:+ b)). cbn [hasChar].
  by rewrite IH, orb_assoc.
Qed.

(** X2. A label never contains a line feed after [escapeLabel], so the node
    statement of a module is one line of the output whenever the module's
    name has no line feed. *)
Theorem nodeLine_single_line (moduleName : string) (module : ModuleMetadata addr) :
  (∀ label, hasChar linefeed (escapeLabel label) = false)
  ∧ (hasChar linefeed moduleName = false →
     hasChar linefeed (nodeLine moduleName module) = false).
Proof.
  split; [intros label; apply escapeLinefeeds_clean|].
  intros Hname. unfold nodeLine, quoted, escapeLabel. cbv zeta.
  rewrite !hasChar_app. rewrite escapeLinefeeds_clean.
  assert (hasChar linefeed (escapeName moduleName) = false) as ->; [|done].
  clear module. induction moduleName as [|c name IH]; [done|]. cbn in *.
  apply orb_false_elim in Hname as [Hc Hrest].
  destruct (Ascii.eqb c dquote); cbn; rewrite ?Hc; by apply IH.
Qed.

Lemma nodeLine_single_line_witness :
  hasChar linefeed (nodeLine "AppModule" (sampleModule "AppModule" [] [])) = false.
Proof. by apply nodeLine_single_line. Defined.

Lemma length_concat_total {A} (ls : list (list A)) :
  length (concat ls) = total (map length ls).
Proof. induction ls as [|l ls IH]; [done|]. cbn. by rewrite length_app, IH. Qed.

(** The lines the renderer pushes: the four header lines first and the
    closing brace last; between them one node line per module, one blank
    line, one edge line per import and one edge line per dependency of every
    provider object that the module's array holds in the store: six fixed
    entries in all. *)
Lemma generateLines_count (st : Analyzer) :
  length (generateLines st)
  = 6 + length (modules st)
    + total (map (λ entry, length (m_imports entry.2)) (modules st))
    + total (map (λ entry, dependencyCount st entry.2) (modules st))
  ∧ take 4 (generateLines st)
    = ["digraph {"; "  rankdir=LR;";
       "  node [shape=box, style=filled, fillcolor=lightgray];"; EmptyString]
  ∧ last (generateLines st) = Some "}".
Proof.
  split; [|split].
  - unfold generateLines. rewrite !length_app, !length_concat_total, !length_map, !map_map.
    cbn [length].
    assert (map (λ x : string * ModuleMetadata addr,
                   length (let '(moduleName, module) := x in
                           map (importLine moduleName) (m_imports module))) (modules st)
            = map (λ entry, length (m_imports entry.2)) (modules st)) as ->.
    { apply map_ext. intros [k m]. cbn. by rewrite length_map. }
    assert (map (λ x : string * ModuleMetadata addr,
                   length (let '(_, module) := x in
                           concat (map (λ provider,
                                          map (providerLine provider)
                                            (p_dependencies provider))
                                       (providersAt (store st) (m_providers module)))))
                (modules st)
            = map (λ entry, dependencyCount st entry.2) (modules st)) as ->.
    { apply map_ext. intros [k m]. cbn. unfold dependencyCount.
      rewrite length_concat_total, map_map. f_equal. apply map_ext. intros p.
      by rewrite length_map. }
    lia.
  - done.
  - unfold generateLines. rewrite !app_assoc. apply last_snoc.
Qed.

(** ** What the provider dependency tree contains *)

Lemma elem_of_uniqFrom (seen l : list string) (x : string) :
  x ∈ uniqFrom seen l ↔ x ∈ l ∧ x ∉ seen.
Proof.
  revert seen. induction l as [|y t IH]; intros seen; cbn.
  - set_solver.
  - case_bool_decide as Hy.
    + rewrite IH. set_solver.
    + rewrite elem_of_cons, IH. split.
      * intros [->|[Ht Hseen]]; set_solver.
      * intros [[->|Ht]%elem_of_cons Hseen]; [by left|].
        destruct (decide (x = y)) as [->|Hne]; [by left | right; set_solver].
Qed.

Lemma elem_of_uniq (l : list string) (x : string) : x ∈ uniq l ↔ x ∈ l.
Proof. unfold uniq. rewrite elem_of_uniqFrom. set_solver. Qed.

Section Reachability.
Variable cache : gmap string ProviderMetadata.

Lemma flatMapVisited_sound f (deps : list string) :
  (∀ d v r v', f d v = Some (r, v') → ∀ x, x ∈ r → tc (dependsOn cache) d x) →
  ∀ v r v', flatMapVisited f deps v = Some (r, v') →
            ∀ x, x ∈ r → ∃ d, d ∈ deps ∧ tc (dependsOn cache) d x.
Proof.
  intros Hf. induction deps as [|d rest IH]; intros v r v'; cbn.
  - intros [= <- <-] x Hx. by apply elem_of_nil in Hx.
  - destruct (f d v) as [[r1 v1]|] eqn:Hd; [|done].
    destruct (flatMapVisited f rest v1) as [[rs v2]|] eqn:Hrest; [|done].
    intros [= <- <-] x [Hx|Hx]%elem_of_app.
    + exists d. split; [set_solver | by eapply Hf].
    + destruct (IH _ _ _ Hrest x Hx) as (d' & Hd' & Hreach). exists d'. set_solver.
Qed.

Lemma dependencyTree_sound (fuel : nat) :
  ∀ name v r v', dependencyTree fuel cache name v = Some (r, v') →
                 ∀ x, x ∈ r → tc (dependsOn cache) name x.
Proof.
  induction fuel as [|fuel IH]; intros name v r v'; [done|].
  rewrite dependencyTree_S. destruct (decide (name ∈ v)).
  { intros [= <- <-] x Hx. by apply elem_of_nil in Hx. }
  destruct (cache !! name) as [provider|] eqn:Hcache.
  - destruct (flatMapVisited _ _ _) as [[nested v2]|] eqn:Hnested; [|done].
    intros [= <- <-] x [Hx|Hx]%elem_of_uniq%elem_of_app.
    + apply tc_once. by exists provider.
    + destruct (flatMapVisited_sound _ _ IH _ _ _ Hnested x Hx) as (d & Hd & Hreach).
      eapply tc_l; [|exact Hreach]. by exists provider.
  - intros [= <- <-] x Hx. by apply elem_of_nil in Hx.
Qed.

Lemma explored_refl (v : gset string) : explored cache v v [].
Proof. split; [done|]. intros x Hx Hnew. done. Qed.

Lemma flatMapVisited_explored f (deps : list string) :
  (∀ d v r v', f d v = Some (r, v') → d ∈ v' ∧ explored cache v v' r) →
  ∀ v r v', flatMapVisited f deps v = Some (r, v') →
            (∀ d, d ∈ deps → d ∈ v') ∧ explored cache v v' r.
Proof.
  intros Hf. induction deps as [|d rest IH]; intros v r v'; cbn.
  - intros [= <- <-]. split; [set_solver | apply explored_refl].
  - destruct (f d v) as [[r1 v1]|] eqn:Hd; [|done].
    destruct (flatMapVisited f rest v1) as [[rs v2]|] eqn:Hrest; [|done].
    intros [= <- <-].
    destruct (Hf _ _ _ _ Hd) as (Hdv & Hsub1 & Hclosed1).
    destruct (IH _ _ _ Hrest) as (Hall & Hsub2 & Hclosed2).
    split; [set_solver|]. split; [set_solver|].
    intros x Hx Hnew y Hxy. destruct (decide (x ∈ v1)) as [Hin|Hout].
    + destruct (Hclosed1 x Hin Hnew y Hxy). set_solver.
    + destruct (Hclosed2 x Hx Hout y Hxy). set_solver.
Qed.

Lemma dependencyTree_explored (fuel : nat) :
  ∀ name v r v', dependencyTree fuel cache name v = Some (r, v') →
                 name ∈ v' ∧ explored cache v v' r.
Proof.
  induction fuel as [|fuel IH]; intros name v r v'; [done|].
  rewrite dependencyTree_S. destruct (decide (name ∈ v)) as [Hin|Hnew].
  { intros [= <- <-]. split; [done | apply explored_refl]. }
  destruct (cache !! name) as [provider|] eqn:Hcache.
  - destruct (flatMapVisited _ _ _) as [[nested v2]|] eqn:Hnested; [|done].
    intros [= <- <-].
    destruct (flatMapVisited_explored _ _ IH _ _ _ Hnested) as (Hall & Hsub & Hclosed).
    split; [set_solver|]. split; [set_solver|].
    intros x Hx Hxnew y Hxy. destruct (decide (x = name)) as [->|Hne].
    + destruct Hxy as (p & Hp & Hy). rewrite Hcache in Hp. injection Hp as <-.
      split; [by apply Hall|]. apply elem_of_uniq. set_solver.
    + destruct (Hclosed x Hx) with (y := y) as [Hyv Hyr]; [set_solver|done|].
      split; [done|]. apply elem_of_uniq. set_solver.
  - intros [= <- <-]. split; [set_solver|]. split; [set_solver|].
    intros x Hx Hxnew y (p & Hp & _).
    assert (x = name) as -> by set_solver. congruence.
Qed.
End Reachability.

(** X4. The list [getProviderDependencyTree] returns holds exactly the names
    reachable from the starting name by one or more dependency steps through
    the provider cache: every listed name is reachable, and every reachable
    name is listed (the visited-set cutoff loses none). The starting name is
    listed itself when it lies on a cycle. *)
Theorem dependencyTree_reachable (cache : gmap string ProviderMetadata)
    (providerName : string) :
  ∃ deps, getProviderDependencyTree cache providerName = Some deps
          ∧ ∀ name, name ∈ deps ↔ tc (dependsOn cache) providerName name.
Proof.
  destruct (dependencyTree_total cache (S (size cache)) providerName ∅)
    as (deps & v' & Hrun & _).
  { pose proof (unvisited_le_size cache ∅). lia. }
  exists deps. unfold getProviderDependencyTree. rewrite Hrun. split; [done|].
  intros name. split; [by eapply dependencyTree_sound|].
  destruct (dependencyTree_explored cache _ _ _ _ _ Hrun) as (Hstart & _ & Hclosed).
  intros Hreach. clear Hrun. revert Hstart.
  induction Hreach as [x y Hxy | x y z Hxy _ IH]; intros Hx.
  - destruct (Hclosed x Hx (not_elem_of_empty x) y Hxy) as [_ Hy]. exact Hy.
  - apply IH. destruct (Hclosed x Hx (not_elem_of_empty x) y Hxy) as [Hy _]. exact Hy.
Qed.

(** ** When extraction throws *)

Lemma forFeatureForms_eqb (text : string) :
  bool_decide (text ∈ forFeatureForms)
  = String.eqb text "TypeOrmModule.forFeature"
    || String.eqb text "MongooseModule.forFeature"
    || String.eqb text "SequelizeModule.forFeature".
Proof.
  unfold forFeatureForms.
  destruct (String.eqb_spec text "TypeOrmModule.forFeature") as [->|H1];
    [by apply bool_decide_eq_true_2; set_solver|].
  destruct (String.eqb_spec text "MongooseModule.forFeature") as [->|H2];
    [by apply bool_decide_eq_true_2; set_solver|].
  destruct (String.eqb_spec text "SequelizeModule.forFeature") as [->|H3];
    [by apply bool_decide_eq_true_2; set_solver|].
  apply bool_decide_eq_false_2. set_solver.
Qed.

Lemma addFirstArrayLength_cons (argument : Node) (rest : list Node) (n : nat)
    (s : ParserState) :
  addFirstArrayLength (argument :: rest) n s
  = Returns (n + firstArrayLength (argument :: rest)) s.
Proof.
  unfold addFirstArrayLength, firstArrayLength. cbn.
  destruct (kind argument); cbn; by rewrite ?Nat.add_0_r.
Qed.

Lemma addConfigEntities_cons (argument : Node) (rest : list Node) (n : nat)
    (s : ParserState) :
  addConfigEntities (argument :: rest) n s
  = Returns (n + configEntitiesLength (argument :: rest)) s.
Proof.
  unfold addConfigEntities, configEntitiesLength. cbn.
  destruct (kind argument) as [| | | | | |properties|]; cbn; rewrite ?Nat.add_0_r; try done.
  destruct (findPropertyAssignment properties "entities") as [initializer|];
    cbn; rewrite ?Nat.add_0_r; [|done].
  destruct (kind initializer); cbn; by rewrite ?Nat.add_0_r.
Qed.

Lemma countElementEntities_run (element : Node) (n : nat) (s : ParserState) :
  countElementEntities element n s
  = if argumentlessRegistration element then Throws TypeError
    else Returns (n + entitiesOf element) s.
Proof.
  unfold countElementEntities, argumentlessRegistration, entitiesOf, countCallEntities.
  destruct (kind element) as [| |expression arguments| | | | |];
    try (cbn; by rewrite Nat.add_0_r).
  destruct (kind expression) as [| | |inner name| | | |];
    try (destruct arguments; cbn; by rewrite Nat.add_0_r).
  rewrite forFeatureForms_eqb. generalize (getText expression). intros text.
  unfold bind. destruct arguments as [|argument rest].
  - destruct (String.eqb_spec text "TypeOrmModule.forFeature") as [->|H1]; [done|].
    destruct (String.eqb (getText inner) "TypeOrmModule");
      [by rewrite orb_true_r|].
    destruct (String.eqb_spec text "MongooseModule.forFeature") as [->|H2]; [done|].
    destruct (String.eqb_spec text "SequelizeModule.forFeature") as [->|H3]; [done|].
    cbn. by rewrite Nat.add_0_r.
  - assert (∀ b1 b2 b3 b4 : bool,
              (b1 || b2 || b3 = false ∨ (b1 && b2 = false ∧ b1 && b3 = false
                                          ∧ b2 && b3 = false)) →
              match (if b1 then addFirstArrayLength (argument :: rest) n
                     else ret n) s with
              | Returns c1 s1 =>
                  match (if b4 then addConfigEntities (argument :: rest) c1
                         else ret c1) s1 with
                  | Returns c2 s2 =>
                      match (if b2 then addFirstArrayLength (argument :: rest) c2
                             else ret c2) s2 with
                      | Returns c3 s3 =>
                          (if b3 then addFirstArrayLength (argument :: rest) c3
                           else ret c3) s3
                      | Throws e => Throws e
                      end
                  | Throws e => Throws e
                  end
              | Throws e => Throws e
              end
              = Returns (n + ((if b1 || b2 || b3
                               then firstArrayLength (argument :: rest) else 0)
                              + (if b4 then configEntitiesLength (argument :: rest)
                                 else 0))) s) as Hsteps.
    { intros b1 b2 b3 b4 Hexclusive.
      destruct b1, b2, b3, b4; cbn [orb andb] in *;
        try (by destruct Hexclusive as [?|(? & ? & ?)]);
        unfold ret;
        repeat first [rewrite addFirstArrayLength_cons | rewrite addConfigEntities_cons];
        f_equal; lia. }
    apply Hsteps.
    destruct (String.eqb_spec text "TypeOrmModule.forFeature") as [->|H1]; [by right|].
    destruct (String.eqb_spec text "MongooseModule.forFeature") as [->|H2]; [by right|].
    destruct (String.eqb_spec text "SequelizeModule.forFeature") as [->|H3]; [by right|].
    by left.
Qed.

Lemma countEntities_run (elements : list Node) (n : nat) (s : ParserState) :
  countEntities elements n s
  = if existsb argumentlessRegistration elements then Throws TypeError
    else Returns (n + total (map entitiesOf elements)) s.
Proof.
  revert n. induction elements as [|element rest IH]; intros n.
  - cbn. by rewrite Nat.add_0_r.
  - cbn [countEntities existsb map]. unfold bind. rewrite countElementEntities_run.
    destruct (argumentlessRegistration element); [done|]. rewrite IH. cbn [orb].
    destruct (existsb argumentlessRegistration rest); [done|].
    unfold total. cbn [foldr]. f_equal. lia.
Qed.

Lemma extractEntityCount_run (node : list ObjectLiteralElementLike) (s : ParserState) :
  extractEntityCount node s
  = if existsb argumentlessRegistration (importElements node) then Throws TypeError
    else Returns (total (map entitiesOf (importElements node))) s.
Proof.
  unfold extractEntityCount, importElements.
  destruct (findPropertyAssignment node "imports") as [initializer|]; [|done].
  destruct (kind initializer); try done. apply countEntities_run.
Qed.

(** X5. Entity counting throws a TypeError exactly when the [imports] array
    has a registration call without argument (a property-access callee that
    is one of the three [forFeature] forms or a member of [TypeOrmModule],
    called with no argument). Otherwise it returns, leaves the parser's
    state as it is, and the count is the sum over the elements of the
    lengths of the array literals registered: the first argument of a
    [forFeature] form, and the [entities] array of an object-literal first
    argument of a [TypeOrmModule] member. *)
Theorem extractEntityCount_outcome (node : list ObjectLiteralElementLike) (s : ParserState) :
  (existsb argumentlessRegistration (importElements node) = true →
   extractEntityCount node s = Throws TypeError)
  ∧ (existsb argumentlessRegistration (importElements node) = false →
     extractEntityCount node s
     = Returns (total (map entitiesOf (importElements node))) s).
Proof. rewrite extractEntityCount_run. split; by intros ->. Qed.

Lemma extractEntityCount_outcome_witness :
  extractEntityCount (importsOf [threeEntities; configCall; ident "DogsModule"])
    initialParserState
  = Returns 3 initialParserState
  ∧ extractEntityCount
      (importsOf [threeEntities;
                  call "TypeOrmModule.forRoot()"
                    (access (ident "TypeOrmModule") "forRoot") []])
      initialParserState
    = Throws TypeError.
Proof.
  split.
  - destruct (extractEntityCount_outcome
                (importsOf [threeEntities; configCall; ident "DogsModule"])
                initialParserState) as [_ Hreturns].
    by rewrite Hreturns.
  - destruct (extractEntityCount_outcome
                (importsOf [threeEntities;
                            call "TypeOrmModule.forRoot()"
                              (access (ident "TypeOrmModule") "forRoot") []])
                initialParserState) as [Hthrows _].
    by apply Hthrows.
Defined.

(** ** The state the extraction of imports and providers leaves *)

Lemma importOfElement_run (sourceFile : SourceFile) (element : Node) (s : ParserState) :
  ∃ imp,
    importOfElement sourceFile element s
    = Returns imp (if unnamedElement element then advanceCounter s else s)
    ∧ (unnamedElement element = true →
       i_name imp = "UnknownModule_" +:+ pretty (uniqueIdCounter s))
    ∧ i_dependencies imp = Some []
    ∧ i_module imp = None.
Proof.
  unfold importOfElement, unnamedElement, namedCallImport, parseAsyncImport, isIdentifier.
  destruct (kind element) as [text| | expression arguments | | | | |];
    try (by eexists).
  destruct (kind expression) as [text| | | inner name | | | |]; try (by eexists).
  destruct (String.eqb text "forwardRef"); [|by eexists].
  destruct (head arguments) as [arrowFunc|]; [|by eexists].
  destruct (kind arrowFunc) as [| | | |returnExpr| | |]; try (by eexists).
  destruct (kind returnExpr); by eexists.
Qed.

Lemma extractImports_elements (sourceFile : SourceFile)
    (node : list ObjectLiteralElementLike) :
  extractImports sourceFile node
  = mapEach (importOfElement sourceFile) (importElements node).
Proof.
  unfold extractImports, importElements.
  destruct (findPropertyAssignment node "imports") as [initializer|]; [|done].
  by destruct (kind initializer).
Qed.

Lemma importsOfElements_run (sourceFile : SourceFile) (elements : list Node) :
  ∀ s, ∃ imports s',
    mapEach (importOfElement sourceFile) elements s = Returns imports s'
    ∧ length imports = length elements
    ∧ uniqueIdCounter s'
      = uniqueIdCounter s + length (List.filter unnamedElement elements)
    ∧ moduleCache s' = moduleCache s
    ∧ providerCache s' = providerCache s
    ∧ (∀ i element imp,
         elements !! i = Some element → imports !! i = Some imp →
         unnamedElement element = true →
         i_name imp
         = "UnknownModule_"
           +:+ pretty (uniqueIdCounter s
                       + length (List.filter unnamedElement (take i elements))))
    ∧ Forall (λ imp, i_dependencies imp = Some [] ∧ i_module imp = None) imports.
Proof.
  induction elements as [|element rest IH]; intros s.
  - exists [], s. cbn. rewrite Nat.add_0_r. repeat split; done.
  - destruct (importOfElement_run sourceFile element s)
      as (imp0 & Hrun0 & Hname0 & Hdeps0 & Hmodule0).
    destruct (IH (if unnamedElement element then advanceCounter s else s))
      as (imports & s' & Hrun & Hlen & Hcounter & Hmc & Hpc & Hnames & Hall).
    exists (imp0 :: imports), s'. cbn [mapEach]. unfold bind. rewrite Hrun0, Hrun.
    split; [done|]. split; [cbn; by rewrite Hlen|].
    split; [|split; [|split; [|split]]].
    + rewrite Hcounter. cbn [List.filter].
      destruct (unnamedElement element); cbn; lia.
    + rewrite Hmc. by destruct (unnamedElement element).
    + rewrite Hpc. by destruct (unnamedElement element).
    + intros [|i] e imp He Himp Hunnamed.
      * injection He as <-. injection Himp as <-. cbn. rewrite Nat.add_0_r.
        by apply Hname0.
      * cbn in He, Himp. rewrite (Hnames i e imp He Himp Hunnamed). do 2 f_equal.
        cbn [take List.filter]. destruct (unnamedElement element); cbn; lia.
    + by constructor.
Qed.

Lemma unknown_names_differ (n n' : nat) :
  n ≠ n' → "UnknownModule_" +:+ pretty n ≠ "UnknownModule_" +:+ pretty n'.
Proof.
  intros Hne Heq. apply Hne. cbn in Heq.
  injection Heq as Heq. by apply (inj pretty).
Qed.

Lemma unnamed_before (elements : list Node) :
  ∀ i j element, i < j → elements !! i = Some element → unnamedElement element = true →
    length (List.filter unnamedElement (take i elements))
    < length (List.filter unnamedElement (take j elements)).
Proof.
  induction elements as [|x rest IH]; intros i j element Hij Hi Hunnamed.
  - by rewrite lookup_nil in Hi.
  - destruct j as [|j]; [lia|]. destruct i as [|i].
    + injection Hi as ->. cbn. rewrite Hunnamed. cbn. lia.
    + cbn in Hi. cbn [take List.filter].
      pose proof (IH i j element ltac:(lia) Hi Hunnamed).
      destruct (unnamedElement x); cbn; lia.
Qed.

(** X6. Extracting the imports never throws and yields one import per
    element of the array, in order. The parser's counter advances by the
    number of elements that become placeholders, and the two caches are not
    touched. Two placeholders made for different positions of the array have
    different names. *)
Theorem extractImports_placeholders (sourceFile : SourceFile)
    (node : list ObjectLiteralElementLike) (s : ParserState) :
  ∃ imports s',
    extractImports sourceFile node s = Returns imports s'
    ∧ length imports = length (importElements node)
    ∧ uniqueIdCounter s'
      = uniqueIdCounter s + length (List.filter unnamedElement (importElements node))
    ∧ moduleCache s' = moduleCache s
    ∧ providerCache s' = providerCache s
    ∧ ∀ i j element element' imp imp',
        i ≠ j →
        importElements node !! i = Some element → imports !! i = Some imp →
        importElements node !! j = Some element' → imports !! j = Some imp' →
        unnamedElement element = true → unnamedElement element' = true →
        i_name imp ≠ i_name imp'.
Proof.
  rewrite extractImports_elements.
  destruct (importsOfElements_run sourceFile (importElements node) s)
    as (imports & s' & Hrun & Hlen & Hcounter & Hmc & Hpc & Hnames & _).
  exists imports, s'. repeat (split; [done|]).
  intros i j e e' imp imp' Hij He Himp He' Himp' Hu Hu'.
  rewrite (Hnames i e imp He Himp Hu), (Hnames j e' imp' He' Himp' Hu').
  apply unknown_names_differ.
  destruct (Nat.lt_total i j) as [Hlt|[->|Hlt]]; [|done|].
  - pose proof (unnamed_before _ i j e Hlt He Hu). lia.
  - pose proof (unnamed_before _ j i e' Hlt He' Hu'). lia.
Qed.

Lemma extractImports_placeholders_witness :
  ∃ imports s',
    extractImports catsFile (importsOf mixedImports) initialParserState
    = Returns imports s'
    ∧ uniqueIdCounter s' = 3
    ∧ ∀ imp imp', imports !! 0 = Some imp → imports !! 2 = Some imp' →
                  i_name imp ≠ i_name imp'.
Proof.
  destruct (extractImports_placeholders catsFile (importsOf mixedImports)
              initialParserState)
    as (imports & s' & Hrun & _ & Hcounter & _ & _ & Hdistinct).
  exists imports, s'. split; [exact Hrun|]. split; [exact Hcounter|].
  intros imp imp' Himp Himp'.
  by apply (Hdistinct 0 2 (call "make()()" (call "make()" (ident "make") []) [])
              malformedForwardRef imp imp').
Defined.

Lemma parseProvider_run (sourceFile : SourceFile) (element : Node) (s : ParserState) :
  ∃ o s',
    parseProvider sourceFile element s = Returns o s'
    ∧ uniqueIdCounter s' = uniqueIdCounter s
    ∧ moduleCache s' = moduleCache s
    ∧ providerCache s' = cacheAll (providerCache s) (option_list o)
    ∧ p_name <$> o = providerToken element.
Proof.
  unfold parseProvider, providerToken.
  destruct (kind element) as [text| | | | | |properties|]; try (by eexists _, _).
  unfold parseProviderObjectLiteral, hasNamedField.
  destruct (truthy (getPropertyValue properties "provide")) eqn:Hprovide;
    [|by eexists _, _].
  cbn [negb]. destruct (providerBinding sourceFile properties _ _ _) as [type deps].
  eexists _, _. split; [reflexivity|]. cbn. repeat split; try done.
  f_equal. by rewrite <- truthy_default.
Qed.

Lemma providersOfElements_run (sourceFile : SourceFile) (elements : list Node) :
  ∀ s, ∃ parsed s',
    mapEach (parseProvider sourceFile) elements s = Returns parsed s'
    ∧ uniqueIdCounter s' = uniqueIdCounter s
    ∧ moduleCache s' = moduleCache s
    ∧ providerCache s' = cacheAll (providerCache s) (omap id parsed)
    ∧ map p_name (omap id parsed) = omap providerToken elements.
Proof.
  induction elements as [|element rest IH]; intros s.
  - by exists [], s.
  - destruct (parseProvider_run sourceFile element s)
      as (o & s1 & Hrun1 & Hc1 & Hm1 & Hp1 & Hname1).
    destruct (IH s1) as (parsed & s' & Hrun & Hc & Hm & Hp & Hnames).
    exists (o :: parsed), s'. cbn [mapEach]. unfold bind. rewrite Hrun1, Hrun.
    split; [done|]. split; [congruence|]. split; [congruence|].
    rewrite Hp, Hp1. split; [by destruct o|].
    cbn [omap list_omap]. rewrite <- Hname1, <- Hnames. by destruct o.
Qed.

Lemma extractProviders_elements (sourceFile : SourceFile)
    (node : list ObjectLiteralElementLike) (s : ParserState) :
  extractProviders sourceFile node s
  = match mapEach (parseProvider sourceFile) (providerElements node) s with
    | Returns parsed s' => Returns (omap id parsed) s'
    | Throws e => Throws e
    end.
Proof.
  unfold extractProviders, providerElements.
  destruct (findPropertyAssignment node "providers") as [initializer|]; [|done].
  by destruct (kind initializer).
Qed.

Lemma extractProviders_run (sourceFile : SourceFile)
    (node : list ObjectLiteralElementLike) (s : ParserState) :
  ∃ providers s',
    extractProviders sourceFile node s = Returns providers s'
    ∧ uniqueIdCounter s' = uniqueIdCounter s
    ∧ moduleCache s' = moduleCache s
    ∧ providerCache s' = cacheAll (providerCache s) providers
    ∧ map p_name providers = omap providerToken (providerElements node).
Proof.
  rewrite extractProviders_elements.
  destruct (providersOfElements_run sourceFile (providerElements node) s)
    as (parsed & s' & -> & Hrest).
  by exists (omap id parsed), s'.
Qed.

Lemma cacheAll_other (providers : list ProviderMetadata) :
  ∀ (cache : gmap string ProviderMetadata) (name : string),
    Forall (λ q, p_name q ≠ name) providers →
    cacheAll cache providers !! name = cache !! name.
Proof.
  induction providers as [|p rest IH]; intros cache name Hall; [done|].
  apply Forall_cons in Hall as [Hp Hrest]. unfold cacheAll in *. cbn [foldl].
  rewrite IH by done. by apply lookup_insert_ne.
Qed.

Lemma cacheAll_last (providers : list ProviderMetadata) :
  ∀ (cache : gmap string ProviderMetadata) (p : ProviderMetadata),
    p ∈ providers →
    ∃ q, cacheAll cache providers !! p_name p = Some q
         ∧ p_name q = p_name p ∧ q ∈ providers.
Proof.
  induction providers as [|x rest IH]; intros cache p Hp.
  - by apply elem_of_nil in Hp.
  - destruct (decide (Exists (λ q, p_name q = p_name p) rest)) as [Hlater|Hnone].
    + apply Exists_exists in Hlater as (r & Hr & Hname).
      destruct (IH (<[p_name x := x]> cache) r Hr) as (q & Hq & Hqname & Hqin).
      exists q. rewrite <- Hname. split; [exact Hq|]. split; [done | set_solver].
    + apply not_Exists_Forall in Hnone; [|intros q; apply _].
      assert (p = x) as ->.
      { apply elem_of_cons in Hp as [->|Hp]; [done|].
        rewrite Forall_forall in Hnone. by destruct (Hnone p Hp). }
      exists x. unfold cacheAll. cbn [foldl].
      pose proof (cacheAll_other rest (<[p_name x := x]> cache) (p_name x)) as Hother.
      unfold cacheAll in Hother. rewrite Hother.
      * rewrite lookup_insert_eq. split; [done|]. split; [done | set_solver].
      * eapply Forall_impl; [exact Hnone|]. done.
Qed.

(** X7. Extracting the providers never throws and touches neither the
    counter nor the module cache. The providers returned are, in order, one
    for each element that is an identifier (named after it) or an object
    literal whose [provide] is an identifier or a non-empty string literal
    (named after the token); all other elements are dropped. Every returned
    provider is registered in the provider cache under its name, a later
    provider of the same name replacing an earlier one, so that the cache
    holds, for each returned provider, a returned provider of that name. *)
Theorem extractProviders_registered (sourceFile : SourceFile)
    (node : list ObjectLiteralElementLike) (s : ParserState) :
  ∃ providers s',
    extractProviders sourceFile node s = Returns providers s'
    ∧ uniqueIdCounter s' = uniqueIdCounter s
    ∧ moduleCache s' = moduleCache s
    ∧ map p_name providers = omap providerToken (providerElements node)
    ∧ providerCache s' = cacheAll (providerCache s) providers
    ∧ Forall (λ p, ∃ q, providerCache s' !! p_name p = Some q
                        ∧ p_name q = p_name p ∧ q ∈ providers) providers.
Proof.
  destruct (extractProviders_run sourceFile node s)
    as (providers & s' & Hrun & Hc & Hm & Hp & Hnames).
  exists providers, s'. repeat (split; [done|]).
  apply Forall_forall. intros p Hin. rewrite Hp. by apply cacheAll_last.
Qed.

(** X8. A provider is marked injectable only when it has type [class] and
    the file declares a class, named by the provider's [useClass] or else by
    its name, that carries an [Injectable(...)] decorator; value and factory
    providers are never injectable. *)
Theorem injectable_only_declared (sourceFile : SourceFile) (element : Node)
    (s s' : ParserState) (provider : ProviderMetadata) :
  parseProvider sourceFile element s = Returns (Some provider) s' →
  p_isInjectable provider = true →
  p_type provider = class
  ∧ ∃ className classDecl,
      (p_useClass provider = Some className
       ∨ (truthy (p_useClass provider) = false ∧ className = p_name provider))
      ∧ findClassDeclaration sourceFile className = Some classDecl
      ∧ hasDecorator classDecl "Injectable" = true.
Proof.
  unfold parseProvider. destruct (kind element) as [text| | | | | |properties|]; try done.
  - intros [= <- _]. unfold createProviderMetadata. cbn.
    destruct (findClassDeclaration sourceFile text) as [classDecl|] eqn:Hclass; [|done].
    intros Hinjectable. split; [done|]. exists text, classDecl. split; [by right|]. done.
  - unfold parseProviderObjectLiteral.
    destruct (truthy (getPropertyValue properties "provide")); [|done]. cbn [negb].
    destruct (providerBinding sourceFile properties _ _ _) as [type deps].
    intros [= <- _]. cbn. destruct type; try done.
    unfold isClassInjectable.
    destruct (truthy (getPropertyValue properties "useClass")) eqn:Huse.
    + destruct (findClassDeclaration sourceFile _) as [classDecl|] eqn:Hclass; [|done].
      intros Hinjectable. split; [done|]. eexists _, classDecl.
      split; [left; by apply truthy_default|]. done.
    + destruct (findClassDeclaration sourceFile _) as [classDecl|] eqn:Hclass; [|done].
      intros Hinjectable. split; [done|]. eexists _, classDecl.
      split; [by right|]. done.
Qed.

Lemma injectable_only_declared_witness :
  ∃ classDecl,
    findClassDeclaration injectableFile "CatsService" = Some classDecl
    ∧ hasDecorator classDecl "Injectable" = true.
Proof.
  destruct (injectable_only_declared injectableFile (ident "CatsService")
              initialParserState
              {| uniqueIdCounter := 1;
                 moduleCache := ∅;
                 providerCache :=
                   <["CatsService" := createProviderMetadata injectableFile "CatsService"]> ∅ |}
              (createProviderMetadata injectableFile "CatsService")
              eq_refl eq_refl)
    as (_ & className & classDecl & [Huse|[_ ->]] & Hclass & Hdecorated).
  - discriminate Huse.
  - by exists classDecl.
Defined.

(** ** The outcome of parsing a file *)

Lemma head_omap_Some {A B} (f : A → option B) (l : list A) (y : B) :
  head (omap f l) = Some y → ∃ x, x ∈ l ∧ f x = Some y.
Proof.
  induction l as [|x l IH]; [done|]. cbn. destruct (f x) as [z|] eqn:Hx.
  - intros [= ->]. exists x. split; [set_solver | done].
  - intros (x' & Hin & Hx')%IH. exists x'. split; [set_solver | done].
Qed.

Lemma findModuleClass_Some (sourceFile : SourceFile) (node : ClassDeclaration) :
  findModuleClass sourceFile = Some node →
  ClassDeclarationStatement node ∈ statements sourceFile
  ∧ truthy (class_name node) = true
  ∧ hasDecorator node "Module" = true
  ∧ includes (default EmptyString (class_name node)) "Unknown" = false
  ∧ includes (default EmptyString (class_name node)) "Angular" = false.
Proof.
  intros (stmt & Hin & Hstmt)%head_omap_Some.
  destruct stmt as [c| |]; try done.
  destruct (truthy (class_name c)) eqn:Hname; cbn [andb] in Hstmt; [|done].
  destruct (hasDecorator c "Module") eqn:Hdecorator; cbn [andb] in Hstmt; [|done].
  destruct (includes _ "Unknown") eqn:Hunknown; cbn [andb negb] in Hstmt; [done|].
  destruct (includes _ "Angular") eqn:Hangular; cbn [andb negb] in Hstmt; [done|].
  injection Hstmt as <-. done.
Qed.

Lemma parseModuleDecorator_placeholder (sourceFile : SourceFile) (node : ClassDeclaration)
    (s : ParserState) :
  decoratorLiteral node = None →
  parseModuleDecorator sourceFile node s
  = Returns (placeholderModule (uniqueIdCounter s)) (advanceCounter s).
Proof.
  unfold decoratorLiteral, parseModuleDecorator.
  destruct (findDecorator node "Module") as [decorator|]; [|done].
  destruct (kind (dec_expression decorator)) as [| |expression arguments| | | | |];
    try done.
  destruct (head arguments) as [argument|]; [|done].
  by destruct (kind argument).
Qed.

Lemma parseModuleDecorator_literal (sourceFile : SourceFile) (node : ClassDeclaration)
    (properties : list ObjectLiteralElementLike) (text : string) (s : ParserState) :
  decoratorLiteral node = Some properties →
  class_name node = Some text →
  ∃ imports providers s',
    extractImports sourceFile properties s
    = Returns imports
        {| uniqueIdCounter := uniqueIdCounter s';
           moduleCache := moduleCache s;
           providerCache := providerCache s |}
    ∧ moduleCache s' = moduleCache s
    ∧ providerCache s' = cacheAll (providerCache s) providers
    ∧ length imports = length (importElements properties)
    ∧ Forall (λ imp, i_dependencies imp = Some [] ∧ i_module imp = None) imports
    ∧ map p_name providers = omap providerToken (providerElements properties)
    ∧ parseModuleDecorator sourceFile node s
      = if existsb argumentlessRegistration (importElements properties)
        then Throws TypeError
        else Returns {| m_name := text;
                        m_filePath := Some (fileName sourceFile);
                        m_imports := imports;
                        m_exports := extractExports properties;
                        m_providers := providers;
                        m_controllers := extractControllers properties;
                        m_entityCount :=
                          total (map entitiesOf (importElements properties)) |} s'.
Proof.
  intros Hliteral Hname.
  destruct (importsOfElements_run sourceFile (importElements properties) s)
    as (imports & s1 & Himports & Hlen & Hc1 & Hm1 & Hp1 & _ & Hall).
  rewrite <- extractImports_elements in Himports.
  destruct (extractProviders_run sourceFile properties s1)
    as (providers & s2 & Hproviders & Hc2 & Hm2 & Hp2 & Hnames).
  exists imports, providers, s2.
  split; [|split; [congruence|split; [congruence|split; [done|split; [done|split;
          [done|]]]]]].
  { rewrite Himports. f_equal. destruct s1 as [c1 m1 p1]. cbn in *. congruence. }
  unfold decoratorLiteral in Hliteral. unfold parseModuleDecorator.
  destruct (findDecorator node "Module") as [decorator|]; [|done].
  destruct (kind (dec_expression decorator)) as [| |expression arguments| | | | |];
    try done.
  destruct (head arguments) as [argument|]; [|done].
  destruct (kind argument) as [| | | | | |props|]; try done.
  injection Hliteral as ->. rewrite Hname. unfold bind at 1. unfold ret at 1.
  unfold bind at 1. rewrite Himports. unfold bind at 1. rewrite Hproviders.
  unfold bind. rewrite extractEntityCount_run.
  by destruct (existsb argumentlessRegistration (importElements properties)).
Qed.

Lemma providersEnriched (cache : gmap string ProviderMetadata)
    (providers : list ProviderMetadata) :
  ∃ enriched,
    mapM (enrichProvider cache) providers = Some enriched
    ∧ map p_name enriched = map p_name providers.
Proof.
  induction providers as [|p ps IH]; [by exists []|].
  destruct IH as (enriched & Hps & Hnames).
  destruct (getProviderDependencyTree_returns cache (p_name p)) as (deps & Hdeps & _).
  exists (withDependencies p deps :: enriched). split; [|cbn; by rewrite Hnames].
  change (mapM (enrichProvider cache) (p :: ps))
    with (y ← enrichProvider cache p; k ← mapM (enrichProvider cache) ps; mret (y :: k)).
  assert (enrichProvider cache p = Some (withDependencies p deps)) as ->
    by (unfold enrichProvider; by rewrite Hdeps).
  by rewrite Hps.
Qed.

Lemma enrich_returns (s : ParserState) (metadata : ModuleMetadata ProviderMetadata) :
  ∃ providers,
    map p_name providers = map p_name (m_providers metadata)
    ∧ enrichWithSecondLevelDependencies s metadata
      = Some {| m_name := m_name metadata;
                m_filePath := m_filePath metadata;
                m_imports :=
                  map (λ importMeta,
                         withImportDependencies importMeta
                           (getModuleDependencies (moduleCache s) (i_name importMeta)))
                      (m_imports metadata);
                m_exports := m_exports metadata;
                m_providers := providers;
                m_controllers := m_controllers metadata;
                m_entityCount := m_entityCount metadata |}.
Proof.
  destruct (providersEnriched (providerCache s) (m_providers metadata))
    as (providers & Hmap & Hnames).
  exists providers. split; [done|].
  unfold enrichWithSecondLevelDependencies. by rewrite Hmap.
Qed.

Lemma parseModule_found (sourceFile : SourceFile) (node : ClassDeclaration)
    (s : ParserState) :
  findModuleClass sourceFile = Some node →
  match parseModuleDecorator sourceFile node s with
  | Throws e => parseModule sourceFile s = Throws e
  | Returns metadata s1 =>
      truthy (Some (m_name metadata)) = true →
      ∃ providers,
        map p_name providers = map p_name (m_providers metadata)
        ∧ parseModule sourceFile s
          = Returns
              (Some {| m_name := m_name metadata;
                       m_filePath := m_filePath metadata;
                       m_imports :=
                         map (λ importMeta,
                                withImportDependencies importMeta
                                  (getModuleDependencies
                                     (<[m_name metadata := metadata]> (moduleCache s1))
                                     (i_name importMeta)))
                             (m_imports metadata);
                       m_exports := m_exports metadata;
                       m_providers := providers;
                       m_controllers := m_controllers metadata;
                       m_entityCount := m_entityCount metadata |})
              {| uniqueIdCounter := uniqueIdCounter s1;
                 moduleCache :=
                   <[m_name metadata :=
                       {| m_name := m_name metadata;
                          m_filePath := m_filePath metadata;
                          m_imports :=
                            map (λ importMeta,
                                   withImportDependencies importMeta
                                     (getModuleDependencies
                                        (<[m_name metadata := metadata]> (moduleCache s1))
                                        (i_name importMeta)))
                                (m_imports metadata);
                          m_exports := m_exports metadata;
                          m_providers := providers;
                          m_controllers := m_controllers metadata;
                          m_entityCount := m_entityCount metadata |}]>
                     (<[m_name metadata := metadata]> (moduleCache s1));
                 providerCache := providerCache s1 |}
  end.
Proof.
  intros Hclass. unfold parseModule. rewrite Hclass.
  destruct (parseModuleDecorator sourceFile node s) as [metadata s1|e] eqn:Hdecorator;
    [|unfold bind at 1; by rewrite Hdecorator].
  intros Hname. unfold bind at 1. rewrite Hdecorator, Hname. cbn [negb].
  unfold bind, setModuleCache, getState.
  destruct (enrich_returns
              {| uniqueIdCounter := uniqueIdCounter s1;
                 moduleCache := <[m_name metadata := metadata]> (moduleCache s1);
                 providerCache := providerCache s1 |} metadata)
    as (providers & Hnames & Henrich).
  exists providers. split; [done|]. rewrite Henrich. done.
Qed.

Lemma parseModule_throws (sourceFile : SourceFile) (s : ParserState) :
  throwingFile sourceFile = true → parseModule sourceFile s = Throws TypeError.
Proof.
  unfold throwingFile.
  destruct (findModuleClass sourceFile) as [node|] eqn:Hclass; [|done].
  destruct (decoratorLiteral node) as [properties|] eqn:Hliteral; [|done].
  intros Hthrows.
  destruct (findModuleClass_Some _ _ Hclass) as (_ & Hname & _).
  destruct (class_name node) as [text|] eqn:Htext; [|done].
  destruct (parseModuleDecorator_literal sourceFile node properties text s Hliteral Htext)
    as (imports & providers & s' & _ & _ & _ & _ & _ & _ & Hrun).
  rewrite Hthrows in Hrun.
  pose proof (parseModule_found sourceFile node s Hclass) as Hfound.
  by rewrite Hrun in Hfound.
Qed.

Lemma getModuleDependencies_single (metadata : ModuleMetadata ProviderMetadata)
    (name : string) :
  getModuleDependencies (<[m_name metadata := metadata]> ∅) name
  = if String.eqb name (m_name metadata)
    then map i_name (m_imports metadata) ++ map p_name (m_providers metadata)
    else [].
Proof.
  unfold getModuleDependencies. destruct (String.eqb_spec name (m_name metadata)) as [->|Hne].
  - by rewrite lookup_insert_eq.
  - rewrite lookup_insert_ne by done. by rewrite lookup_empty.
Qed.

Lemma parseModule_returns (sourceFile : SourceFile) (node : ClassDeclaration)
    (s : ParserState) :
  findModuleClass sourceFile = Some node →
  throwingFile sourceFile = false →
  ∃ md s',
    parseModule sourceFile s = Returns (Some md) s'
    ∧ truthy (Some (m_name md)) = true
    ∧ moduleCache s' !! m_name md = Some md
    ∧ (decoratorLiteral node = None → md = placeholderModule (uniqueIdCounter s))
    ∧ (∀ properties,
         decoratorLiteral node = Some properties →
         class_name node = Some (m_name md)
         ∧ m_filePath md = Some (fileName sourceFile)
         ∧ m_exports md = extractExports properties
         ∧ m_controllers md = extractControllers properties
         ∧ m_entityCount md = total (map entitiesOf (importElements properties))
         ∧ length (m_imports md) = length (importElements properties)
         ∧ map p_name (m_providers md)
           = omap providerToken (providerElements properties))
    ∧ (moduleCache s = ∅ →
       Forall (λ imp, i_dependencies imp = Some (selfDependencies md imp)) (m_imports md)).
Proof.
  intros Hclass Hquiet.
  pose proof (parseModule_found sourceFile node s Hclass) as Hfound.
  destruct (findModuleClass_Some _ _ Hclass) as (_ & Hname & _).
  unfold throwingFile in Hquiet. rewrite Hclass in Hquiet.
  destruct (decoratorLiteral node) as [properties|] eqn:Hliteral.
  - destruct (class_name node) as [text|] eqn:Htext; [|done].
    destruct (parseModuleDecorator_literal sourceFile node properties text s Hliteral Htext)
      as (imports & providers & s1 & _ & Hmc & _ & Hlen & Hall & Hnames & Hrun).
    rewrite Hquiet in Hrun. rewrite Hrun in Hfound.
    destruct (Hfound Hname) as (enriched & Henriched & Hparse). cbn in *.
    eexists _, _. split; [exact Hparse|]. cbn.
    split; [done|]. split; [by rewrite lookup_insert_eq|]. split; [done|]. split.
    + intros ? [= <-]. repeat split; try done.
      * by rewrite length_map.
      * congruence.
    + intros Hempty. rewrite Hmc, Hempty. apply Forall_forall.
      intros imp (imp0 & <- & Hin)%list_elem_of_In%in_map_iff. cbn. f_equal.
      pose proof (getModuleDependencies_single
                    {| m_name := text;
                       m_filePath := Some (fileName sourceFile);
                       m_imports := imports;
                       m_exports := extractExports properties;
                       m_providers := providers;
                       m_controllers := extractControllers properties;
                       m_entityCount :=
                         total (map entitiesOf (importElements properties)) |}
                    (i_name imp0)) as Hsingle.
      cbn in Hsingle. rewrite Hsingle. unfold selfDependencies. cbn.
      destruct (String.eqb (i_name imp0) text); [|done].
      rewrite map_map, Henriched. done.
  - rewrite parseModuleDecorator_placeholder in Hfound by done.
    destruct (Hfound eq_refl) as (enriched & Henriched & Hparse). cbn in *.
    destruct enriched; [|done].
    eexists _, _. split; [exact Hparse|]. cbn.
    split; [done|]. split; [by rewrite lookup_insert_eq|]. split; [done|].
    split; [done|]. intros _. constructor.
Qed.

(** X9. Parsing a file has one of three outcomes. Without a qualifying
    module class it returns no module and leaves the parser as it is. When
    the module class declares a registration call without argument among
    its imports, it throws a TypeError. Otherwise it returns a module with a
    non-empty name, which the parser's module cache then holds under that
    name: the placeholder when the decorator has no object-literal argument,
    and else the module named after the class, with the file's name as file
    path, one import per element of the [imports] array, the providers
    registered in the [providers] array, and the identifiers of [exports]
    and [controllers]. *)
Theorem parseModule_outcome (sourceFile : SourceFile) (s : ParserState) :
  (findModuleClass sourceFile = None → parseModule sourceFile s = Returns None s)
  ∧ (throwingFile sourceFile = true → parseModule sourceFile s = Throws TypeError)
  ∧ (∀ node,
       findModuleClass sourceFile = Some node →
       throwingFile sourceFile = false →
       ∃ md s',
         parseModule sourceFile s = Returns (Some md) s'
         ∧ truthy (Some (m_name md)) = true
         ∧ moduleCache s' !! m_name md = Some md
         ∧ (decoratorLiteral node = None → md = placeholderModule (uniqueIdCounter s))
         ∧ (∀ properties,
              decoratorLiteral node = Some properties →
              class_name node = Some (m_name md)
              ∧ m_filePath md = Some (fileName sourceFile)
              ∧ m_exports md = extractExports properties
              ∧ m_controllers md = extractControllers properties
              ∧ m_entityCount md = total (map entitiesOf (importElements properties))
              ∧ length (m_imports md) = length (importElements properties)
              ∧ map p_name (m_providers md)
                = omap providerToken (providerElements properties))).
Proof.
  split; [|split].
  - intros Hnone. unfold parseModule. by rewrite Hnone.
  - apply parseModule_throws.
  - intros node Hclass Hquiet.
    destruct (parseModule_returns sourceFile node s Hclass Hquiet)
      as (md & s' & Hrun & Hname & Hcache & Hplaceholder & Hliteral & _).
    by exists md, s'.
Qed.

Lemma parseModule_outcome_witness :
  parseModule catsFile initialParserState = Returns None initialParserState
  ∧ parseModule forRootFile initialParserState = Throws TypeError
  ∧ ∃ md s',
      parseModule catsModuleFile initialParserState = Returns (Some md) s'
      ∧ m_name md = "CatsModule"
      ∧ m_entityCount md = 3
      ∧ map p_name (m_providers md) = ["CatsService"].
Proof.
  destruct (parseModule_outcome catsFile initialParserState) as (Hnone & _ & _).
  destruct (parseModule_outcome forRootFile initialParserState) as (_ & Hthrows & _).
  destruct (parseModule_outcome catsModuleFile initialParserState) as (_ & _ & Hreturns).
  split; [exact (Hnone eq_refl)|]. split; [exact (Hthrows eq_refl)|].
  destruct (Hreturns _ eq_refl eq_refl) as (md & s' & Hrun & _ & _ & _ & Hliteral).
  destruct (Hliteral _ eq_refl) as (Hname & _ & _ & _ & Hcount & _ & Hproviders).
  exists md, s'. injection Hname as Hname.
  split; [exact Hrun|]. split; [by symmetry|]. split; [exact Hcount | exact Hproviders].
Defined.

(** X10. With a parser whose module cache is empty, as the analyzer makes it
    for each file, the second-pass enrichment gives every import of the
    returned module an empty dependencies list, except an import that names
    the module itself, which gets the module's own import names followed by
    its provider names. *)
Theorem fresh_parser_import_dependencies (sourceFile : SourceFile) (s s' : ParserState)
    (md : ModuleMetadata ProviderMetadata) :
  moduleCache s = ∅ →
  parseModule sourceFile s = Returns (Some md) s' →
  Forall (λ imp, i_dependencies imp = Some (selfDependencies md imp)) (m_imports md)
  ∧ Forall (λ imp, i_name imp ≠ m_name md → i_dependencies imp = Some []) (m_imports md).
Proof.
  intros Hempty Hrun.
  destruct (findModuleClass sourceFile) as [node|] eqn:Hclass;
    [|unfold parseModule in Hrun; by rewrite Hclass in Hrun].
  destruct (throwingFile sourceFile) eqn:Hquiet;
    [by rewrite parseModule_throws in Hrun|].
  destruct (parseModule_returns sourceFile node s Hclass Hquiet)
    as (md' & s'' & Hrun' & _ & _ & _ & _ & Hdeps).
  rewrite Hrun in Hrun'. injection Hrun' as <- _.
  specialize (Hdeps Hempty). split; [exact Hdeps|].
  eapply Forall_impl; [exact Hdeps|]. intros imp -> Hother. unfold selfDependencies.
  by apply String.eqb_neq in Hother as ->.
Qed.

Lemma fresh_parser_import_dependencies_witness :
  ∃ md s',
    parseModule catsModuleFile initialParserState = Returns (Some md) s'
    ∧ map i_name (m_imports md) = ["CatsModule"; "TypeOrmModule"]
    ∧ Forall (λ imp, i_dependencies imp = Some (selfDependencies md imp)) (m_imports md)
    ∧ Forall (λ imp, i_name imp ≠ m_name md → i_dependencies imp = Some []) (m_imports md).
Proof.
  eexists _, _. split; [reflexivity|]. split; [reflexivity|].
  exact (fresh_parser_import_dependencies catsModuleFile initialParserState _ _
           eq_refl eq_refl).
Defined.

(** ** The outcome of an analysis *)

Lemma analyzeFiles_failed (files : list SourceFile) (e : string) :
  foldl analyzeFile (inl e) files = inl e.
Proof. induction files as [|file files IH]; [done | exact IH]. Qed.

Lemma parseModule_quiet (sourceFile : SourceFile) (s : ParserState) :
  throwingFile sourceFile = false →
  ∃ result s', parseModule sourceFile s = Returns result s'.
Proof.
  intros Hquiet. destruct (findModuleClass sourceFile) as [node|] eqn:Hclass.
  - destruct (parseModule_returns sourceFile node s Hclass Hquiet) as (md & s' & Hrun & _).
    by exists (Some md), s'.
  - exists None, s. unfold parseModule. by rewrite Hclass.
Qed.

Lemma analyzeFiles_outcome (files : list SourceFile) (st : Analyzer) :
  if existsb throwingFile files
  then foldl analyzeFile (inr st) files = inl TypeError
  else ∃ st', foldl analyzeFile (inr st) files = inr st'.
Proof.
  revert st. induction files as [|file files IH]; intros st; [by exists st|].
  cbn [existsb foldl analyzeFile]. destruct (throwingFile file) eqn:Hfile; cbn [orb].
  - rewrite parseModule_throws by done. apply analyzeFiles_failed.
  - destruct (parseModule_quiet file initialParserState Hfile) as ([md|] & s' & ->);
      apply IH.
Qed.

(** X11. An analysis fails, with a TypeError, exactly when one of the
    scanned files declares a module whose imports hold a registration call
    without argument; in every other case it returns a linked mapping. *)
Theorem analyze_outcome (files : list SourceFile) :
  if existsb throwingFile files
  then analyze files = inl TypeError
  else ∃ linked, analyze files = inr linked.
Proof.
  unfold analyze.
  pose proof (analyzeFiles_outcome files {| modules := []; store := ∅ |}) as Hscan.
  destruct (existsb throwingFile files).
  - by rewrite Hscan.
  - destruct Hscan as (st' & ->). by eexists.
Qed.

(** ** The mapping an analysis returns *)

Lemma withDependencies_eta (p : ProviderMetadata) :
  withDependencies p (p_dependencies p) = p.
Proof. by destruct p. Qed.

Lemma sameButDependencies_refl (p : ProviderMetadata) : sameButDependencies p p.
Proof. split; [by rewrite withDependencies_eta | done]. Qed.

Lemma sameButDependencies_trans (p q r : ProviderMetadata) :
  sameButDependencies p q → sameButDependencies q r → sameButDependencies p r.
Proof.
  intros [Hq Hlen] [Hr Hlen']. split; [|congruence].
  rewrite Hr at 1. rewrite Hq. done.
Qed.

Lemma sameButDependencies_relinked (st : Analyzer) (p : ProviderMetadata) :
  sameButDependencies p (relinked st p).
Proof. split; [done|]. cbn. by rewrite length_map. Qed.

Lemma relinkAll_lookup (st : Analyzer) (array : list addr) :
  ∀ (h : gmap addr ProviderMetadata) (a : addr) (p : ProviderMetadata),
    h !! a = Some p →
    ∃ q, relinkAll st h array !! a = Some q ∧ sameButDependencies p q.
Proof.
  induction array as [|x array IH]; intros h a p Hp.
  - exists p. split; [done|]. apply sameButDependencies_refl.
  - unfold relinkAll in *. cbn [foldl]. destruct (decide (x = a)) as [->|Hne].
    + destruct (IH (alter (relinked st) a h) a (relinked st p)) as (q & Hq & Hsame).
      { by rewrite lookup_alter_eq, Hp. }
      exists q. split; [done|].
      eapply sameButDependencies_trans; [apply sameButDependencies_relinked | done].
    + apply IH. by rewrite lookup_alter_ne.
Qed.

Lemma relinkAll_dom (st : Analyzer) (array : list addr) (h : gmap addr ProviderMetadata) :
  dom (relinkAll st h array) = dom h.
Proof.
  revert h. induction array as [|x array IH]; intros h; [done|].
  unfold relinkAll in *. cbn [foldl]. rewrite IH. apply dom_alter_L.
Qed.

Lemma sameImport_linked (values : list (ModuleMetadata addr))
    (imports : list (ImportMetadata addr)) :
  Forall2 sameImport imports (map (linkImport values) imports).
Proof. induction imports as [|imp imports IH]; constructor; done. Qed.

Lemma sameImport_stored (imports : list (ImportMetadata ProviderMetadata)) :
  Forall2 sameImport imports (map storeImport imports).
Proof. induction imports as [|imp imports IH]; constructor; done. Qed.

Lemma sameImport_trans {P Q R} (imports : list (ImportMetadata P))
    (imports' : list (ImportMetadata Q)) (imports'' : list (ImportMetadata R)) :
  Forall2 sameImport imports imports' → Forall2 sameImport imports' imports'' →
  Forall2 sameImport imports imports''.
Proof.
  intros Hfirst. revert imports''.
  induction Hfirst as [|imp imp' imports imports' (? & ? & ? & ?) _ IH];
    intros imports'' Hsecond; inversion Hsecond as [|? imp'' ? ? (? & ? & ? & ?)]; subst;
    constructor; [|by apply IH].
  repeat split; congruence.
Qed.

Lemma mapSet_keys {V} (key : string) (v : V) (entries : list (string * V)) (k : string) :
  k ∈ map fst (mapSet key v entries) → k = key ∨ k ∈ map fst entries.
Proof.
  induction entries as [|[k0 x] rest IH]; cbn.
  - set_solver.
  - destruct (String.eqb_spec k0 key) as [->|Hne]; cbn; [set_solver|].
    intros [->|Hrest]%elem_of_cons; [set_solver|]. destruct (IH Hrest); set_solver.
Qed.

Lemma mapSet_NoDup_keys {V} (key : string) (v : V) (entries : list (string * V)) :
  NoDup (map fst entries) → NoDup (map fst (mapSet key v entries)).
Proof.
  induction entries as [|[k0 x] rest IH]; cbn.
  - intros _. apply NoDup_singleton.
  - intros [Hfresh Hrest]%NoDup_cons.
    destruct (String.eqb_spec k0 key) as [->|Hne]; cbn; apply NoDup_cons.
    + done.
    + split; [|by apply IH]. intros [->|Hin]%mapSet_keys; done.
Qed.

Lemma mapSet_Forall {V} (P : string * V → Prop) (key : string) (v : V)
    (entries : list (string * V)) :
  P (key, v) → Forall P entries → Forall P (mapSet key v entries).
Proof.
  intros Hnew. induction 1 as [|[k0 x] rest Hx Hrest IH]; cbn.
  - by constructor.
  - destruct (String.eqb k0 key); by constructor.
Qed.

Lemma mapSet_length {V} (key : string) (v : V) (entries : list (string * V)) :
  length (mapSet key v entries) ≤ S (length entries).
Proof.
  induction entries as [|[k0 x] rest IH]; cbn; [lia|].
  destruct (String.eqb k0 key); cbn; lia.
Qed.

Lemma allocate_lookup (providers : list ProviderMetadata) :
  ∀ (h h' : gmap addr ProviderMetadata) (array : list addr),
    allocate providers h = (array, h') →
    Forall2 (λ p a, h' !! a = Some p) providers array.
Proof.
  induction providers as [|provider rest IH]; intros h h' array.
  - intros [= <- <-]. constructor.
  - cbn [allocate].
    destruct (allocate rest (<[fresh (dom h) := provider]> h)) as [array1 h1] eqn:Hrest.
    intros [= <- <-]. constructor; [|by eapply IH].
    destruct (allocate_spec _ _ _ _ Hrest) as (_ & _ & Hkept & _).
    apply Hkept. by rewrite lookup_insert_eq.
Qed.

Lemma parsedFrom_store (file : SourceFile) (h h' : gmap addr ProviderMetadata)
    (m : ModuleMetadata addr) :
  (∀ a p, h !! a = Some p → ∃ q, h' !! a = Some q ∧ sameButDependencies p q) →
  parsedFrom file h m → parsedFrom file h' m.
Proof.
  intros Hstore (md & s' & Hrun & Hname & Hpath & Hexports & Hcontrollers & Hcount
                 & Himports & Hproviders).
  exists md, s'. repeat (split; [done|]).
  eapply Forall2_impl; [exact Hproviders|].
  intros p a (q & Hq & Hsame). destruct (Hstore a q Hq) as (r & Hr & Hsame').
  exists r. split; [done|]. by eapply sameButDependencies_trans.
Qed.

Lemma registerModule_entries (files : list SourceFile) (st : Analyzer) (file : SourceFile)
    (md : ModuleMetadata ProviderMetadata) (s' : ParserState) :
  file ∈ files →
  parseModule file initialParserState = Returns (Some md) s' →
  entriesOf files st →
  entriesOf files (registerModule st (fileName file) md)
  ∧ length (modules (registerModule st (fileName file) md)) ≤ S (length (modules st)).
Proof.
  intros Hfile Hrun [Hentries Hkeys]. unfold registerModule.
  destruct (truthy (Some (m_name md))) eqn:Hname; [|split; [done | lia]].
  destruct (allocate (m_providers md) (store st)) as [array h] eqn:Halloc.
  destruct (allocate_spec _ _ _ _ Halloc) as (_ & _ & Hkept & _).
  split; [|apply mapSet_length]. split; [|by apply mapSet_NoDup_keys].
  cbn [modules store]. apply mapSet_Forall.
  - cbn. split; [done|]. split; [done|]. exists file. split; [done|].
    exists md, s'. cbn. repeat (split; [done|]). split; [apply sameImport_stored|].
    eapply Forall2_impl; [by eapply allocate_lookup|].
    intros p a Hp. exists p. split; [done|]. apply sameButDependencies_refl.
  - eapply Forall_impl; [exact Hentries|].
    intros [k m] (Hk & Htruthy & file' & Hfile' & Hparsed).
    split; [done|]. split; [done|]. exists file'. split; [done|].
    eapply parsedFrom_store; [|exact Hparsed].
    intros a p Hp. exists p. split; [by apply Hkept|]. apply sameButDependencies_refl.
Qed.

Lemma analyzeFiles_entries (all files : list SourceFile) :
  ∀ st st' : Analyzer,
    (∀ file, file ∈ files → file ∈ all) →
    entriesOf all st →
    foldl analyzeFile (inr st) files = inr st' →
    entriesOf all st' ∧ length (modules st') ≤ length (modules st) + length files.
Proof.
  induction files as [|file files IH]; intros st st' Hall Hentries.
  - intros [= <-]. split; [done|]. cbn. lia.
  - cbn [foldl analyzeFile].
    destruct (parseModule file initialParserState) as [[md|] s|e] eqn:Hparse.
    + intros Hrest.
      destruct (registerModule_entries all st file md s) as [Hregistered Hlength];
        [set_solver | done | done |].
      destruct (IH _ st' ltac:(set_solver) Hregistered Hrest) as [Hfinal Hlength'].
      split; [done|]. cbn [length]. lia.
    + intros Hrest.
      destruct (IH _ st' ltac:(set_solver) Hentries Hrest) as [Hfinal Hlength'].
      split; [done|]. cbn [length]. lia.
    + by rewrite analyzeFiles_failed.
Qed.

Lemma resolveModuleDependencies_entries (files : list SourceFile) (st : Analyzer) :
  entriesOf files st → entriesOf files (resolveModuleDependencies st).
Proof.
  intros [Hentries Hkeys]. rewrite resolveModuleDependencies_closed.
  split; cbn [modules store]; [|by rewrite map_map].
  apply Forall_forall. intros entry (entry0 & <- & Hin)%list_elem_of_In%in_map_iff.
  apply list_elem_of_In in Hin.
  destruct (proj1 (Forall_forall _ _) Hentries entry0 Hin)
    as (Hk & Htruthy & file & Hfile & Hparsed).
  split; [done|]. split; [done|]. exists file. split; [done|].
  destruct (parsedFrom_store file (store st) (relinkAll st (store st) (allArrays st))
              entry0.2 ltac:(intros a p; apply relinkAll_lookup) Hparsed)
    as (md & s' & Hrun & Hname & Hpath & Hexports & Hcontrollers & Hcount
        & Himports & Hproviders).
  exists md, s'. cbn. repeat (split; [done|]). split; [|done].
  eapply sameImport_trans; [exact Himports | apply sameImport_linked].
Qed.

(** X12. In the mapping an analysis returns, every key is the name of its
    module and is not empty, no key occurs twice, and there are at most as
    many modules as scanned files. Every module is what the parser returns
    for one of the scanned files: it has that module's name, exports,
    controllers and entity count, the file's name as file path, the same
    imports but for their [path] and [module], and the same providers but
    for their dependencies lists, which keep their lengths. *)
Theorem analyze_entries (files : list SourceFile) (linked : Analyzer) :
  analyze files = inr linked →
  entriesOf files linked ∧ length (modules linked) ≤ length files.
Proof.
  unfold analyze.
  destruct (foldl analyzeFile _ files) as [e|st] eqn:Hscan; [done|].
  intros [= <-].
  destruct (analyzeFiles_entries files files {| modules := []; store := ∅ |} st)
    as [Hentries Hlength]; [done | by split; constructor | done |].
  split; [by apply resolveModuleDependencies_entries|].
  rewrite resolveModuleDependencies_closed. cbn [modules length] in *.
  rewrite length_map. lia.
Qed.

Lemma analyze_entries_witness :
  ∃ linked,
    analyze [catsFile; catsModuleFile] = inr linked
    ∧ map fst (modules linked) = ["CatsModule"]
    ∧ entriesOf [catsFile; catsModuleFile] linked
    ∧ length (modules linked) ≤ 2.
Proof.
  eexists. split; [reflexivity|]. split; [reflexivity|].
  exact (analyze_entries [catsFile; catsModuleFile] _ eq_refl).
Defined.

(** X13. Linking changes nothing but the [path] and [module] of imports and
    the dependencies lists of providers. The mapping keeps its keys in
    their order; every module keeps its name, file path, exports, provider
    array, controllers and entity count, and every import its name, flags
    and dependencies; the store keeps its addresses, every provider object
    keeps all fields but its dependencies list, which keeps its length, and
    a provider object in no module's array is left as it is. *)
Theorem resolveModuleDependencies_frame (st : Analyzer) :
  map fst (modules (resolveModuleDependencies st)) = map fst (modules st)
  ∧ Forall2 sameModule (moduleValues st) (moduleValues (resolveModuleDependencies st))
  ∧ dom (store (resolveModuleDependencies st)) = dom (store st)
  ∧ (∀ a p, store st !! a = Some p →
            ∃ q, store (resolveModuleDependencies st) !! a = Some q
                 ∧ sameButDependencies p q)
  ∧ (∀ a, a ∉ allArrays st → store (resolveModuleDependencies st) !! a = store st !! a).
Proof.
  rewrite resolveModuleDependencies_closed. unfold moduleValues. cbn [modules store].
  split; [by rewrite map_map|]. split.
  - induction (modules st) as [|[k m] entries IH]; cbn; constructor; [|exact IH].
    repeat (split; [done|]). apply sameImport_linked.
  - split; [apply relinkAll_dom|]. split.
    + intros a p. apply relinkAll_lookup.
    + intros a. apply relinkAll_unvisited.
Qed.

Lemma resolveModuleDependencies_frame_witness :
  (∃ q, store (resolveModuleDependencies sampleGraph) !! 0 = Some q
        ∧ sameButDependencies
            (sampleProvider "AService" (Some "AService") ["TOKEN"; "Y"]) q)
  ∧ store (resolveModuleDependencies sampleGraph) !! 7 = store sampleGraph !! 7.
Proof.
  destruct (resolveModuleDependencies_frame sampleGraph)
    as (_ & _ & _ & Hkept & Huntouched).
  split.
  - exact (Hkept 0 _ eq_refl).
  - apply Huntouched. unfold allArrays, moduleValues. cbn. set_solver.
Defined.

Lemma parseModule_key (file : SourceFile) (md : ModuleMetadata ProviderMetadata)
    (s' : ParserState) :
  parseModule file initialParserState = Returns (Some md) s' →
  ∃ node, findModuleClass file = Some node ∧ keyOf node (m_name md).
Proof.
  intros Hrun.
  destruct (findModuleClass file) as [node|] eqn:Hclass;
    [|unfold parseModule in Hrun; by rewrite Hclass in Hrun].
  destruct (throwingFile file) eqn:Hquiet; [by rewrite parseModule_throws in Hrun|].
  destruct (parseModule_returns file node initialParserState Hclass Hquiet)
    as (md' & s'' & Hrun' & _ & _ & Hplaceholder & Hliteral & _).
  rewrite Hrun in Hrun'. injection Hrun' as <- _.
  exists node. split; [done|]. unfold keyOf.
  destruct (decoratorLiteral node) as [properties|].
  - destruct (Hliteral properties eq_refl) as (Hname & _).
    destruct (findModuleClass_Some _ _ Hclass) as (_ & _ & _ & Hunknown & Hangular).
    rewrite Hname in Hunknown, Hangular. done.
  - by rewrite Hplaceholder.
Qed.

Lemma keyOf_functional (node : ClassDeclaration) (key key' : string) :
  keyOf node key → keyOf node key' → key = key'.
Proof.
  unfold keyOf. destruct (decoratorLiteral node); [|congruence].
  intros [Hname _] [Hname' _]. congruence.
Qed.

Lemma mapSet_elem {V} (key : string) (v : V) (entries : list (string * V)) :
  (key, v) ∈ mapSet key v entries.
Proof.
  induction entries as [|[k0 x] rest IH]; cbn; [set_solver|].
  destruct (String.eqb k0 key); set_solver.
Qed.

Lemma mapSet_other {V} (key k : string) (v x : V) (entries : list (string * V)) :
  k ≠ key → (k, x) ∈ entries → (k, x) ∈ mapSet key v entries.
Proof.
  intros Hne. induction entries as [|[k0 x0] rest IH]; cbn; [set_solver|].
  destruct (String.eqb_spec k0 key) as [->|Hk0].
  - intros [[= -> ->]|Hrest]%elem_of_cons; [done | set_solver].
  - intros [Hhead|Hrest]%elem_of_cons; [set_solver|]. specialize (IH Hrest). set_solver.
Qed.

Lemma NoDup_keys_unique {V} (entries : list (string * V)) (k : string) (x y : V) :
  NoDup (map fst entries) → (k, x) ∈ entries → (k, y) ∈ entries → x = y.
Proof.
  induction entries as [|[k0 x0] rest IH]; cbn; [set_solver|].
  intros [Hfresh Hrest]%NoDup_cons Hx Hy.
  assert (∀ z, (k0, z) ∈ rest → False) as Habsent.
  { intros z Hz. apply Hfresh. apply list_elem_of_In, in_map_iff.
    exists (k0, z). split; [done | by apply list_elem_of_In]. }
  apply elem_of_cons in Hx as [Hx|Hx]; apply elem_of_cons in Hy as [Hy|Hy].
  - congruence.
  - injection Hx as -> ->. exfalso. by eapply Habsent.
  - injection Hy as -> ->. exfalso. by eapply Habsent.
  - by apply IH.
Qed.

(** Registering the parser's result for a file puts it under its name. *)
Lemma registerModule_entry (st : Analyzer) (file : SourceFile)
    (md : ModuleMetadata ProviderMetadata) (s' : ParserState) :
  parseModule file initialParserState = Returns (Some md) s' →
  truthy (Some (m_name md)) = true →
  ∃ module,
    (m_name md, module) ∈ modules (registerModule st (fileName file) md)
    ∧ parsedFrom file (store (registerModule st (fileName file) md)) module.
Proof.
  intros Hrun Hname. unfold registerModule. rewrite Hname.
  destruct (allocate (m_providers md) (store st)) as [array h] eqn:Halloc.
  eexists. split; [apply mapSet_elem|].
  exists md, s'. cbn. repeat (split; [done|]). split; [apply sameImport_stored|].
  eapply Forall2_impl; [by eapply allocate_lookup|].
  intros p a Hp. exists p. split; [done|]. apply sameButDependencies_refl.
Qed.

(** Registering a module under another name keeps an entry and what its
    provider array holds. *)
Lemma registerModule_keeps (st : Analyzer) (filePath : string)
    (md : ModuleMetadata ProviderMetadata) (file : SourceFile) (key : string)
    (module : ModuleMetadata addr) :
  m_name md ≠ key →
  (key, module) ∈ modules st → parsedFrom file (store st) module →
  (key, module) ∈ modules (registerModule st filePath md)
  ∧ parsedFrom file (store (registerModule st filePath md)) module.
Proof.
  intros Hne Hentry Hparsed. unfold registerModule.
  destruct (truthy (Some (m_name md))); [|done].
  destruct (allocate (m_providers md) (store st)) as [array h] eqn:Halloc.
  destruct (allocate_spec _ _ _ _ Halloc) as (_ & _ & Hkept & _).
  split; [by apply mapSet_other|]. cbn [store].
  eapply parsedFrom_store; [|exact Hparsed].
  intros a p Hp. exists p. split; [by apply Hkept|]. apply sameButDependencies_refl.
Qed.

Lemma analyzeFiles_keeps (file : SourceFile) (key : string) (module : ModuleMetadata addr)
    (after : list SourceFile) :
  ∀ st st' : Analyzer,
    (∀ later node, later ∈ after → findModuleClass later = Some node → ¬ keyOf node key) →
    foldl analyzeFile (inr st) after = inr st' →
    (key, module) ∈ modules st → parsedFrom file (store st) module →
    (key, module) ∈ modules st' ∧ parsedFrom file (store st') module.
Proof.
  induction after as [|later after IH]; intros st st' Hlater.
  - by intros [= <-].
  - cbn [foldl analyzeFile].
    destruct (parseModule later initialParserState) as [[md|] s|e] eqn:Hparse.
    + intros Hrest Hentry Hparsed.
      destruct (parseModule_key later md s Hparse) as (node & Hclass & Hkey).
      destruct (registerModule_keeps st (fileName later) md file key module)
        as [Hentry' Hparsed']; [|done|done|].
      { intros <-. eapply Hlater; [|exact Hclass|exact Hkey]. set_solver. }
      eapply IH; [|exact Hrest|done|done].
      intros later' node' Hin. apply Hlater. set_solver.
    + intros Hrest. eapply IH; [|exact Hrest].
      intros later' node' Hin. apply Hlater. set_solver.
    + by rewrite analyzeFiles_failed.
Qed.

Lemma analyzeFiles_split (before after : list SourceFile) (file : SourceFile)
    (st st' : Analyzer) :
  foldl analyzeFile (inr st) (before ++ file :: after) = inr st' →
  ∃ st1, foldl analyzeFile (analyzeFile (inr st1) file) after = inr st'.
Proof.
  rewrite foldl_app. cbn [foldl].
  destruct (foldl analyzeFile (inr st) before) as [e|st1]; [|by exists st1].
  cbn [analyzeFile]. by rewrite analyzeFiles_failed.
Qed.

Lemma parsedFrom_linked (st : Analyzer) (file : SourceFile) (module : ModuleMetadata addr) :
  parsedFrom file (store st) module →
  parsedFrom file (store (resolveModuleDependencies st))
    (withImports module (map (linkImport (moduleValues st)) (m_imports module))).
Proof.
  intros Hparsed. rewrite resolveModuleDependencies_closed. cbn [store].
  destruct (parsedFrom_store file (store st) (relinkAll st (store st) (allArrays st))
              module ltac:(intros a p; apply relinkAll_lookup) Hparsed)
    as (md & s' & Hrun & Hname & Hpath & Hexports & Hcontrollers & Hcount
        & Himports & Hproviders).
  exists md, s'. cbn. repeat (split; [done|]). split; [|done].
  eapply sameImport_trans; [exact Himports | apply sameImport_linked].
Qed.

(** X14. Every key of the mapping an analysis returns comes from the module
    class of a scanned file, whose name the module carries as file path: it
    is the name of that class, which contains neither [Unknown] nor
    [Angular], when the class's [Module] decorator has an object-literal
    argument, and it is [Module_1] otherwise, whatever the file. No key
    occurs twice, and of the files whose module class gives the same key
    the last one scanned has the entry: the mapping holds under that key
    one module, which is what the parser returns for that file. So the
    modules of all files whose decorator has no object-literal argument
    share the one entry [Module_1], which describes the last of them. *)
Theorem analyze_keys (files : list SourceFile) (linked : Analyzer) :
  analyze files = inr linked →
  (∀ entry, entry ∈ modules linked →
     ∃ file node,
       file ∈ files
       ∧ findModuleClass file = Some node
       ∧ m_filePath entry.2 = Some (fileName file)
       ∧ keyOf node entry.1)
  ∧ NoDup (map fst (modules linked))
  ∧ ∀ (before after : list SourceFile) (file : SourceFile) (node : ClassDeclaration)
      (key : string),
      files = before ++ file :: after →
      findModuleClass file = Some node →
      keyOf node key →
      (∀ later node', later ∈ after → findModuleClass later = Some node' →
                      ¬ keyOf node' key) →
      ∃ module,
        (key, module) ∈ modules linked
        ∧ parsedFrom file (store linked) module
        ∧ ∀ module', (key, module') ∈ modules linked → module' = module.
Proof.
  unfold analyze.
  destruct (foldl analyzeFile _ files) as [e|st] eqn:Hscan; [done|].
  intros [= <-].
  destruct (analyzeFiles_entries files files {| modules := []; store := ∅ |} st)
    as [Hentries _]; [done | by split; constructor | done |].
  destruct (resolveModuleDependencies_entries files st Hentries) as [Hlinked Hkeys].
  split; [|split; [exact Hkeys|]].
  - intros entry Hentry.
    destruct (proj1 (Forall_forall _ _) Hlinked entry Hentry)
      as (Hkey & _ & file & Hfile & md & s' & Hrun & Hname & Hpath & _).
    destruct (parseModule_key file md s' Hrun) as (node & Hclass & Hnode).
    exists file, node. rewrite Hkey, Hname. done.
  - intros before after file node key -> Hclass Hkey Hlater.
    apply analyzeFiles_split in Hscan as (st1 & Hrest). cbn [analyzeFile] in Hrest.
    destruct (parseModule file initialParserState) as [[md|] s|e] eqn:Hparse.
    + destruct (parseModule_key file md s Hparse) as (node' & Hclass' & Hkey').
      rewrite Hclass in Hclass'. injection Hclass' as <-.
      rewrite (keyOf_functional node key (m_name md) Hkey Hkey') in *.
      assert (truthy (Some (m_name md)) = true) as Hname.
      { destruct (throwingFile file) eqn:Hquiet;
          [by rewrite parseModule_throws in Hparse|].
        destruct (parseModule_returns file node initialParserState Hclass Hquiet)
          as (md' & s'' & Hrun' & Hname & _).
        rewrite Hparse in Hrun'. by injection Hrun' as <- _. }
      destruct (registerModule_entry st1 file md s Hparse Hname)
        as (module & Hentry & Hparsed).
      destruct (analyzeFiles_keeps file (m_name md) module after _ st Hlater Hrest
                  Hentry Hparsed) as [Hfinal Hparsed'].
      exists (withImports module (map (linkImport (moduleValues st)) (m_imports module))).
      assert ((m_name md,
               withImports module (map (linkImport (moduleValues st)) (m_imports module)))
              ∈ modules (resolveModuleDependencies st)) as Hin.
      { rewrite resolveModuleDependencies_closed. cbn [modules].
        apply list_elem_of_In, in_map_iff. exists (m_name md, module).
        split; [done | by apply list_elem_of_In]. }
      split; [exact Hin|]. split; [by apply parsedFrom_linked|].
      intros module' Hin'. by eapply NoDup_keys_unique.
    + exfalso. unfold parseModule in Hparse. rewrite Hclass in Hparse.
      pose proof (parseModule_found file node initialParserState Hclass) as Hfound.
      unfold parseModule in Hfound. rewrite Hclass in Hfound.
      destruct (throwingFile file) eqn:Hquiet.
      * pose proof (parseModule_throws file initialParserState Hquiet) as Hthrows.
        unfold parseModule in Hthrows. rewrite Hclass in Hthrows. congruence.
      * destruct (parseModule_returns file node initialParserState Hclass Hquiet)
          as (md' & s'' & Hrun' & _).
        unfold parseModule in Hrun'. rewrite Hclass in Hrun'. congruence.
    + by rewrite analyzeFiles_failed in Hrest.
Qed.

Lemma analyze_keys_witness :
  ∃ linked,
    analyze [bareModuleFile; configuredModuleFile; catsModuleFile] = inr linked
    ∧ map (λ entry, (entry.1, m_filePath entry.2)) (modules linked)
      = [("Module_1", Some "core.module.ts"); ("CatsModule", Some "cats.module.ts")]
    ∧ ∃ module,
        ("Module_1", module) ∈ modules linked
        ∧ parsedFrom configuredModuleFile (store linked) module
        ∧ ∀ module', ("Module_1", module') ∈ modules linked → module' = module.
Proof.
  eexists. split; [reflexivity|]. split; [reflexivity|].
  destruct (analyze_keys [bareModuleFile; configuredModuleFile; catsModuleFile] _ eq_refl)
    as (_ & _ & Hlast).
  apply (Hlast [bareModuleFile] [catsModuleFile] configuredModuleFile _ "Module_1"
           eq_refl eq_refl eq_refl).
  intros later node' ->%list_elem_of_singleton [= <-] Hkey.
  vm_compute in Hkey. destruct Hkey as [Hname _]. discriminate Hname.
Defined.

(** ** The path of an import *)

Lemma splitPop_no_slash (s : string) : hasSlash (splitPop s) = false.
Proof.
  induction s as [|c s IH]; [done|]. cbn [splitPop].
  destruct (hasSlash s) eqn:Hrest; [done|].
  destruct (Ascii.eqb c "/") eqn:Hc; [done|]. cbn [hasSlash]. by rewrite Hc, Hrest.
Qed.

Lemma splitPop_suffix (s : string) :
  hasSlash s = true → ∃ directory, s = directory +:+ "/" +:+ splitPop s.
Proof.
  induction s as [|c s IH]; [done|]. cbn [hasSlash splitPop].
  destruct (hasSlash s) eqn:Hrest.
  - intros _. destruct (IH eq_refl) as (directory & Hs).
    exists (String c directory).
    change (String c s = String c (directory +:+ "/" +:+ splitPop s)). by f_equal.
  - rewrite orb_false_r. intros ->%Ascii.eqb_eq. by exists EmptyString.
Qed.

Lemma prefix_hasSlash (a s : string) :
  String.prefix a s = true → hasSlash a = true → hasSlash s = true.
Proof.
  revert s. induction a as [|c a IH]; intros [|d s]; try done. cbn.
  destruct (ascii_dec c d) as [->|]; [|done].
  intros Hprefix. destruct (Ascii.eqb d "/"); [done|]. cbn. by apply IH.
Qed.

(** X15. When the parser resolves a path for an import, the file has an
    import declaration that binds the identifier (as default, named or
    namespace import) and whose module specifier is a string literal. For a
    specifier that starts with [@nestjs/] the path is the part of the
    specifier after its last slash, and so contains no slash; for every
    other specifier the path is the specifier itself. *)
Theorem resolveImportPath_result (sourceFile : SourceFile) (identifier : Node)
    (path : string) :
  resolveImportPath sourceFile identifier = Some path →
  ∃ importDecl specifier,
    ImportDeclarationStatement importDecl ∈ statements sourceFile
    ∧ importMatches (getText identifier) (ImportDeclarationStatement importDecl)
      = Some importDecl
    ∧ kind (moduleSpecifier importDecl) = StringLiteral specifier
    ∧ if String.prefix "@nestjs/" specifier
      then hasSlash path = false ∧ ∃ directory, specifier = directory +:+ "/" +:+ path
      else path = specifier.
Proof.
  unfold resolveImportPath.
  destruct (head _) as [importDecl|] eqn:Hfound; [|done].
  apply head_omap_Some in Hfound as (stmt & Hin & Hmatches).
  assert (stmt = ImportDeclarationStatement importDecl) as ->.
  { destruct stmt as [|decl|]; try done. cbn in Hmatches.
    destruct (importClause decl) as [clause|]; [|done].
    destruct (bool_decide _); [congruence|].
    destruct (ic_namedBindings clause) as [[elements|name]|]; [| |done].
    - destruct (existsb _ elements); congruence.
    - destruct (String.eqb name _); congruence. }
  destruct (kind (moduleSpecifier importDecl)) eqn:Hkind; try done.
  intros Hpath. eexists importDecl, _. repeat (split; [done|]).
  destruct (String.prefix "@nestjs/" _) eqn:Hprefix; [|congruence].
  injection Hpath as <-. split; [apply splitPop_no_slash|].
  apply splitPop_suffix. by eapply prefix_hasSlash.
Qed.

Lemma resolveImportPath_result_witness :
  resolveImportPath importsFile (ident "TypeOrmModule") = Some "typeorm"
  ∧ ∃ importDecl specifier,
      ImportDeclarationStatement importDecl ∈ statements importsFile
      ∧ importMatches "TypeOrmModule" (ImportDeclarationStatement importDecl)
        = Some importDecl
      ∧ kind (moduleSpecifier importDecl) = StringLiteral specifier
      ∧ if String.prefix "@nestjs/" specifier
        then hasSlash "typeorm" = false
             ∧ ∃ directory, specifier = directory +:+ "/" +:+ "typeorm"
        else "typeorm" = specifier.
Proof.
  split; [reflexivity|].
  exact (resolveImportPath_result importsFile (ident "TypeOrmModule") "typeorm" eq_refl).
Defined.

(** ** The lines of the diagram text *)

Lemma occurrences_app (c : ascii) (a b : string) :
  occurrences c (a +:+ b) = occurrences c a + occurrences c b.
Proof.
  induction a as [|d a IH]; [done|].
  change (String d a +:+ b) with (String d (a +:+ b)). cbn [occurrences].
  rewrite IH. lia.
Qed.

Lemma occurrences_hasChar (c : ascii) (s : string) :
  hasChar c s = false → occurrences c s = 0.
Proof.
  induction s as [|d s IH]; [done|]. cbn.
  intros [-> Hrest]%orb_false_elim. by rewrite IH.
Qed.

Lemma occurrences_str (c : ascii) : occurrences c (str c) = 1.
Proof. cbn. by rewrite Ascii.eqb_refl. Qed.

Lemma join_lineCount_le (c : ascii) (lines : list string) :
  length lines ≤ S (occurrences c (String.concat (str c) lines)).
Proof.
  induction lines as [|x lines IH]; [cbn; lia|].
  destruct lines as [|y lines]; [cbn; lia|].
  change (String.concat (str c) (x :: y :: lines))
    with (x +:+ str c +:+ String.concat (str c) (y :: lines)).
  rewrite !occurrences_app, occurrences_str. cbn [length] in *. lia.
Qed.

Lemma join_lineCount (c : ascii) (lines : list string) :
  lines ≠ [] →
  Forall (λ line, hasChar c line = false) lines →
  S (occurrences c (String.concat (str c) lines)) = length lines.
Proof.
  intros Hlines Hclean. induction Hclean as [|x lines Hx Hclean IH]; [done|].
  destruct lines as [|y lines]; [cbn; by rewrite occurrences_hasChar|].
  change (String.concat (str c) (x :: y :: lines))
    with (x +:+ str c +:+ String.concat (str c) (y :: lines)).
  rewrite !occurrences_app, occurrences_str, (occurrences_hasChar c x) by done.
  cbn [length] in *. specialize (IH ltac:(done)). lia.
Qed.

Lemma escapeName_clean (name : string) :
  hasChar linefeed name = false → hasChar linefeed (escapeName name) = false.
Proof.
  induction name as [|c name IH]; [done|]. cbn.
  intros [Hc Hrest]%orb_false_elim.
  destruct (Ascii.eqb c dquote); cbn; rewrite ?Hc; by apply IH.
Qed.

Lemma nodeLine_clean (moduleName : string) (module : ModuleMetadata addr) :
  hasChar linefeed moduleName = false →
  hasChar linefeed (nodeLine moduleName module) = false.
Proof.
  intros Hname. unfold nodeLine, quoted, escapeLabel. cbv zeta.
  rewrite !hasChar_app, escapeLinefeeds_clean, escapeName_clean by done. done.
Qed.

Lemma importLine_clean (moduleName : string) (imp : ImportMetadata addr) :
  hasChar linefeed moduleName = false →
  hasChar linefeed (i_name imp) = false →
  hasChar linefeed (importLine moduleName imp) = false.
Proof.
  intros Hmodule Hname. unfold importLine, quoted. cbv zeta.
  rewrite !hasChar_app, !escapeName_clean by done.
  by destruct (i_isForwardReference imp) as [[|]|].
Qed.

Lemma providerLine_clean (provider : ProviderMetadata) (dep : string) :
  hasChar linefeed (p_name provider) = false →
  hasChar linefeed dep = false →
  hasChar linefeed (providerLine provider dep) = false.
Proof.
  intros Hname Hdep. unfold providerLine, quoted.
  rewrite !hasChar_app, !escapeName_clean by done. done.
Qed.

Lemma generateLines_clean (st : Analyzer) :
  namesOnOneLine st = true →
  Forall (λ line, hasChar linefeed line = false) (generateLines st).
Proof.
  intros Hnames. unfold namesOnOneLine in Hnames.
  rewrite forallb_forall in Hnames.
  assert (∀ moduleName module,
            In (moduleName, module) (modules st) →
            hasChar linefeed moduleName = false
            ∧ (∀ imp, In imp (m_imports module) → hasChar linefeed (i_name imp) = false)
            ∧ (∀ provider dep,
                 In provider (providersAt (store st) (m_providers module)) →
                 In dep (p_dependencies provider) →
                 hasChar linefeed (p_name provider) = false
                 ∧ hasChar linefeed dep = false)) as Hentry.
  { intros moduleName module Hin. specialize (Hnames _ Hin). cbn in Hnames.
    apply andb_prop in Hnames as [[Hkey Himports]%andb_prop Hproviders].
    rewrite forallb_forall in Himports. rewrite forallb_forall in Hproviders.
    split; [by apply negb_true_iff|]. split.
    - intros imp Himp. by apply negb_true_iff, Himports.
    - intros provider dep Hprovider Hdep.
      destruct (andb_prop _ _ (Hproviders _ Hprovider)) as [Hname Hdeps].
      rewrite forallb_forall in Hdeps.
      split; [by apply negb_true_iff | by apply negb_true_iff, Hdeps]. }
  clear Hnames. unfold generateLines. repeat apply Forall_app_2.
  - by repeat constructor.
  - apply Forall_forall. intros line ([moduleName module] & <- & Hin)%list_elem_of_In%in_map_iff.
    apply nodeLine_clean. by apply (Hentry _ _ Hin).
  - by repeat constructor.
  - apply Forall_forall. intros line (lines & Hlines & Hline)%list_elem_of_In%in_concat.
    apply in_map_iff in Hlines as ([moduleName module] & <- & Hin).
    apply in_map_iff in Hline as (imp & <- & Himp).
    destruct (Hentry _ _ Hin) as (Hkey & Himports & _).
    apply importLine_clean; [done | by apply Himports].
  - apply Forall_forall. intros line (lines & Hlines & Hline)%list_elem_of_In%in_concat.
    apply in_map_iff in Hlines as ([moduleName module] & <- & Hin).
    apply in_concat in Hline as (edges & Hedges & Hline).
    apply in_map_iff in Hedges as (provider & <- & Hprovider).
    apply in_map_iff in Hline as (dep & <- & Hdep).
    destruct (Hentry _ _ Hin) as (_ & _ & Hproviders).
    destruct (Hproviders provider dep Hprovider Hdep) as [Hname Hclean].
    by apply providerLine_clean.
  - by repeat constructor.
Qed.

Lemma generateLines_nonempty (st : Analyzer) : generateLines st ≠ [].
Proof. done. Qed.

(** X3. The text [generate] returns starts with the four header lines and
    ends with a line that holds the closing brace. It has at least six lines
    and one more for every module, every import and every dependency of
    every provider object that a module's array holds in the store; it has
    exactly that many when no module key, import name, provider name or
    dependency holds a line feed, which [escapeName] would leave in the
    line. *)
Theorem generate_lineCount (st : Analyzer) :
  (∃ body,
     generate st
     = String.concat (str linefeed)
         ["digraph {"; "  rankdir=LR;";
          "  node [shape=box, style=filled, fillcolor=lightgray];"; EmptyString]
       +:+ str linefeed +:+ body +:+ str linefeed +:+ "}")
  ∧ 6 + length (modules st)
    + total (map (λ entry, length (m_imports entry.2)) (modules st))
    + total (map (λ entry, dependencyCount st entry.2) (modules st))
    ≤ lineCount (generate st)
  ∧ (namesOnOneLine st = true →
     lineCount (generate st)
     = 6 + length (modules st)
       + total (map (λ entry, length (m_imports entry.2)) (modules st))
       + total (map (λ entry, dependencyCount st entry.2) (modules st))).
Proof.
  destruct (generateLines_count st) as (Hcount & _ & _).
  split; [|split].
  - unfold generate, generateLines.
    assert (∀ (A : Type) (l l' : list A) (x : A), l ++ [x] ++ l' ≠ []) as Hblank.
    { intros A l l' x Hnil. apply (f_equal length) in Hnil.
      rewrite !length_app in Hnil. cbn in Hnil. lia. }
    rewrite join_app; [|done|apply Hblank].
    rewrite !app_assoc. rewrite join_app; [|rewrite <- !app_assoc; apply Hblank|done].
    by eexists.
  - rewrite <- Hcount. unfold generate, lineCount. apply join_lineCount_le.
  - intros Hnames. rewrite <- Hcount. unfold generate, lineCount.
    apply join_lineCount; [apply generateLines_nonempty | by apply generateLines_clean].
Qed.

Lemma generate_lineCount_witness : lineCount (generate sampleGraph) = 13.
Proof. exact (proj2 (proj2 (generate_lineCount sampleGraph)) eq_refl). Defined.
